(** * Outreach message pipeline of the Titan MCP server

    A shallow embedding of the business logic of
    [mcp-server/tools/outreach.py], [mcp-server/tools/resume.py] and of the
    [get_outreach_context] tool of [mcp-server/server.py], together with the
    properties the specification states about them.  Around them: the
    webhook actions and the writing tools of [server.py], the Airtable
    adapter ([tools/airtable.py]), the contact search
    ([tools/apollo.py]) and the replies of the review thread
    ([tools/discord_tools.py], [discord-bot/bot.py]).

    Modelling conventions.
    - A Python [str] is a [list ascii]; a character is a code point below
      256, so [len] is [length], [s[:n]] is a prefix and [+] is [++].
    - Python integers are [Z].
    - [Optional[str]] is [option str]; a dict with a fixed set of keys is a
      record, a key that may be absent is an [option] field.
    - A call that may raise returns an [outcome]: [Return v] or [Raise e].
    - The external collaborators (Airtable adapter, Postgres, the
      text-generation service) are explicit arguments: every theorem holds
      for whatever they answer. *)

From Stdlib Require Import List Ascii String ZArith Lia Bool Arith Sorted.
From Stdlib Require DecimalString.
From Corelib Require Import PrimFloat.
Import ListNotations.

Set Implicit Arguments.

Local Open Scope Z_scope.

(* ================================================================== *)
(** ** Python values used by the tools *)
(* ================================================================== *)

Module Py.

(** A Python string, as the sequence of its characters. *)
Definition str : Type := list ascii.

(** String literals are written as Rocq strings. *)
Definition lit (s : string) : str := list_ascii_of_string s.

Definition len (s : str) : Z := Z.of_nat (List.length s).

Definition str_eqb (a b : str) : bool :=
  if list_eq_dec ascii_dec a b then true else false.

(** Truthiness of a [str]: the empty string is falsy. *)
Definition nonempty (s : str) : bool :=
  match s with [] => false | _ :: _ => true end.

(** Truthiness of an [Optional[str]]: [None] and [""] are falsy. *)
Definition truthy (o : option str) : bool :=
  match o with Some s => nonempty s | None => false end.

(** [a or b] on optional strings. *)
Definition or_else (a b : option str) : option str :=
  if truthy a then a else b.

(** The string held by an optional that is known to be one; [None]
    reads as the empty string. *)
Definition unwrap (o : option str) : str :=
  match o with Some s => s | None => [] end.

(** [s[:n]] for any integer [n]: a negative bound counts from the end. *)
Definition slice_to (s : str) (n : Z) : str :=
  if 0 <=? n then firstn (Z.to_nat n) s
  else firstn (Z.to_nat (len s + n)) s.

(** [s.rfind(c)] for a one-character needle: the highest index holding
    [c], or -1. *)
Fixpoint rfind (c : ascii) (s : str) : Z :=
  match s with
  | [] => -1
  | x :: t =>
      let r := rfind c t in
      if 0 <=? r then r + 1
      else if Ascii.eqb x c then 0 else -1
  end.

(** [str.isspace] on one character: the code points below 256 that
    Python counts as whitespace. *)
Definition isspace (c : ascii) : bool :=
  let n := nat_of_ascii c in
  ((9 <=? n) && (n <=? 13) || (28 <=? n) && (n <=? 32)
   || (n =? 133) || (n =? 160))%nat.

Fixpoint lstrip (drop : ascii -> bool) (s : str) : str :=
  match s with
  | [] => []
  | c :: t => if drop c then lstrip drop t else s
  end.

Definition rstrip (drop : ascii -> bool) (s : str) : str :=
  rev (lstrip drop (rev s)).

(** [s.strip(chars)], with the character set as a predicate. *)
Definition strip_chars (drop : ascii -> bool) (s : str) : str :=
  rstrip drop (lstrip drop s).

(** [s.strip()] *)
Definition strip (s : str) : str := strip_chars isspace s.

Definition dquote : ascii := ascii_of_nat 34.
Definition squote : ascii := ascii_of_nat 39.

Definition is_quote (c : ascii) : bool :=
  Ascii.eqb c dquote || Ascii.eqb c squote.

(** [str.lower] on one character below 256: A-Z and the accented
    capitals 0xC0-0xDE (0xD7, the multiplication sign, apart) move up by
    32. *)
Definition lower_char (c : ascii) : ascii :=
  let n := nat_of_ascii c in
  if ((65 <=? n) && (n <=? 90)
      || (192 <=? n) && (n <=? 222) && negb (n =? 215))%nat
  then ascii_of_nat (n + 32) else c.

Definition lower (s : str) : str := map lower_char s.

Fixpoint startswith (s p : str) {struct p} : bool :=
  match p, s with
  | [], _ => true
  | _ :: _, [] => false
  | a :: p', b :: s' => Ascii.eqb a b && startswith s' p'
  end.

(** [needle in hay] *)
Fixpoint contains (needle hay : str) : bool :=
  startswith hay needle
  || match hay with
     | [] => false
     | _ :: t => contains needle t
     end.

(** [s.endswith(suffix)] *)
Definition endswith (s suffix : str) : bool :=
  startswith (rev s) (rev suffix).

(** Puts a character in front of the first token of a token list. *)
Definition cons_first (c : ascii) (toks : list str) : list str :=
  match toks with
  | [] => [[c]]
  | w :: ws => (c :: w) :: ws
  end.

(** [s.split()]: the maximal runs of non-whitespace characters. *)
Fixpoint split (s : str) : list str :=
  match s with
  | [] => []
  | c :: t =>
      if isspace c then split t
      else match t with
           | [] => [[c]]
           | d :: _ => if isspace d then [c] :: split t
                       else cons_first c (split t)
           end
  end.

(** Exceptions, by class. *)
Inductive exn : Type :=
| IndexError
| ValueError
| TypeError
| AttributeError
| OtherError (message : str).

Inductive outcome (A : Type) : Type :=
| Return (a : A)
| Raise (e : exn).
Arguments Raise {A} e.

Definition bind {A B} (m : outcome A) (k : A -> outcome B) : outcome B :=
  match m with
  | Return a => k a
  | Raise e => Raise e
  end.

(** [toks[0]] *)
Definition item0 (toks : list str) : outcome str :=
  match toks with
  | [] => Raise IndexError
  | t :: _ => Return t
  end.

(** [str(n)] for an integer. *)
Definition str_of_int (n : Z) : str :=
  lit (DecimalString.NilZero.string_of_int (Z.to_int n)).

End Py.

Export Py.

Notation "x <- m ;; k" := (bind m (fun x => k))
  (at level 61, m at next level, right associativity).

(* ================================================================== *)
(** ** tools/outreach.py *)
(* ================================================================== *)

Module Outreach.

Definition newline : str := [ascii_of_nat 10].

(** *** The text-generation service

    [self.client.chat.completions.create(...)] followed by
    [response.choices[0].message.content].  The fixed wording of the
    prompt templates is not reproduced: a prompt is the tuple of the
    values the f-strings interpolate, one constructor per call site.  The
    service is any function of the prompt; it may raise. *)

Inductive epic_section : Type :=
| EpicCertificationGap   (* has_epic_gap *)
| EpicMatch              (* has_epic_requirement and has_epic_skill *)
| NoEpicSection.

Inductive prompt : Type :=
| ColdConnectNotePrompt
    (max_length : Z) (contact_title : str) (epic : epic_section)
    (first_name contact_type_display company job_title
       value_section : str)
| WarmDmPrompt
    (first_name company title_text connected_date target_role
       contact_title_or_unknown contact_type_display value_section : str)
| RefinePrompt (constraint_text current_message edit_instruction : str).

Definition generation_service : Type := prompt -> outcome str.

(** *** _build_value_section *)

(** The em dash of the first header is kept as the three bytes of its
    UTF-8 encoding; only the length of this constant depends on it. *)
Definition cold_email_header : str :=
  lit "Cold email template to condense (DO NOT copy verbatim — distill the core value):"
  ++ newline.

Definition resume_context_header : str :=
  lit "Resume context to draw from:" ++ newline.

Definition highlights_header : str :=
  lit "Background highlights:" ++ newline.

Definition no_background : str :=
  lit "No specific background provided. Focus on genuine interest in the role.".

Definition _build_value_section
    (cold_email_template resume_context : option str)
    (resume_highlights : str) : str :=
  if truthy cold_email_template
  then cold_email_header ++ slice_to (unwrap cold_email_template) 800
  else if truthy resume_context
  then resume_context_header ++ slice_to (unwrap resume_context) 500
  else if nonempty resume_highlights
  then highlights_header ++ slice_to resume_highlights 500
  else no_background.

(** *** _format_contact_type *)

Definition _format_contact_type (contact_type : str) : str :=
  if str_eqb contact_type (lit "hiring_manager") then lit "Hiring Manager"
  else if str_eqb contact_type (lit "recruiter") then lit "Recruiter"
  else if str_eqb contact_type (lit "team_member")
  then lit "Team Member / Peer"
  else lit "Professional".

(** [contact_name.split()[0] if contact_name else "there"] *)
Definition first_name_of (contact_name : str) : outcome str :=
  if nonempty contact_name then item0 (split contact_name)
  else Return (lit "there").

(** [response.choices[0].message.content.strip()], then the [strip] of
    both quote characters. *)
Definition clean_response (content : str) : str :=
  strip_chars is_quote (strip content).

(** *** Hunter pipeline *)

(** [cut_point > max_length * 0.6].  The product is a double; for the
    integers at hand the comparison with it agrees with the exact one,
    [5 * cut_point > 3 * max_length]: when 5 divides [max_length] the
    product rounds to the integer [3 * max_length / 5], otherwise it
    lies strictly between two integers, as the exact value does.  Lemma
    [past_sixty_percent_is_double] computes both for every limit up to
    400. *)
Definition past_sixty_percent (cut_point max_length : Z) : bool :=
  3 * max_length <? 5 * cut_point.

(** The same test on binary64 numbers, the way Python evaluates it: both
    integers are converted, [0.6] is the double nearest to it. *)
Fixpoint float_of_pos (p : positive) : float :=
  match p with
  | xH => 1%float
  | xO q => PrimFloat.mul 2%float (float_of_pos q)
  | xI q => PrimFloat.add (PrimFloat.mul 2%float (float_of_pos q)) 1%float
  end.

Definition float_of_int (n : Z) : float :=
  match n with
  | Z0 => 0%float
  | Zpos p => float_of_pos p
  | Zneg p => PrimFloat.opp (float_of_pos p)
  end.

Definition past_sixty_percent_double (cut_point max_length : Z) : bool :=
  PrimFloat.ltb
    (PrimFloat.mul (float_of_int max_length) 0x1.3333333333333p-1%float)
    (float_of_int cut_point).

(** The block under [# ENFORCE character limit]. *)
Definition enforce_character_limit (max_length : Z) (message : str) : str :=
  if max_length <? len message then
    let truncated := slice_to message max_length in
    let last_period := rfind "."%char truncated in
    let last_question := rfind "?"%char truncated in
    let cut_point := Z.max last_period last_question in
    if past_sixty_percent cut_point max_length
    then slice_to truncated (cut_point + 1)
    else slice_to truncated (max_length - 3) ++ lit "..."
  else message.

Record cold_connect_note : Type := {
  note_success : bool;
  note_message : str;
  note_char_count : Z;
  note_max_allowed : Z;
  note_has_epic_gap : bool;
  note_type : str;
  note_pipeline : str
}.

Definition default_max_length : Z := 295.

Definition generate_cold_connect_note
    (client : generation_service)
    (contact_name contact_title contact_type company job_title
       job_description : str)
    (cold_email_template resume_context : option str)
    (resume_highlights : str)
    (max_length : Z) : outcome cold_connect_note :=
  first_name <- first_name_of contact_name ;;
  let contact_type_display := _format_contact_type contact_type in
  (* EPIC CERTIFICATION LOGIC *)
  let check_text :=
    lower (unwrap (or_else (or_else resume_context (Some resume_highlights))
                           (Some []))) in
  let has_epic_requirement :=
    if nonempty job_description
    then contains (lit "epic") (lower job_description) else false in
  let has_epic_skill := contains (lit "epic") check_text in
  let has_epic_gap := has_epic_requirement && negb has_epic_skill in
  let epic :=
    if has_epic_gap then EpicCertificationGap
    else if has_epic_requirement && has_epic_skill then EpicMatch
    else NoEpicSection in
  let value_section :=
    _build_value_section cold_email_template resume_context
                         resume_highlights in
  content <- client (ColdConnectNotePrompt max_length contact_title epic
                       first_name contact_type_display company job_title
                       value_section) ;;
  let message := clean_response content in
  let message := enforce_character_limit max_length message in
  Return {| note_success := true;
            note_message := message;
            note_char_count := len message;
            note_max_allowed := max_length;
            note_has_epic_gap := has_epic_gap;
            note_type := lit "cold_connect_note";
            note_pipeline := lit "hunter" |}.

(** *** Farmer pipeline *)

Record warm_dm : Type := {
  dm_success : bool;
  dm_message : str;
  dm_char_count : Z;
  dm_type : str;
  dm_pipeline : str
}.

Definition generate_warm_dm
    (client : generation_service)
    (contact_name company target_role connected_date : str)
    (contact_title : option str)
    (contact_type : str)
    (cold_email_template resume_context resume_highlights : option str)
    : outcome warm_dm :=
  first_name <- first_name_of contact_name ;;
  let contact_type_display := _format_contact_type contact_type in
  let title_text :=
    if truthy contact_title
    then lit " (" ++ unwrap contact_title ++ lit ")" else [] in
  let value_section :=
    _build_value_section cold_email_template resume_context
      (unwrap (or_else resume_highlights (Some []))) in
  content <- client (WarmDmPrompt first_name company title_text
                       connected_date target_role
                       (unwrap (or_else contact_title
                                        (Some (lit "Unknown role"))))
                       contact_type_display value_section) ;;
  let message := clean_response content in
  Return {| dm_success := true;
            dm_message := message;
            dm_char_count := len message;
            dm_type := lit "warm_dm";
            dm_pipeline := lit "farmer" |}.

(** *** Message refinement *)

Record refined_message : Type := {
  refined_success : bool;
  refined_text : str;
  refined_char_count : Z;
  refined_max_allowed : option Z;
  refined_pipeline : str
}.

Definition refine_message
    (client : generation_service)
    (current_message edit_instruction : str)
    (max_length : option Z) (pipeline : str) : outcome refined_message :=
  let max_length :=
    match max_length with
    | None => if str_eqb pipeline (lit "hunter")
              then Some default_max_length else None
    | Some n => Some n
    end in
  let constraint_text :=
    match max_length with
    | Some n =>
        if negb (n =? 0)
        then lit "MAXIMUM " ++ str_of_int n ++ lit " characters."
        else lit "No character limit."
    | None => lit "No character limit."
    end in
  content <- client (RefinePrompt constraint_text current_message
                       edit_instruction) ;;
  let message := clean_response content in
  let message :=
    match max_length with
    | Some n =>
        if negb (n =? 0) && (n <? len message)
        then slice_to message (n - 3) ++ lit "..."
        else message
    | None => message
    end in
  Return {| refined_success := true;
            refined_text := message;
            refined_char_count := len message;
            refined_max_allowed := max_length;
            refined_pipeline := pipeline |}.

(** *** Pipeline routing *)

Definition determine_pipeline (connection_degree contact_source : str)
    : str :=
  if str_eqb connection_degree (lit "1st")
     || str_eqb contact_source (lit "csv_import")
  then lit "farmer" else lit "hunter".

(** *** Unified entry point *)

Inductive generated : Type :=
| WarmDm (m : warm_dm)
| ColdConnectNote (m : cold_connect_note).

Definition generate_message
    (client : generation_service)
    (contact_name company job_title contact_title contact_type
       connection_degree contact_source job_description : str)
    (cold_email_template resume_context : option str)
    (resume_highlights : str)
    (connected_date : option str) : outcome generated :=
  let pipeline := determine_pipeline connection_degree contact_source in
  if str_eqb pipeline (lit "farmer") then
    m <- generate_warm_dm client contact_name company job_title
           (unwrap (or_else connected_date (Some (lit "Unknown"))))
           (Some contact_title) contact_type cold_email_template
           resume_context (Some resume_highlights) ;;
    Return (WarmDm m)
  else
    m <- generate_cold_connect_note client contact_name contact_title
           contact_type company job_title job_description
           cold_email_template resume_context resume_highlights
           default_max_length ;;
    Return (ColdConnectNote m).

End Outreach.

(* ================================================================== *)
(** ** tools/resume.py *)
(* ================================================================== *)

Module Resume.

(** *** The Windmill Postgres database

    What [asyncpg] can answer: [connect] either raises or gives a
    connection; a [fetchrow] gives a row, no row, or raises inside the
    [try] of the tool (which turns it into a failure dict).  Columns are
    nullable. *)

Inductive fetched (A : Type) : Type :=
| Row (r : A)
| NoRow
| QueryError (message : str).
Arguments NoRow {A}.
Arguments QueryError {A} message.

(** The columns of [generated_resumes] the tools read. *)
Record generated_resume_row : Type := {
  tailored_content : option str;
  final_content : option str;
  cold_email_recruiter : option str;
  cold_email_manager : option str
}.

Record database : Type := {
  (** [Some e]: [asyncpg.connect] raises [e] *)
  connect_error : option exn;
  (** latest row of [generated_resumes] for an [application_id] *)
  generated_resumes : Z -> fetched generated_resume_row;
  (** [full_text] of the latest row of [resumes] *)
  resumes : fetched (option str)
}.

(** [x or ""] *)
Definition or_empty (x : option str) : option str :=
  or_else x (Some []).

(** *** get_active_resume, called without arguments *)

Record active_resume : Type := {
  ar_success : bool;
  ar_error : option str;
  (** [None] is Python's [None], the value of a NULL column *)
  ar_full_text : option str;
  ar_has_epic : bool
}.

Definition get_active_resume (db : database) : outcome active_resume :=
  match connect_error db with
  | Some e => Raise e
  | None =>
      match resumes db with
      | Row full_text =>
          Return {| ar_success := true;
                    ar_error := None;
                    ar_full_text := full_text;
                    ar_has_epic :=
                      if truthy full_text
                      then contains (lit "epic") (lower (unwrap full_text))
                      else false |}
      | NoRow =>
          Return {| ar_success := false;
                    ar_error := Some (lit "No resume found in database");
                    ar_full_text := Some [];
                    ar_has_epic := false |}
      | QueryError e =>
          Return {| ar_success := false;
                    ar_error := Some (lit "Database error: " ++ e);
                    ar_full_text := Some [];
                    ar_has_epic := false |}
      end
  end.

(** *** get_tailored_resume *)

(** The returned dict; a [None] field is an absent key. *)
Record resume_data : Type := {
  rd_success : bool;
  rd_error : option str;
  rd_tailored_content : option str;
  rd_final_content : option str;
  rd_cold_email_recruiter : option str;
  rd_cold_email_manager : option str
}.

Definition resume_failure (error : str) : resume_data :=
  {| rd_success := false;
     rd_error := Some error;
     rd_tailored_content := None;
     rd_final_content := None;
     rd_cold_email_recruiter := None;
     rd_cold_email_manager := None |}.

Definition get_tailored_resume (db : database) (application_id : Z)
    : outcome resume_data :=
  match connect_error db with
  | Some e => Raise e
  | None =>
      match generated_resumes db application_id with
      | Row row =>
          Return {| rd_success := true;
                    rd_error := None;
                    rd_tailored_content := or_empty (tailored_content row);
                    rd_final_content := or_empty (final_content row);
                    rd_cold_email_recruiter :=
                      or_empty (cold_email_recruiter row);
                    rd_cold_email_manager :=
                      or_empty (cold_email_manager row) |}
      | NoRow =>
          Return (resume_failure
                    (lit "No generated resume found for application_id "
                     ++ str_of_int application_id))
      | QueryError e =>
          Return (resume_failure (lit "Database error: " ++ e))
      end
  end.

(** *** get_cold_email *)

Record cold_email_data : Type := {
  ce_success : bool;
  cold_email : option str;
  resume_context : option str;
  fallback_used : bool;
  source_field : option str;
  note : option str
}.

Definition get_cold_email (db : database) (application_id : Z)
    (contact_type : str) : outcome cold_email_data :=
  resume_data <- get_tailored_resume db application_id ;;
  if negb (rd_success resume_data) then
    Return {| ce_success := true;
              cold_email := None;
              resume_context := None;
              fallback_used := true;
              source_field := None;
              note := Some (match rd_error resume_data with
                            | Some e => e
                            | None => lit "No generated resume found"
                            end) |}
  else
    (* Route by contact type *)
    let '(cold_email, source_field) :=
      if str_eqb contact_type (lit "hiring_manager")
      then (or_else (rd_cold_email_manager resume_data) None,
            Some (lit "cold_email_manager"))
      else if str_eqb contact_type (lit "recruiter")
      then (or_else (rd_cold_email_recruiter resume_data) None,
            Some (lit "cold_email_recruiter"))
      else (None, None) in
    if truthy cold_email then
      Return {| ce_success := true;
                cold_email := cold_email;
                resume_context := or_empty (rd_final_content resume_data);
                fallback_used := false;
                source_field := source_field;
                note := None |}
    else
      (* Fallback chain: final_content -> tailored_content -> None *)
      let resume_context :=
        or_else (or_else (rd_final_content resume_data)
                         (rd_tailored_content resume_data)) None in
      Return {| ce_success := true;
                cold_email := None;
                resume_context := resume_context;
                fallback_used := true;
                source_field :=
                  Some (if truthy (rd_final_content resume_data)
                        then lit "final_content"
                        else lit "tailored_content");
                note := None |}.

(** *** check_skill_match *)

Record skill_match : Type := {
  skill : str;
  requirement_found : bool;
  skill_found : bool;
  has_gap : bool;
  recommendation : option str
}.

Definition recommendation_text (skill_to_check : str) : str :=
  lit "JD requires '" ++ skill_to_check
  ++ lit "' but resume doesn't mention it. "
  ++ lit "Address this gap in outreach.".

(** The first block of [check_skill_match]: the resume text to search.
    [None] is Python's [None]. *)
Definition resume_text_for (db : database) (application_id : option Z)
    : outcome (option str) :=
  match application_id with
  | Some n =>
      if negb (n =? 0) then
        resume_data <- get_tailored_resume db n ;;
        Return (or_empty (or_else (rd_final_content resume_data)
                                  (rd_tailored_content resume_data)))
      else
        resume_data <- get_active_resume db ;;
        Return (ar_full_text resume_data)
  | None =>
      resume_data <- get_active_resume db ;;
      Return (ar_full_text resume_data)
  end.

(** The rest of [check_skill_match], from [jd_lower = ...] on. *)
Definition match_skill (job_description skill_to_check resume_text : str)
    : skill_match :=
  let jd_lower := lower job_description in
  let resume_lower := lower resume_text in
  let skill_lower := lower skill_to_check in
  let requirement_found := contains skill_lower jd_lower in
  let skill_found := contains skill_lower resume_lower in
  {| skill := skill_to_check;
     requirement_found := requirement_found;
     skill_found := skill_found;
     has_gap := requirement_found && negb skill_found;
     recommendation :=
       if requirement_found && negb skill_found
       then Some (recommendation_text skill_to_check) else None |}.

Definition check_skill_match (db : database)
    (job_description skill_to_check : str) (application_id : option Z)
    : outcome skill_match :=
  resume_text <- resume_text_for db application_id ;;
  match resume_text with
  | None => Raise AttributeError   (* None.lower() *)
  | Some resume_text =>
      Return (match_skill job_description skill_to_check resume_text)
  end.

End Resume.

(* ================================================================== *)
(** ** server.py: get_outreach_context *)
(* ================================================================== *)

Module Server.
Import Resume.

(** *** What the Airtable adapter returns *)

(** The value of the [Resume_Postgres_ID] field as JSON delivers it: no
    value, a text or a whole number. *)
Inductive link_value : Type :=
| LinkNone
| LinkText (s : str)
| LinkNumber (n : Z).

(** Truthiness of the value. *)
Definition link_given (v : link_value) : bool :=
  match v with
  | LinkNone => false
  | LinkText s => nonempty s
  | LinkNumber n => negb (n =? 0)
  end.

(** How an f-string prints the value. *)
Definition link_text (v : link_value) : str :=
  match v with
  | LinkNone => lit "None"
  | LinkText s => s
  | LinkNumber n => str_of_int n
  end.

Definition digit_value (c : ascii) : option Z :=
  let n := nat_of_ascii c in
  if ((48 <=? n) && (n <=? 57))%nat then Some (Z.of_nat (n - 48))
  else None.

(** The digits of a decimal literal: single underscores are allowed
    between digits. *)
Fixpoint parse_digits (acc : Z) (after_digit : bool) (s : str)
    : option Z :=
  match s with
  | [] => if after_digit then Some acc else None
  | c :: t =>
      match digit_value c with
      | Some d => parse_digits (10 * acc + d) true t
      | None =>
          if Ascii.eqb c "_"%char && after_digit
          then parse_digits acc false t
          else None
      end
  end.

(** The blanks [int] skips around a literal: the six ASCII ones, and
    the two characters between 128 and 255 that count as whitespace
    (0x85 and 0xA0).  The separators 0x1C-0x1F are whitespace for
    [str.strip] and are not skipped here. *)
Definition int_blank (c : ascii) : bool :=
  let n := nat_of_ascii c in
  ((9 <=? n) && (n <=? 13) || (n =? 32) || (n =? 133) || (n =? 160))%nat.

(** The longest decimal literal [int] converts, in digits
    ([sys.get_int_max_str_digits()], by default). *)
Definition max_str_digits : Z := 4300.

Definition is_digit (c : ascii) : bool :=
  match digit_value c with Some _ => true | None => false end.

(** [int(s)] for a string, base 10. *)
Definition int_of_str (s : str) : outcome Z :=
  match strip_chars int_blank s with
  | [] => Raise ValueError
  | c :: t =>
      let '(negative, digits) :=
        if Ascii.eqb c "-"%char then (true, t)
        else if Ascii.eqb c "+"%char then (false, t)
        else (false, c :: t) in
      if max_str_digits <? len (filter is_digit digits)
      then Raise ValueError
      else
        match parse_digits 0 false digits with
        | Some n => Return (if negative : bool then - n else n)
        | None => Raise ValueError
        end
  end.

(** [int(resume_postgres_id)] *)
Definition int_of_link (v : link_value) : outcome Z :=
  match v with
  | LinkNone => Raise TypeError
  | LinkText s => int_of_str s
  | LinkNumber n => Return n
  end.

(** The [contact] dict of [get_contact_with_job]. *)
Record contact : Type := {
  contact_id : str;
  name : str;
  title : str;
  linkedin_url : str;
  email : str;
  contact_type : str;
  contact_source : str;
  connection_degree : str;
  connected_on : str;
  message_draft : str
}.

(** The [job] dict of [get_contact_with_job] when a job is linked. *)
Record job : Type := {
  job_id : str;
  company : str;
  role : str;
  status : str;
  job_description : str;
  skill_audit : str;
  resume_postgres_id : link_value
}.

(** The dict [get_contact_with_job] returns.  An absent key is [None];
    for [cj_job], so is the empty dict of a contact without job, which
    reads the same through [.get]. *)
Record contact_job : Type := {
  cj_success : bool;
  cj_error : option str;
  cj_contact : option contact;
  cj_job : option job
}.

Record world : Type := {
  (** [airtable.get_contact_with_job]; the HTTP client may raise *)
  airtable : str -> outcome contact_job;
  windmill : database
}.

(** *** The tool *)

Record context_fields : Type := {
  ctx_contact : option contact;
  ctx_job : option job;
  ctx_cold_email : option str;
  ctx_resume_context : option str;
  ctx_fallback_used : bool;
  ctx_source_field : option str;
  ctx_has_epic_gap : bool;
  ctx_epic_recommendation : option str
}.

Inductive outreach_context : Type :=
| ContextFailure (error : str)   (* success False, contact and job None *)
| ContextSuccess (fields : context_fields).

(** [try: body except (ValueError, TypeError): handler] *)
Definition except_value_or_type {A} (body handler : outcome A)
    : outcome A :=
  match body with
  | Raise ValueError | Raise TypeError => handler
  | _ => body
  end.

(** The initial [cold_email_data] of the tool. *)
Definition no_cold_email_data : cold_email_data :=
  {| ce_success := true;
     cold_email := None;
     resume_context := None;
     fallback_used := true;
     source_field := None;
     note := None |}.

Definition with_note (d : cold_email_data) (n : str) : cold_email_data :=
  {| ce_success := ce_success d;
     cold_email := cold_email d;
     resume_context := resume_context d;
     fallback_used := fallback_used d;
     source_field := source_field d;
     note := Some n |}.

(** Step 2: cold email and resume context. *)
Definition cold_email_step (db : database) (contact_type : str)
    (resume_postgres_id : link_value) : outcome cold_email_data :=
  if link_given resume_postgres_id then
    except_value_or_type
      (application_id <- int_of_link resume_postgres_id ;;
       get_cold_email db application_id contact_type)
      (Return (with_note no_cold_email_data
                 (lit "Invalid resume_postgres_id: "
                  ++ link_text resume_postgres_id)))
  else Return no_cold_email_data.

(** Step 3: Epic gap detection; [None] is the initial
    [{"has_gap": False}]. *)
Definition epic_step (db : database) (job_description : str)
    (resume_postgres_id : link_value) : outcome (option skill_match) :=
  if nonempty job_description then
    if link_given resume_postgres_id then
      except_value_or_type
        (application_id <- int_of_link resume_postgres_id ;;
         m <- check_skill_match db job_description (lit "epic")
                (Some application_id) ;;
         Return (Some m))
        (m <- check_skill_match db job_description (lit "epic") None ;;
         Return (Some m))
    else
      m <- check_skill_match db job_description (lit "epic") None ;;
      Return (Some m)
  else Return None.

Definition get_outreach_context (w : world) (contact_id : str)
    : outcome outreach_context :=
  (* Step 1: Get contact with linked job *)
  contact_job <- airtable w contact_id ;;
  if negb (cj_success contact_job) then
    Return (ContextFailure
              (match cj_error contact_job with
               | Some e => e
               | None => lit "Failed to fetch contact"
               end))
  else
    let contact := cj_contact contact_job in
    let job := cj_job contact_job in
    (* Extract key fields *)
    let contact_type :=
      match contact with
      | Some c => contact_type c
      | None => lit "team_member"
      end in
    let resume_postgres_id :=
      match job with
      | Some j => resume_postgres_id j
      | None => LinkNone
      end in
    let job_description :=
      match job with
      | Some j => job_description j
      | None => []
      end in
    cold_email_data <- cold_email_step (windmill w) contact_type
                         resume_postgres_id ;;
    epic_check <- epic_step (windmill w) job_description
                    resume_postgres_id ;;
    Return (ContextSuccess
              {| ctx_contact := contact;
                 ctx_job := job;
                 ctx_cold_email := cold_email cold_email_data;
                 ctx_resume_context := resume_context cold_email_data;
                 ctx_fallback_used := fallback_used cold_email_data;
                 ctx_source_field := source_field cold_email_data;
                 ctx_has_epic_gap :=
                   match epic_check with
                   | Some m => has_gap m
                   | None => false
                   end;
                 ctx_epic_recommendation :=
                   match epic_check with
                   | Some m => recommendation m
                   | None => None
                   end |}).

End Server.

(* ================================================================== *)
(** ** The specification's wording, where it is compared with the code *)
(* ================================================================== *)

Module Wording.
Import Resume.

(** The message ends in [.], [?] or [...]. *)
Definition ends_sentence (message : str) : bool :=
  endswith message (lit ".") || endswith message (lit "?")
  || endswith message (lit "...").

(** The truncation of the hunter pipeline as the specification words
    it: the cut at the last [.] or [?] of the window is taken when it
    is at or after 60% of [max_length]. *)
Definition truncate_as_specified (max_length : Z) (message : str) : str :=
  if max_length <? len message then
    let window := slice_to message max_length in
    let cut_point := Z.max (rfind "."%char window) (rfind "?"%char window) in
    if 3 * max_length <=? 5 * cut_point
    then slice_to window (cut_point + 1)
    else slice_to window (max_length - 3) ++ lit "..."
  else message.

(** The cut point is the position of the last [.] or [?] of the
    window, and -1 when the window has neither. *)
Definition last_sentence_end (window : str) (cut_point : Z) : Prop :=
  (cut_point = -1
   /\ ~ In "."%char window /\ ~ In "?"%char window)
  \/ (exists pre c post,
         window = pre ++ c :: post
         /\ cut_point = len pre
         /\ (c = "."%char \/ c = "?"%char)
         /\ ~ In "."%char post /\ ~ In "?"%char post).

(** A whitespace character. *)
Definition blank (c : ascii) : Prop := isspace c = true.

(** [needle] occurs in [hay] up to the case of letters: some contiguous
    part of [hay] lowers to the lowered [needle]. *)
Definition occurs_ignoring_case (needle hay : str) : Prop :=
  exists pre part post,
    hay = pre ++ part ++ post /\ lower part = lower needle.

(** The role-specific candidate of [get_cold_email]. *)
Definition candidate (contact_type : str) (row : generated_resume_row)
    : option str :=
  if str_eqb contact_type (lit "hiring_manager")
  then cold_email_manager row
  else if str_eqb contact_type (lit "recruiter")
  then cold_email_recruiter row
  else None.

(** The resume-link value of the job a contact is linked to. *)
Definition link_of (cj : Server.contact_job) : Server.link_value :=
  match Server.cj_job cj with
  | Some j => Server.resume_postgres_id j
  | None => Server.LinkNone
  end.

End Wording.

(* ================================================================== *)
(** ** Sample inputs *)
(* ================================================================== *)

Module Samples.
Import Outreach Resume Server.

(** A generation service that answers every prompt with the same text. *)
Definition answering (text : string) : generation_service :=
  fun _ => Return (lit text).

(** A generation service that is down. *)
Definition failing : generation_service :=
  fun _ => Raise (OtherError (lit "APIConnectionError")).

(** 298 characters whose only sentence end is the [.] at index 177:
    exactly 60% of the default limit of 295. *)
Definition boundary_message : str :=
  repeat "a"%char 177 ++ lit "." ++ repeat "b"%char 120.

(** An answer of 296 characters: 294 letters between double quotes. *)
Definition quoted_answer : str :=
  dquote :: repeat "a"%char 294 ++ [dquote].

(** The generated resume of application 538. *)
Definition row_538 : generated_resume_row :=
  {| tailored_content := Some (lit "Tailored resume: SQL, Python.");
     final_content := Some (lit "Final resume: SQL, Python, FHIR.");
     cold_email_recruiter := Some (lit "Dear recruiter, I build pipelines.");
     cold_email_manager := Some (lit "Dear manager, I build pipelines.") |}.

(** The generated resume of application 539: every text column is
    empty or NULL. *)
Definition row_539 : generated_resume_row :=
  {| tailored_content := Some [];
     final_content := None;
     cold_email_recruiter := None;
     cold_email_manager := Some [] |}.

Definition sample_db : database :=
  {| connect_error := None;
     generated_resumes :=
       fun application_id =>
         if application_id =? 538 then Row row_538
         else if application_id =? 539 then Row row_539
         else NoRow;
     resumes := Row (Some (lit "Generic resume: healthcare analytics.")) |}.

(** The same database behind a connection that cannot be opened. *)
Definition unreachable_db : database :=
  {| connect_error := Some (OtherError (lit "connection refused"));
     generated_resumes := generated_resumes sample_db;
     resumes := resumes sample_db |}.

Definition sample_contact : contact :=
  {| contact_id := lit "recA1";
     name := lit "Sarah Johnson";
     title := lit "Engineering Manager";
     linkedin_url := lit "https://www.linkedin.com/in/sarah";
     email := [];
     contact_type := lit "hiring_manager";
     contact_source := lit "apollo";
     connection_degree := lit "2nd";
     connected_on := [];
     message_draft := [] |}.

Definition sample_job (link : link_value) : job :=
  {| job_id := lit "recJ1";
     company := lit "Epic Systems";
     role := lit "Senior Data Analyst";
     status := lit "In progress";
     job_description := lit "Epic EHR experience required.";
     skill_audit := [];
     resume_postgres_id := link |}.

(** An adapter that knows three contacts, whose jobs carry the links
    [538], [not-a-number] and [777] (no generated resume), and reports
    every other contact as not found. *)
Definition sample_airtable (contact_id : str) : outcome contact_job :=
  let found link :=
    Return {| cj_success := true;
              cj_error := None;
              cj_contact := Some sample_contact;
              cj_job := Some (sample_job link) |} in
  if str_eqb contact_id (lit "recA1")
  then found (LinkText (lit "538"))
  else if str_eqb contact_id (lit "recA2")
  then found (LinkText (lit "not-a-number"))
  else if str_eqb contact_id (lit "recA3")
  then found (LinkNumber 777)
  else Return {| cj_success := false;
                 cj_error := Some (lit "Contact not found: NOT_FOUND");
                 cj_contact := None;
                 cj_job := None |}.

Definition sample_world : world :=
  {| airtable := sample_airtable; windmill := sample_db |}.

Definition world_without_database : world :=
  {| airtable := sample_airtable; windmill := unreachable_db |}.

(** A world whose Airtable cannot be reached: the HTTP client raises. *)
Definition world_without_airtable : world :=
  {| airtable := fun _ => Raise (OtherError (lit "ConnectTimeout"));
     windmill := sample_db |}.

End Samples.

(* ================================================================== *)
(** ** tools/resume.py: the older resume tools *)
(* ================================================================== *)

Module ResumeStore.
Import Resume.

(** What [get_active_resume] and [get_resume_summary] read besides the
    tables of [database]: the latest row of [resumes] with a given
    version (its [full_text]) and the row of [job_applications] with a
    given Airtable id (its [resume_summary] and
    [generated_resume_text]). *)
Record tables : Type := {
  base : database;
  resumes_of_version : str -> fetched (option str);
  job_applications : str -> fetched (option str * option str)
}.

(** [any(kw in text for kw in keywords)] *)
Definition any_in (keywords : list str) (text : str) : bool :=
  existsb (fun kw => contains kw text) keywords.

(** The version the job-role branch of [get_active_resume] asks for. *)
Definition version_match (job_role : str) : str :=
  let job_role_lower := lower job_role in
  if any_in [lit "healthcare"; lit "health"; lit "medical"; lit "epic";
             lit "fhir"; lit "claims"] job_role_lower
  then lit "healthcare"
  else if any_in [lit "fintech"; lit "finance"; lit "payment";
                  lit "banking"] job_role_lower
  then lit "fintech"
  else if any_in [lit "ml"; lit "machine learning"; lit "ai";
                  lit "data science"] job_role_lower
  then lit "ml_data_science"
  else lit "general".

(** The dict built from a row; as in [Resume.get_active_resume]. *)
Definition resume_found (full_text : option str) : active_resume :=
  {| ar_success := true;
     ar_error := None;
     ar_full_text := full_text;
     ar_has_epic :=
       if truthy full_text
       then contains (lit "epic") (lower (unwrap full_text))
       else false |}.

Definition resume_not_found (error : str) : active_resume :=
  {| ar_success := false;
     ar_error := Some error;
     ar_full_text := Some [];
     ar_has_epic := false |}.

(** [get_active_resume(job_role, version_tag)], with both arguments. *)
Definition get_active_resume (t : tables) (job_role version_tag : option str)
    : outcome active_resume :=
  match connect_error (base t) with
  | Some e => Raise e
  | None =>
      let row :=
        if truthy version_tag
        then resumes_of_version t (unwrap version_tag)
        else if truthy job_role then
          match resumes_of_version t (version_match (unwrap job_role)) with
          | Row r => Row r
          | NoRow => resumes (base t)   (* fallback to most recent *)
          | QueryError e => QueryError e
          end
        else resumes (base t) in
      match row with
      | Row full_text => Return (resume_found full_text)
      | NoRow => Return (resume_not_found (lit "No resume found in database"))
      | QueryError e => Return (resume_not_found (lit "Database error: " ++ e))
      end
  end.

(** The dict of [get_resume_summary]; a [None] field is an absent key. *)
Record resume_summary : Type := {
  rs_success : bool;
  rs_summary : str;
  rs_full_resume : option str;
  rs_note : option str;
  rs_error : option str
}.

Definition summary_failure (error : str) : resume_summary :=
  {| rs_success := false;
     rs_summary := [];
     rs_full_resume := None;
     rs_note := None;
     rs_error := Some error |}.

(** The message of [len(None)]. *)
Definition no_len : str := lit "object of type 'NoneType' has no len()".

(** [get_resume_summary].  [describe] is [str(e)] for an exception: the
    classes of [exn] carry no message of their own. *)
Definition get_resume_summary (describe : exn -> str) (t : tables)
    (job_id : str) : outcome resume_summary :=
  match connect_error (base t) with
  | Some e => Raise e
  | None =>
      let fallback_path :=
        (* Fallback: return generic summary from latest resume *)
        match Resume.get_active_resume (base t) with
        | Raise e =>
            Return (summary_failure (lit "Database error: " ++ describe e))
        | Return fallback =>
            if ar_success fallback then
              match ar_full_text fallback with
              | None =>
                  Return (summary_failure (lit "Database error: " ++ no_len))
              | Some text =>
                  let summary :=
                    if 500 <? len text then slice_to text 500 ++ lit "..."
                    else text in
                  Return {| rs_success := true;
                            rs_summary := summary;
                            rs_full_resume := Some text;
                            rs_note :=
                              Some (lit "Using fallback (no job-specific summary found)");
                            rs_error := None |}
              end
            else
              Return (summary_failure (lit "No resume summary found"))
        end in
      match job_applications t job_id with
      | QueryError e => Return (summary_failure (lit "Database error: " ++ e))
      | NoRow => fallback_path
      | Row (summary, generated_resume_text) =>
          if truthy summary then
            Return {| rs_success := true;
                      rs_summary := unwrap summary;
                      rs_full_resume := or_empty generated_resume_text;
                      rs_note := None;
                      rs_error := None |}
          else fallback_path
      end
  end.

End ResumeStore.

(* ================================================================== *)
(** ** server.py: the get_outreach_context action of _route_action *)
(* ================================================================== *)

Module Webhook.
Import Resume Server.

(** What the action returns: the refusal of a missing [contact_id], the
    adapter's own dict when the fetch failed, or the context. *)
Inductive webhook_context : Type :=
| ContactIdRequired
| AdapterAnswer (contact_job : contact_job)
| WebhookContext (contact : option contact) (job : option job)
    (cold_email resume_context : option str) (has_epic_gap : bool).

(** The branch [elif action == "get_outreach_context"], with
    [params.get("contact_id")] as its argument. *)
Definition route_get_outreach_context (w : world)
    (contact_id : option str) : outcome webhook_context :=
  if negb (truthy contact_id) then Return ContactIdRequired
  else
    contact_job <- airtable w (unwrap contact_id) ;;
    if negb (cj_success contact_job) then Return (AdapterAnswer contact_job)
    else
      let contact := cj_contact contact_job in
      let job := cj_job contact_job in
      let contact_type :=
        match contact with
        | Some c => contact_type c
        | None => lit "team_member"
        end in
      let resume_postgres_id :=
        match job with
        | Some j => resume_postgres_id j
        | None => LinkNone
        end in
      let job_description :=
        match job with
        | Some j => job_description j
        | None => []
        end in
      cold_email_data <-
        (if link_given resume_postgres_id then
           except_value_or_type
             (app_id <- int_of_link resume_postgres_id ;;
              get_cold_email (windmill w) app_id contact_type)
             (Return no_cold_email_data)   (* pass *)
         else Return no_cold_email_data) ;;
      epic_check <-
        (if nonempty job_description then
           except_value_or_type
             (app_id <-
                (if link_given resume_postgres_id
                 then n <- int_of_link resume_postgres_id ;; Return (Some n)
                 else Return None) ;;
              m <- check_skill_match (windmill w) job_description
                     (lit "epic") app_id ;;
              Return (Some m))
             (m <- check_skill_match (windmill w) job_description
                     (lit "epic") None ;;
              Return (Some m))
         else Return None) ;;
      Return (WebhookContext contact job
                (cold_email cold_email_data)
                (resume_context cold_email_data)
                (match epic_check with
                 | Some m => has_gap m
                 | None => false
                 end)).

End Webhook.

(* ================================================================== *)
(** ** tools/discord_tools.py and discord-bot/bot.py: replies in a
       review thread *)
(* ================================================================== *)

Module Discord.

(** [s[n:]] for any integer [n]: a negative bound counts from the end. *)
Definition slice_from (s : str) (n : Z) : str :=
  if 0 <=? n then skipn (Z.to_nat n) s
  else skipn (Z.to_nat (len s + n)) s.


(** What [wait_for_response] returns for a reply: the [action], with
    the [instruction] of an edit. *)
Inductive response : Type :=
| Approve
| Skip
| Edit (instruction : str).

(** The body of the loop of [wait_for_response] for one message that is
    not from a bot, with [msg.get("content", "")] as its argument:
    [None] when the loop goes on to the next message. *)
Definition wait_for_response_parse (message_content : str)
    : option response :=
  let content := strip (lower message_content) in
  if str_eqb content (lit "approve") then Some Approve
  else if str_eqb content (lit "skip") then Some Skip
  else if startswith content (lit "edit") then
    let instruction := strip (slice_from content 4) in
    Some (Edit (if nonempty instruction then instruction
                else lit "make it better"))
  else None.



End Discord.

(* ================================================================== *)
(** ** tools/apollo.py *)
(* ================================================================== *)

Module Apollo.
Import Outreach.

(** A field of a person of the search response: absent, [null] or a
    text. *)
Inductive field : Type :=
| Absent
| Null
| Text (s : str).

(** [person.get(key, default)] *)
Definition get (f : field) (default : option str) : option str :=
  match f with
  | Absent => default
  | Null => None
  | Text s => Some s
  end.

Record person : Type := {
  person_name : field;
  person_title : field;
  person_linkedin_url : field;
  person_email : field
}.

(** What one search of [mixed_people/search] comes to: an exception of
    the client, or a status code with the list under [people] ([[]] when
    the key is absent). *)
Inductive search_result : Type :=
| SearchRaised
| SearchStatus (status_code : Z) (people : list person).

(** The search service, by company name and title list. *)
Definition search_service : Type := str -> list str -> search_result.

Record role_titles : Type := {
  managers : list str;
  peers : list str;
  recruiters : list str
}.

(** [any(x in title for x in keywords)] *)
Definition any_in (keywords : list str) (title : str) : bool :=
  existsb (fun x => contains x title) keywords.

Definition engineering_titles : role_titles :=
  {| managers := [lit "Engineering Manager"; lit "Director of Engineering";
                  lit "VP Engineering"; lit "Tech Lead";
                  lit "Head of Engineering"; lit "CTO";
                  lit "Senior Engineering Manager"];
     peers := [lit "Senior Engineer"; lit "Staff Engineer";
               lit "Principal Engineer"; lit "Senior Developer";
               lit "Lead Engineer"; lit "Senior Software Engineer"];
     recruiters := [lit "Technical Recruiter"; lit "Engineering Recruiter";
                    lit "Talent Acquisition"; lit "Tech Recruiter"] |}.

Definition product_titles : role_titles :=
  {| managers := [lit "Director of Product"; lit "VP Product";
                  lit "Group Product Manager"; lit "Head of Product";
                  lit "CPO"; lit "Senior Director Product"];
     peers := [lit "Senior Product Manager"; lit "Staff PM";
               lit "Principal PM"; lit "Lead Product Manager";
               lit "Product Lead"];
     recruiters := [lit "Product Recruiter"; lit "Technical Recruiter";
                    lit "Talent Acquisition"] |}.

Definition data_titles : role_titles :=
  {| managers := [lit "Data Science Manager"; lit "Director of Analytics";
                  lit "Head of Data"; lit "VP Data";
                  lit "Chief Data Officer"; lit "Analytics Manager";
                  lit "Director of Data Engineering"];
     peers := [lit "Senior Data Scientist"; lit "Staff Analyst";
               lit "Lead Data Engineer"; lit "ML Engineer";
               lit "Principal Data Scientist"; lit "Senior Data Analyst";
               lit "Senior BI Developer"];
     recruiters := [lit "Data Recruiter"; lit "Technical Recruiter";
                    lit "Analytics Recruiter"] |}.

Definition design_titles : role_titles :=
  {| managers := [lit "Design Director"; lit "Head of Design";
                  lit "VP Design"; lit "Design Manager";
                  lit "Creative Director"];
     peers := [lit "Senior Designer"; lit "Staff Designer";
               lit "Principal Designer"; lit "Lead Designer";
               lit "Senior UX Designer"];
     recruiters := [lit "Design Recruiter"; lit "Creative Recruiter";
                    lit "UX Recruiter"] |}.

Definition healthcare_titles : role_titles :=
  {| managers := [lit "Director of Health IT";
                  lit "VP Clinical Informatics"; lit "Health IT Manager";
                  lit "Director of Analytics"; lit "CMIO"];
     peers := [lit "Senior Health Data Analyst";
               lit "Clinical Data Analyst"; lit "Health Informaticist";
               lit "Senior BI Developer"];
     recruiters := [lit "Healthcare Recruiter"; lit "Health IT Recruiter";
                    lit "Technical Recruiter"] |}.

Definition default_titles : role_titles :=
  {| managers := [lit "Hiring Manager"; lit "Director"; lit "VP";
                  lit "Head of"; lit "Manager"; lit "Team Lead"];
     peers := [lit "Senior"; lit "Lead"; lit "Staff"; lit "Principal"];
     recruiters := [lit "Recruiter"; lit "Talent Acquisition"; lit "HR";
                    lit "People Operations"] |}.

Definition _get_role_titles (job_title : str) : role_titles :=
  let title := lower job_title in
  (* Engineering / Technical roles *)
  if any_in [lit "engineer"; lit "developer"; lit "swe"; lit "software";
             lit "backend"; lit "frontend"; lit "fullstack";
             lit "devops"; lit "sre"] title
  then engineering_titles
  (* Product Management *)
  else if any_in [lit "product manager"; lit "product owner"; lit "pm";
                  lit "product"] title
  then product_titles
  (* Data / Analytics / ML roles *)
  else if any_in [lit "data"; lit "analyst"; lit "analytics"; lit "ml";
                  lit "machine learning"; lit "ai"; lit "bi";
                  lit "business intelligence"] title
  then data_titles
  (* Design roles *)
  else if any_in [lit "design"; lit "ux"; lit "ui";
                  lit "product design"] title
  then design_titles
  (* Healthcare specific *)
  else if any_in [lit "healthcare"; lit "health"; lit "clinical";
                  lit "medical"; lit "epic"; lit "ehr"; lit "emr"] title
  then healthcare_titles
  (* Default for unknown roles *)
  else default_titles.

(** A contact dict of [find_contacts]. *)
Record apollo_contact : Type := {
  ap_name : option str;
  ap_title : option str;
  ap_linkedin_url : option str;
  ap_email : option str;
  ap_contact_type : str;
  ap_contact_source : str;
  ap_connection_degree : str;
  ap_priority : Z;
  ap_company : str
}.

(** What every contact appended for one category carries. *)
Definition of_category (company_name contact_type : str) (priority : Z)
    (c : apollo_contact) : Prop :=
  ap_contact_type c = contact_type
  /\ ap_priority c = priority
  /\ ap_contact_source c = lit "apollo"
  /\ ap_connection_degree c = lit "2nd"
  /\ ap_company c = company_name.

(** One round of the loop over the three categories: the contacts it
    appends to [all_contacts].  An exception and a status other than
    200 are printed and append nothing. *)
Definition search_category (search : search_service) (company_name : str)
    (contact_type : str) (priority : Z) (title_list : list str)
    : list apollo_contact :=
  match search company_name title_list with
  | SearchRaised => []
  | SearchStatus status_code people =>
      if status_code =? 200 then
        map (fun person =>
               {| ap_name := get (person_name person) (Some []);
                  ap_title := get (person_title person) (Some []);
                  ap_linkedin_url :=
                    get (person_linkedin_url person) (Some []);
                  ap_email := get (person_email person) None;
                  ap_contact_type := contact_type;
                  ap_contact_source := lit "apollo";
                  ap_connection_degree := lit "2nd";
                  ap_priority := priority;
                  ap_company := company_name |})
            people
      else []
  end.

(** [key in seen] *)
Definition seen_has (seen : list str) (key : str) : bool :=
  existsb (str_eqb key) seen.

(** The key under which a contact that is kept enters [seen]: its URL,
    or its lowered name when it has no URL. *)
Definition seen_key (c : apollo_contact) : str :=
  if truthy (ap_linkedin_url c) then unwrap (ap_linkedin_url c)
  else lower (unwrap (ap_name c)).

(** Deduplicate by LinkedIn URL; [seen] is the set of the keys met so
    far. *)
Fixpoint deduplicate (seen : list str) (all_contacts : list apollo_contact)
    : outcome (list apollo_contact) :=
  match all_contacts with
  | [] => Return []
  | c :: rest =>
      let url := ap_linkedin_url c in
      if truthy url then
        if negb (seen_has seen (unwrap url)) then
          unique_contacts <- deduplicate (unwrap url :: seen) rest ;;
          Return (c :: unique_contacts)
        else deduplicate seen rest
      else
        (* Keep contacts without URL but dedupe by name *)
        match ap_name c with
        | None => Raise AttributeError   (* None.lower() *)
        | Some name =>
            let name_key := lower name in
            if nonempty name_key && negb (seen_has seen name_key) then
              unique_contacts <- deduplicate (name_key :: seen) rest ;;
              Return (c :: unique_contacts)
            else deduplicate seen rest
        end
  end.

(** [list.sort(key=...)] is stable: an element goes in front of the
    first later element whose key is not smaller. *)
Fixpoint insert_sorted {A} (key : A -> Z) (x : A) (l : list A) : list A :=
  match l with
  | [] => [x]
  | y :: t =>
      if key x <=? key y then x :: l else y :: insert_sorted key x t
  end.

Fixpoint sort_by {A} (key : A -> Z) (l : list A) : list A :=
  match l with
  | [] => []
  | x :: t => insert_sorted key x (sort_by key t)
  end.

(** [l[:n]] for any integer [n]. *)
Definition list_slice_to {A} (l : list A) (n : Z) : list A :=
  if 0 <=? n then firstn (Z.to_nat n) l
  else firstn (Z.to_nat (Z.of_nat (List.length l) + n)) l.

Record found_contacts : Type := {
  fc_success : bool;
  fc_company : str;
  fc_job_title : str;
  fc_contacts : list apollo_contact;
  fc_total_found : Z;
  fc_note : str
}.

(** [all_contacts] after the loop over the three categories. *)
Definition all_contacts (search : search_service) (company_name : str)
    (titles : role_titles) : list apollo_contact :=
  search_category search company_name (lit "hiring_manager") 1
    (managers titles)
  ++ search_category search company_name (lit "recruiter") 2
       (recruiters titles)
  ++ search_category search company_name (lit "team_member") 3
       (peers titles).

Definition find_contacts (search : search_service)
    (company_name job_title : str) (limit : Z) : outcome found_contacts :=
  let titles := _get_role_titles job_title in
  unique_contacts <- deduplicate [] (all_contacts search company_name titles) ;;
  (* Sort by priority *)
  let unique_contacts := sort_by ap_priority unique_contacts in
  Return {| fc_success := true;
            fc_company := company_name;
            fc_job_title := job_title;
            fc_contacts := list_slice_to unique_contacts limit;
            fc_total_found := Z.of_nat (List.length unique_contacts);
            fc_note :=
              lit "Contacts are 2nd/3rd degree (strangers). Use Hunter pipeline." |}.

End Apollo.

(* ================================================================== *)
(** ** tools/airtable.py: reading a contact and its job *)
(* ================================================================== *)

Module Airtable.
Import Server.

(** What a GET of one record comes to: status 200 with the record, or
    another status with the text of the response. *)
Inductive response (A : Type) : Type :=
| Found (record : A)
| NotFound (text : str).
Arguments NotFound {A} text.

(** A record of the Contacts table: its id and its fields, [None] for a
    field that the record does not have.  [Job_Application] is the list
    of linked record ids, empty when the field is absent. *)
Record contact_record : Type := {
  contact_record_id : str;
  Name : option str;
  Title : option str;
  LinkedIn_URL : option str;
  Email : option str;
  Contact_Type : option str;
  Contact_Source : option str;
  Connection_Degree : option str;
  Connected_On : option str;
  Message_Draft : option str;
  Job_Application : list str
}.

(** A record of the Applications table. *)
Record job_record : Type := {
  job_record_id : str;
  Company : option str;
  Job_Position : option str;
  Status : option str;
  Full_Description : option str;
  Skill_Audit : option str;
  Resume_Postgres_ID : link_value
}.

(** The two tables, by record id; the HTTP client may raise. *)
Record base : Type := {
  contacts_table : str -> outcome (response contact_record);
  jobs_table : str -> outcome (response job_record)
}.

(** [fields.get(key, default)] *)
Definition get (field : option str) (default : str) : str :=
  match field with
  | Some value => value
  | None => default
  end.

Definition get_contact_with_job (b : base) (contact_id : str)
    : outcome contact_job :=
  (* Get contact *)
  response <- contacts_table b contact_id ;;
  match response with
  | NotFound text =>
      Return {| cj_success := false;
                cj_error := Some (lit "Contact not found: " ++ text);
                cj_contact := None;
                cj_job := None |}
  | Found contact_record =>
      (* Get linked job *)
      let job_ids := Job_Application contact_record in
      job_data <-
        match job_ids with
        | [] => Return None
        | job_id :: _ =>
            job_response <- jobs_table b job_id ;;
            match job_response with
            | Found job_record =>
                Return
                  (Some {| job_id := job_record_id job_record;
                           company := get (Company job_record) [];
                           role := get (Job_Position job_record) [];
                           status := get (Status job_record) [];
                           job_description :=
                             get (Full_Description job_record) [];
                           skill_audit := get (Skill_Audit job_record) [];
                           resume_postgres_id :=
                             Resume_Postgres_ID job_record |})
            | NotFound _ => Return None
            end
        end ;;
      Return
        {| cj_success := true;
           cj_error := None;
           cj_contact :=
             Some {| contact_id := contact_record_id contact_record;
                     name := get (Name contact_record) [];
                     title := get (Title contact_record) [];
                     linkedin_url := get (LinkedIn_URL contact_record) [];
                     email := get (Email contact_record) [];
                     contact_type := get (Contact_Type contact_record) [];
                     contact_source :=
                       get (Contact_Source contact_record) (lit "apollo");
                     connection_degree :=
                       get (Connection_Degree contact_record) (lit "2nd");
                     connected_on := get (Connected_On contact_record) [];
                     message_draft :=
                       get (Message_Draft contact_record) [] |};
           cj_job := job_data |}
  end.

(** The server's wiring of the adapter and the database. *)
Definition world_of (b : base) (db : Resume.database) : world :=
  {| airtable := get_contact_with_job b; windmill := db |}.

End Airtable.

(* ================================================================== *)
(** ** tools/airtable.py and server.py: writing contacts *)
(* ================================================================== *)

Module AirtableWrites.

(** The JSON values that the write requests carry. *)
Inductive json : Type :=
| JNull
| JBool (b : bool)
| JNumber (n : Z)
| JString (s : str)
| JStrings (l : list str).

(** Truthiness of a value. *)
Definition json_truthy (v : json) : bool :=
  match v with
  | JNull => false
  | JBool b => b
  | JNumber n => negb (n =? 0)
  | JString s => nonempty s
  | JStrings l => match l with [] => false | _ :: _ => true end
  end.

(** A dict with string keys, in insertion order. *)
Definition dict : Type := list (str * json).

Fixpoint dict_get (d : dict) (key : str) : option json :=
  match d with
  | [] => None
  | (k, v) :: rest => if str_eqb k key then Some v else dict_get rest key
  end.

(** [d.get(key, default)] *)
Definition get (d : dict) (key : string) (default : json) : json :=
  match dict_get d (lit key) with
  | Some v => v
  | None => default
  end.

(** [d[key] = value]: a key that is there keeps its place. *)
Fixpoint dict_set (d : dict) (key : str) (value : json) : dict :=
  match d with
  | [] => [(key, value)]
  | (k, v) :: rest =>
      if str_eqb k key then (k, value) :: rest
      else (k, v) :: dict_set rest key value
  end.

(** [d.update(other)] *)
Definition dict_update (d other : dict) : dict :=
  fold_left (fun acc kv => dict_set acc (fst kv) (snd kv)) other d.

(** The requests that the adapter sends. *)
Inductive request : Type :=
| POST (table : str) (fields : dict)
| PATCH (table : str) (record_id : str) (fields : dict).

(** What a write comes to: status 200 with the id of the record, or
    another status with the text of the response. *)
Inductive write_response : Type :=
| Accepted (record_id : str)
| Rejected (text : str).

(** Airtable behind the HTTP client: its answer to a request after the
    requests sent so far; the client may raise. *)
Definition service : Type :=
  list request -> request -> outcome write_response.

(** A computation that sends requests: from the requests sent so far to
    its result and the requests sent then. *)
Definition io (A : Type) : Type := list request -> outcome A * list request.

Definition ret {A} (a : A) : io A := fun sent => (Return a, sent).

Definition io_bind {A B} (m : io A) (k : A -> io B) : io B :=
  fun sent =>
    match m sent with
    | (Return a, sent') => k a sent'
    | (Raise e, sent') => (Raise e, sent')
    end.

Definition send (airtable : service) (r : request) : io write_response :=
  fun sent => (airtable sent r, sent ++ [r]).

(** *** save_contacts *)

(** The [fields] of the record created for one contact. *)
Definition contact_fields (job_id : str) (contact : dict) : dict :=
  let fields :=
    [(lit "Name", get contact "name" (JString []));
     (lit "Title", get contact "title" (JString []));
     (lit "LinkedIn_URL", get contact "linkedin_url" (JString []));
     (lit "Contact_Type",
       get contact "contact_type" (JString (lit "team_member")));
     (lit "Contact_Source",
       get contact "contact_source" (JString (lit "apollo")));
     (lit "Connection_Degree",
       get contact "connection_degree" (JString (lit "2nd")));
     (lit "Priority", get contact "priority" (JNumber 99));
     (lit "Outreach_Status", JString (lit "Ready"));
     (lit "Job_Application", JStrings [job_id])] in
  (* Optional fields *)
  let fields :=
    if json_truthy (get contact "email" JNull)
    then dict_set fields (lit "Email") (get contact "email" JNull)
    else fields in
  if json_truthy (get contact "connected_on" JNull)
  then dict_set fields (lit "Connected_On")
         (get contact "connected_on" JNull)
  else fields.

(** An entry of [errors]: the name of the contact and the text of the
    response. *)
Record save_error : Type := {
  error_contact : json;
  error_text : str
}.

Record save_result : Type := {
  success : bool;
  created_count : Z;
  created_ids : list str;
  errors : list save_error
}.

(** The loop over the contacts, from the [created_ids] and [errors]
    collected so far. *)
Fixpoint save_loop (airtable : service) (job_id : str)
    (contacts : list dict) (created_ids : list str)
    (errors : list save_error) : io (list str * list save_error) :=
  match contacts with
  | [] => ret (created_ids, errors)
  | contact :: rest =>
      io_bind
        (send airtable (POST (lit "Contacts") (contact_fields job_id contact)))
        (fun response =>
           match response with
           | Accepted record_id =>
               save_loop airtable job_id rest (created_ids ++ [record_id])
                 errors
           | Rejected text =>
               save_loop airtable job_id rest created_ids
                 (errors ++ [{| error_contact := get contact "name" JNull;
                                error_text := text |}])
           end)
  end.

Definition save_contacts (airtable : service) (job_id : str)
    (contacts : list dict) : io save_result :=
  io_bind (save_loop airtable job_id contacts [] [])
    (fun collected =>
       let '(created_ids, errors) := collected in
       ret {| success := Nat.eqb (List.length errors) 0;
              created_count := Z.of_nat (List.length created_ids);
              created_ids := created_ids;
              errors := errors |}).

(** *** Updates *)

(** The dict of an update: the success with the id and, for a contact,
    the status asked for, or the failure with its error. *)
Inductive update_result : Type :=
| Updated (record_id : str) (new_status : option str)
| UpdateFailed (error : str).

Definition update_job (airtable : service) (job_id : str) (fields : dict)
    : io update_result :=
  io_bind (send airtable (PATCH (lit "Applications") job_id fields))
    (fun response =>
       match response with
       | Rejected text => ret (UpdateFailed (lit "Update failed: " ++ text))
       | Accepted _ => ret (Updated job_id None)
       end).

Definition mark_contacts_found (airtable : service) (job_id : str)
    : io update_result :=
  update_job airtable job_id [(lit "Contacts_Found", JBool true)].

(** The [fields] of a status update. *)
Definition status_fields (status : str) (additional_fields : option dict)
    : dict :=
  let fields := [(lit "Outreach_Status", JString status)] in
  match additional_fields with
  | Some (kv :: more) => dict_update fields (kv :: more)
  | _ => fields
  end.

Definition update_contact_status (airtable : service)
    (contact_id status : str) (additional_fields : option dict)
    : io update_result :=
  io_bind
    (send airtable
       (PATCH (lit "Contacts") contact_id
          (status_fields status additional_fields)))
    (fun response =>
       match response with
       | Rejected text => ret (UpdateFailed (lit "Update failed: " ++ text))
       | Accepted _ => ret (Updated contact_id (Some status))
       end).

Definition save_message_draft (airtable : service)
    (contact_id message_draft : str) : io update_result :=
  update_contact_status airtable contact_id (lit "Drafted")
    (Some [(lit "Message_Draft", JString message_draft)]).

Definition mark_contact_approved (airtable : service)
    (contact_id final_message : str) : io update_result :=
  update_contact_status airtable contact_id (lit "Approved")
    (Some [(lit "Message_Final", JString final_message)]).

End AirtableWrites.

(** The tools and the webhook actions of server.py that write. *)
Module ServerWrites.
Import AirtableWrites.

(** The tool [save_contacts_to_airtable]. *)
Definition save_contacts_to_airtable (airtable : service) (job_id : str)
    (contacts : list dict) : io save_result :=
  io_bind (save_contacts airtable job_id contacts)
    (fun result =>
       if success result then
         io_bind (AirtableWrites.mark_contacts_found airtable job_id)
           (fun _ => ret result)
       else ret result).

(** What the webhook action returns: its own refusal, or the result of
    the adapter. *)
Inductive routed (A : Type) : Type :=
| Refused (error : str)
| Routed (result : A).
Arguments Refused {A} error.

(** The branch [elif action == "save_contacts_to_airtable"], with
    [params.get("job_id")] and the value under [contacts], [None] when
    the key is absent. *)
Definition route_save_contacts_to_airtable (airtable : service)
    (job_id : option str) (contacts : option (list dict))
    : io (routed save_result) :=
  let contacts := match contacts with Some l => l | None => [] end in
  if negb (truthy job_id) then ret (Refused (lit "job_id is required"))
  else
    match contacts with
    | [] => ret (Refused (lit "contacts list is required"))
    | _ :: _ =>
        io_bind (save_contacts airtable (unwrap job_id) contacts)
          (fun result =>
             if success result then
               io_bind
                 (AirtableWrites.mark_contacts_found airtable
                    (unwrap job_id))
                 (fun _ => ret (Routed result))
             else ret (Routed result))
    end.

(** The dict of the tool [mark_contact_approved]. *)
Record approval : Type := {
  approval_success : bool;
  approval_action : str;
  approval_linkedin_url : str;
  approval_message : str;
  approval_instruction : str
}.

(** The tool [mark_contact_approved]. *)
Definition mark_contact_approved (airtable : service)
    (contact_id final_message linkedin_url : str) : io approval :=
  io_bind
    (AirtableWrites.mark_contact_approved airtable contact_id final_message)
    (fun _ =>
       ret {| approval_success := true;
              approval_action := lit "approved";
              approval_linkedin_url := linkedin_url;
              approval_message := final_message;
              approval_instruction :=
                lit "Open the LinkedIn URL and send the connection request with this message." |}).

End ServerWrites.

(* ================================================================== *)
(** ** More sample inputs *)
(* ================================================================== *)

Module MoreSamples.
Import Outreach Resume Server Samples ResumeStore.

(** One resume of version [healthcare], a summary for the job [recJ1]. *)
Definition sample_tables : tables :=
  {| base := sample_db;
     resumes_of_version :=
       fun version =>
         if str_eqb version (lit "healthcare")
         then Row (Some (lit "Healthcare resume: Epic, FHIR."))
         else NoRow;
     job_applications :=
       fun airtable_id =>
         if str_eqb airtable_id (lit "recJ1")
         then Row (Some (lit "Analyst with five years of Epic reporting."),
                   Some (lit "Full generated resume."))
         else NoRow |}.

(** The same tables with a latest resume whose text is NULL. *)
Definition tables_with_null_text : tables :=
  {| base := {| connect_error := None;
                generated_resumes := generated_resumes sample_db;
                resumes := Row None |};
     resumes_of_version := resumes_of_version sample_tables;
     job_applications := job_applications sample_tables |}.

(** People of a search response. *)
Definition sarah : Apollo.person :=
  {| Apollo.person_name := Apollo.Text (lit "Sarah Johnson");
     Apollo.person_title := Apollo.Text (lit "Engineering Manager");
     Apollo.person_linkedin_url :=
       Apollo.Text (lit "https://www.linkedin.com/in/sarah");
     Apollo.person_email := Apollo.Null |}.

Definition sam : Apollo.person :=
  {| Apollo.person_name := Apollo.Text (lit "Sam Lee");
     Apollo.person_title := Apollo.Text (lit "Staff Engineer");
     Apollo.person_linkedin_url := Apollo.Null;
     Apollo.person_email := Apollo.Absent |}.

Definition nameless : Apollo.person :=
  {| Apollo.person_name := Apollo.Null;
     Apollo.person_title := Apollo.Text (lit "Technical Recruiter");
     Apollo.person_linkedin_url := Apollo.Null;
     Apollo.person_email := Apollo.Absent |}.

(** A search service that finds Sarah among the managers, is
    rate-limited for the recruiters, and finds Sarah again and Sam,
    twice, among the peers. *)
Definition sample_search : Apollo.search_service :=
  fun _ title_list =>
    match title_list with
    | [] => Apollo.SearchRaised
    | first :: _ =>
        if str_eqb first (lit "Engineering Manager")
        then Apollo.SearchStatus 200 [sarah]
        else if str_eqb first (lit "Technical Recruiter")
        then Apollo.SearchStatus 429 []
        else Apollo.SearchStatus 200 [sam; sarah; sam]
    end.

(** The same service with a recruiter who has neither URL nor name. *)
Definition search_with_nameless : Apollo.search_service :=
  fun company_name title_list =>
    match title_list with
    | [] => Apollo.SearchRaised
    | first :: _ =>
        if str_eqb first (lit "Technical Recruiter")
        then Apollo.SearchStatus 200 [nameless]
        else sample_search company_name title_list
    end.

(** A search service that is down. *)
Definition search_down : Apollo.search_service :=
  fun _ _ => Apollo.SearchRaised.

(** A contact record with a name and a link to a job, and nothing
    else. *)
Definition bare_contact_record : Airtable.contact_record :=
  {| Airtable.contact_record_id := lit "recA7";
     Airtable.Name := Some (lit "Dana Cruz");
     Airtable.Title := None;
     Airtable.LinkedIn_URL := None;
     Airtable.Email := None;
     Airtable.Contact_Type := None;
     Airtable.Contact_Source := None;
     Airtable.Connection_Degree := None;
     Airtable.Connected_On := None;
     Airtable.Message_Draft := None;
     Airtable.Job_Application := [lit "recJ7"] |}.

(** A base that holds that contact, and whose job [recJ7] was
    deleted. *)
Definition base_with_lost_job : Airtable.base :=
  {| Airtable.contacts_table :=
       fun contact_id =>
         if str_eqb contact_id (lit "recA7")
         then Return (Airtable.Found bare_contact_record)
         else Return (Airtable.NotFound (lit "NOT_FOUND"));
     Airtable.jobs_table :=
       fun _ => Return (Airtable.NotFound (lit "NOT_FOUND")) |}.

(** An Airtable that rejects every write. *)
Definition rejecting : AirtableWrites.service :=
  fun _ _ => Return (AirtableWrites.Rejected (lit "INVALID_PERMISSIONS")).

(** An Airtable that accepts the first write and rejects the later
    ones. *)
Definition accepting_once : AirtableWrites.service :=
  fun sent _ =>
    match sent with
    | [] => Return (AirtableWrites.Accepted (lit "recC1"))
    | _ :: _ => Return (AirtableWrites.Rejected (lit "RATE_LIMITED"))
    end.

(** Two contacts as a search hands them over. *)
Definition two_contacts : list AirtableWrites.dict :=
  [[(lit "name", AirtableWrites.JString (lit "Sarah Johnson"));
    (lit "contact_type", AirtableWrites.JString (lit "hiring_manager"));
    (lit "priority", AirtableWrites.JNumber 1)];
   [(lit "name", AirtableWrites.JString (lit "Sam Lee"));
    (lit "email", AirtableWrites.JString (lit "sam@example.com"))]].

(** [str(e)] for the samples. *)
Definition describe (e : exn) : str :=
  match e with
  | OtherError message => message
  | IndexError => lit "list index out of range"
  | ValueError => lit "ValueError"
  | TypeError => lit "TypeError"
  | AttributeError => lit "AttributeError"
  end.

End MoreSamples.

(* ================================================================== *)
(** ** Facts about the string primitives *)
(* ================================================================== *)

Import Outreach Resume Server Wording Samples.

Section StringFacts.

Implicit Types (s p : str) (c : ascii) (n : Z).

Lemma len_nonneg s : 0 <= len s.
Proof. unfold len. lia. Qed.

Lemma len_app s p : len (s ++ p) = len s + len p.
Proof. unfold len. rewrite length_app. lia. Qed.

Lemma nonempty_true_iff s : nonempty s = true <-> s <> [].
Proof. destruct s; simpl; split; congruence. Qed.

(** A slice with a bound inside the string is the prefix of that
    length. *)
Lemma slice_to_prefix s n :
  0 <= n -> slice_to s n = firstn (Z.to_nat n) s.
Proof.
  intros Hn. unfold slice_to.
  destruct (0 <=? n) eqn:E; [reflexivity | apply Z.leb_gt in E; lia].
Qed.

Lemma len_slice_to s n : 0 <= n <= len s -> len (slice_to s n) = n.
Proof.
  intros [H0 H1]. rewrite slice_to_prefix by assumption.
  unfold len in *. rewrite length_firstn. lia.
Qed.

Lemma slice_to_slice_to s n k :
  0 <= k <= n -> slice_to (slice_to s n) k = slice_to s k.
Proof.
  intros [H0 H1]. rewrite !slice_to_prefix by lia.
  rewrite firstn_firstn. f_equal. lia.
Qed.

Lemma rfind_bounds c s : -1 <= rfind c s < len s.
Proof.
  induction s as [|x t IH]; simpl.
  - unfold len; simpl; lia.
  - unfold len in *; cbn [List.length].
    destruct (0 <=? rfind c t) eqn:E.
    + apply Z.leb_le in E. lia.
    + destruct (Ascii.eqb x c); lia.
Qed.

(** What [rfind] returns: -1 when the character is absent, and
    otherwise the position after which it does not occur again. *)
Lemma rfind_split c s :
  (rfind c s = -1 /\ ~ In c s)
  \/ (exists pre post,
         s = pre ++ c :: post /\ rfind c s = len pre /\ ~ In c post).
Proof.
  induction s as [|x t IH]; simpl.
  - left. split; [reflexivity | intros []].
  - destruct IH as [[Hr Hn] | (pre & post & Hs & Hr & Hn)].
    + rewrite Hr. simpl.
      destruct (Ascii.eqb x c) eqn:E.
      * apply Ascii.eqb_eq in E. subst x. right.
        exists [], t. repeat split; auto.
      * left. split; [reflexivity|].
        intros [H | H]; [|contradiction].
        subst x. rewrite Ascii.eqb_refl in E. discriminate.
    + right. rewrite Hr.
      pose proof (len_nonneg pre) as Hp.
      destruct (0 <=? len pre) eqn:E; [|apply Z.leb_gt in E; lia].
      exists (x :: pre), post. repeat split.
      * simpl. now rewrite Hs.
      * unfold len. cbn [List.length]. lia.
      * assumption.
Qed.

(** [rfind] is at or after every occurrence. *)
Lemma rfind_after c pre post : len pre <= rfind c (pre ++ c :: post).
Proof.
  induction pre as [|x pre IH]; simpl.
  - pose proof (rfind_bounds c post).
    destruct (0 <=? rfind c post) eqn:E.
    + apply Z.leb_le in E. unfold len; simpl; lia.
    + rewrite Ascii.eqb_refl. unfold len; simpl; lia.
  - pose proof (len_nonneg pre).
    destruct (0 <=? rfind c (pre ++ c :: post)) eqn:E.
    + unfold len in *. cbn [List.length]. lia.
    + apply Z.leb_gt in E. lia.
Qed.

Lemma firstn_len_app (pre post : str) k :
  firstn (Z.to_nat (len pre + Z.of_nat k)) (pre ++ post)
  = pre ++ firstn k post.
Proof.
  unfold len. replace (Z.to_nat _) with (List.length pre + k)%nat by lia.
  apply firstn_app_2.
Qed.

Lemma startswith_app s p : startswith (p ++ s) p = true.
Proof.
  induction p as [|a p IH]; simpl; [reflexivity|].
  now rewrite Ascii.eqb_refl.
Qed.

Lemma startswith_iff s p :
  startswith s p = true <-> exists rest, s = p ++ rest.
Proof.
  revert s. induction p as [|a p IH]; intros s; simpl.
  - split; [intros _; now exists s | reflexivity].
  - destruct s as [|b s].
    + split; [discriminate | intros [rest H]; discriminate].
    + rewrite andb_true_iff, Ascii.eqb_eq, IH. split.
      * intros [-> [rest ->]]. now exists rest.
      * intros [rest H]. injection H as -> ->. split; eauto.
Qed.

(** [needle in hay] holds exactly when [hay] has [needle] as a
    contiguous part. *)
Lemma contains_iff needle hay :
  contains needle hay = true
  <-> exists pre post, hay = pre ++ needle ++ post.
Proof.
  induction hay as [|x t IH]; simpl.
  - rewrite orb_false_r, startswith_iff. split.
    + intros [rest H]. now exists [], rest.
    + intros (pre & post & H).
      destruct pre; simpl in H.
      * now exists post.
      * discriminate.
  - rewrite orb_true_iff, startswith_iff, IH. split.
    + intros [[rest H] | (pre & post & H)].
      * now exists [], rest.
      * exists (x :: pre), post. simpl. now rewrite H.
    + intros (pre & post & H). destruct pre as [|y pre]; simpl in H.
      * left. now exists post.
      * right. injection H as _ H. now exists pre, post.
Qed.

Lemma lower_app s p : lower (s ++ p) = lower s ++ lower p.
Proof. apply map_app. Qed.

(** Cutting a lowered string cuts the string. *)
Lemma lower_eq_app s a b :
  lower s = a ++ b ->
  exists s1 s2, s = s1 ++ s2 /\ lower s1 = a /\ lower s2 = b.
Proof.
  revert s. induction a as [|x a IH]; intros s H; simpl in H.
  - exists [], s. auto.
  - destruct s as [|y s]; [discriminate|].
    simpl in H. injection H as Hx H.
    destruct (IH _ H) as (s1 & s2 & -> & <- & <-).
    exists (y :: s1), s2. simpl. now rewrite Hx.
Qed.

End StringFacts.

(* ================================================================== *)
(** ** The character limit of the hunter pipeline *)
(* ================================================================== *)

Section CharacterLimit.

Lemma endswith_app (p suffix : str) : endswith (p ++ suffix) suffix = true.
Proof.
  unfold endswith. rewrite rev_app_distr. apply startswith_app.
Qed.

(** The window of a message that is too long has exactly [max_length]
    characters. *)
Lemma len_window max_length (message : str) :
  0 <= max_length -> max_length < len message ->
  len (slice_to message max_length) = max_length.
Proof. intros. apply len_slice_to. lia. Qed.

Lemma len_cons (c : ascii) (s : str) : len (c :: s) = 1 + len s.
Proof. unfold len. cbn [List.length]. lia. Qed.

(** Nothing after the position [rfind] returns holds the character. *)
Lemma rfind_none_after (c d : ascii) (pre post : str) :
  rfind c (pre ++ d :: post) <= len pre -> ~ In c post.
Proof.
  intros Hle Hin. apply in_split in Hin. destruct Hin as (l1 & l2 & ->).
  pose proof (rfind_after c (pre ++ d :: l1) l2) as Ha.
  rewrite <- app_assoc in Ha. simpl in Ha.
  rewrite len_app, len_cons in Ha.
  pose proof (len_nonneg l1). lia.
Qed.

Lemma cut_point_spec (window : str) :
  last_sentence_end window
    (Z.max (rfind "."%char window) (rfind "?"%char window)).
Proof.
  unfold last_sentence_end.
  destruct (rfind_split "."%char window)
    as [[Hp Np] | (pre & post & Hw & Hp & Np)];
  destruct (rfind_split "?"%char window)
    as [[Hq Nq] | (pre' & post' & Hw' & Hq & Nq)].
  - left. rewrite Hp, Hq. auto.
  - right. exists pre', "?"%char, post'.
    pose proof (len_nonneg pre').
    repeat split; auto; [lia|].
    intros Hin. apply Np. rewrite Hw'. apply in_or_app. right. now right.
  - right. exists pre, "."%char, post.
    pose proof (len_nonneg pre).
    repeat split; auto; [lia|].
    intros Hin. apply Nq. rewrite Hw. apply in_or_app. right. now right.
  - right.
    destruct (Z.max_spec (rfind "."%char window) (rfind "?"%char window))
      as [[Hlt Hm] | [Hle Hm]]; rewrite Hm.
    + exists pre', "?"%char, post'. repeat split; auto.
      apply (@rfind_none_after "."%char "?"%char pre').
      rewrite <- Hw'. lia.
    + exists pre, "."%char, post. repeat split; auto.
      apply (@rfind_none_after "?"%char "."%char pre).
      rewrite <- Hw. lia.
Qed.

(** The exact comparison is the comparison on doubles for every limit up
    to 400 and every cut point a window of that size can have. *)
Lemma past_sixty_percent_is_double :
  forallb
    (fun max_length =>
       forallb
         (fun cut_point =>
            Bool.eqb (past_sixty_percent cut_point max_length)
                     (past_sixty_percent_double cut_point max_length))
         (map (fun i => Z.of_nat i - 1) (seq 0 402)))
    (map Z.of_nat (seq 0 401)) = true.
Proof. vm_compute. reflexivity. Qed.

Lemma cut_point_below (window : str) :
  Z.max (rfind "."%char window) (rfind "?"%char window) < len window.
Proof.
  pose proof (rfind_bounds "."%char window).
  pose proof (rfind_bounds "?"%char window). lia.
Qed.

Lemma enforce_character_limit_short max_length (message : str) :
  len message <= max_length ->
  enforce_character_limit max_length message = message.
Proof.
  intros H. unfold enforce_character_limit.
  destruct (max_length <? len message) eqn:E; [|reflexivity].
  apply Z.ltb_lt in E. lia.
Qed.

(** The two ways a message that is too long is cut. *)
Lemma enforce_character_limit_long max_length (message : str) :
  3 <= max_length -> max_length < len message ->
  exists cut_point,
    last_sentence_end (slice_to message max_length) cut_point
    /\ ((3 * max_length < 5 * cut_point
         /\ enforce_character_limit max_length message
            = slice_to message (cut_point + 1))
        \/ (5 * cut_point <= 3 * max_length
            /\ enforce_character_limit max_length message
               = slice_to message (max_length - 3) ++ lit "...")).
Proof.
  intros Hm Hlen. unfold enforce_character_limit.
  apply Z.ltb_lt in Hlen. rewrite Hlen. apply Z.ltb_lt in Hlen.
  set (window := slice_to message max_length).
  assert (len window = max_length) as Hw
    by (apply len_window; lia).
  pose proof (cut_point_below window) as Hcp.
  exists (Z.max (rfind "."%char window) (rfind "?"%char window)).
  split; [apply cut_point_spec|].
  cbv zeta. unfold past_sixty_percent.
  destruct (3 * max_length <?
            5 * Z.max (rfind "."%char window) (rfind "?"%char window)) eqn:E.
  - apply Z.ltb_lt in E. left. split; [assumption|].
    apply slice_to_slice_to. lia.
  - apply Z.ltb_ge in E. right. split; [assumption|].
    f_equal. apply slice_to_slice_to. lia.
Qed.

Lemma ends_sentence_ellipsis (p : str) :
  ends_sentence (p ++ lit "...") = true.
Proof.
  unfold ends_sentence. rewrite (endswith_app p (lit "...")).
  now rewrite orb_true_r.
Qed.

(** A cut at the last [.] or [?] of the window leaves a message that
    ends with it. *)
Lemma ends_sentence_cut (window : str) cut_point :
  last_sentence_end window cut_point -> 0 <= cut_point ->
  ends_sentence (slice_to window (cut_point + 1)) = true.
Proof.
  intros [[H _] | (pre & c & post & Hw & Hc & Hpunct & _)] H0; [lia|].
  subst window cut_point. rewrite slice_to_prefix by lia.
  replace (len pre + 1) with (len pre + Z.of_nat 1) by lia.
  rewrite firstn_len_app. cbn [firstn].
  unfold ends_sentence.
  change (lit ".") with ["."%char]. change (lit "?") with ["?"%char].
  destruct Hpunct as [-> | ->].
  - now rewrite (endswith_app pre ["."%char]).
  - rewrite (endswith_app pre ["?"%char]). now rewrite orb_true_r.
Qed.

(** After the limit is enforced the message fits, and a message that
    was cut ends a sentence or in an ellipsis. *)
Lemma enforce_character_limit_fits max_length (message : str) :
  3 <= max_length ->
  len (enforce_character_limit max_length message) <= max_length
  /\ (max_length < len message ->
      ends_sentence (enforce_character_limit max_length message) = true).
Proof.
  intros Hm.
  destruct (Z.lt_ge_cases max_length (len message)) as [Hlong | Hshort].
  - destruct (enforce_character_limit_long message Hm Hlong)
      as (cp & Hlast & [[Hpast ->] | [Hnot ->]]).
    + assert (cp < max_length) as Hcp.
      { destruct Hlast as [[-> _] | (pre & c & post & Hw & -> & _)];
          [lia|].
        apply (f_equal len) in Hw.
        rewrite len_window, len_app, len_cons in Hw by lia.
        pose proof (len_nonneg post). lia. }
      split.
      * rewrite len_slice_to; lia.
      * intros _.
        rewrite <- (slice_to_slice_to message (n := max_length)) by lia.
        apply ends_sentence_cut; [assumption | lia].
    + split.
      * rewrite len_app, len_slice_to by lia.
        unfold len; simpl; lia.
      * intros _. apply ends_sentence_ellipsis.
  - rewrite enforce_character_limit_short by lia. split; lia.
Qed.

(** What a returned connection note is made of. *)
Lemma generate_cold_connect_note_inv
    client contact_name contact_title contact_type company job_title
    job_description cold_email_template resume_context resume_highlights
    max_length r :
  generate_cold_connect_note client contact_name contact_title
    contact_type company job_title job_description cold_email_template
    resume_context resume_highlights max_length = Return r ->
  exists first_name p content,
    first_name_of contact_name = Return first_name
    /\ client p = Return content
    /\ note_message r
       = enforce_character_limit max_length (clean_response content)
    /\ note_char_count r = len (note_message r)
    /\ note_max_allowed r = max_length.
Proof.
  unfold generate_cold_connect_note. intros H.
  destruct (first_name_of contact_name) as [fn|e] eqn:Hfn;
    [|discriminate].
  cbn [bind] in H.
  match type of H with
  | context [client ?q] => destruct (client q) as [content|e] eqn:Hc
  end; [|discriminate].
  cbn [bind] in H. injection H as <-.
  eexists fn, _, content. cbn. repeat split; eauto.
Qed.

(** C1 (amended).  For every answer of the generation service, at the
    default [max_length] of 295 as at every limit of at least 3, the
    message [generate_cold_connect_note] returns has at most
    [max_length] characters and [char_count] is its length.  The
    truncation step works on the cleaned answer, the answer stripped of
    surrounding whitespace and quote characters: a cleaned answer that
    fits is the message, and when the cleaned answer was longer than
    [max_length] the message ends in [.], [?] or [...]. *)
Theorem cold_connect_note_within_limit
    client contact_name contact_title contact_type company job_title
    job_description cold_email_template resume_context resume_highlights
    max_length r :
  3 <= max_length ->
  generate_cold_connect_note client contact_name contact_title
    contact_type company job_title job_description cold_email_template
    resume_context resume_highlights max_length = Return r ->
  len (note_message r) <= max_length
  /\ note_char_count r = len (note_message r)
  /\ exists p content,
       client p = Return content
       /\ note_message r
          = enforce_character_limit max_length (clean_response content)
       /\ (len (clean_response content) <= max_length ->
           note_message r = clean_response content)
       /\ (max_length < len (clean_response content) ->
           ends_sentence (note_message r) = true).
Proof.
  intros Hm H.
  apply generate_cold_connect_note_inv in H.
  destruct H as (fn & p & content & _ & Hc & Hmsg & Hcount & _).
  destruct (enforce_character_limit_fits (clean_response content) Hm)
    as [Hfit Hend].
  rewrite Hmsg. repeat split; auto.
  - now rewrite <- Hmsg.
  - exists p, content. repeat split; auto.
    apply enforce_character_limit_short.
Qed.

Lemma cold_connect_note_within_limit_witness :
  exists r,
    generate_cold_connect_note
      (answering "  'Tom, your work on the data platform stands out. Could we connect?' ")
      (lit "Tom Reed") (lit "Engineering Manager") (lit "hiring_manager")
      (lit "Acme") (lit "Data Analyst") [] None None [] 50 = Return r
    /\ note_message r
       = lit "Tom, your work on the data platform stands out."
    /\ len (note_message r) <= 50.
Proof.
  eexists. split; [reflexivity|]. split; [reflexivity|].
  refine (proj1 (@cold_connect_note_within_limit
                   (answering "  'Tom, your work on the data platform stands out. Could we connect?' ")
                   (lit "Tom Reed") (lit "Engineering Manager")
                   (lit "hiring_manager") (lit "Acme") (lit "Data Analyst")
                   [] None None [] 50 _ _ eq_refl)).
  lia.
Defined.

(** C1 as stated fails at the default limit: an answer of 296
    characters, 294 letters between double quotes, exceeds 295 as the
    service returns it, yet the truncation step does not fire on it.
    The quotes are stripped first, and the message is the 294 letters,
    which end in no [.], [?] or [...]. *)
Lemma cold_connect_note_quoted_answer_not_cut :
  default_max_length < len quoted_answer
  /\ exists r,
       generate_cold_connect_note (fun _ => Return quoted_answer)
         (lit "Tom Reed") (lit "Engineering Manager")
         (lit "hiring_manager") (lit "Acme") (lit "Data Analyst")
         [] None None [] default_max_length = Return r
       /\ note_message r = repeat "a"%char 294
       /\ len (note_message r) = 294
       /\ ends_sentence (note_message r) = false.
Proof.
  split; [reflexivity|].
  eexists. split; [vm_compute; reflexivity|]. repeat split.
Qed.

(** Below 3 the ellipsis branch misses the limit it enforces: the slice
    bound [max_length - 3] is negative, and with [max_length = 2] the
    answer [abc] comes back as [a...], four characters.  No caller
    passes such a limit: the tool and [generate_message] use the
    default. *)
Lemma cold_connect_note_limit_two_exceeded :
  exists r,
    generate_cold_connect_note (answering "abc")
      (lit "Tom Reed") (lit "Engineering Manager") (lit "hiring_manager")
      (lit "Acme") (lit "Data Analyst") [] None None [] 2 = Return r
    /\ note_message r = lit "a..."
    /\ ~ len (note_message r) <= 2.
Proof.
  eexists. split; [reflexivity|]. split; [reflexivity|].
  vm_compute. intros H. apply H. reflexivity.
Qed.

(** C2 (amended).  For every text longer than [max_length] (at least 3),
    with [cut_point] the position of the last [.] or [?] among the
    first [max_length] characters (-1 when there is none): when
    [cut_point] lies strictly after 60% of [max_length] the text is cut
    there, punctuation included; otherwise, a cut point at exactly 60%
    included, it is cut to [max_length - 3] characters and [...] is
    appended. *)
Theorem hunter_truncation_cut max_length (message : str) :
  3 <= max_length -> max_length < len message ->
  exists cut_point,
    last_sentence_end (firstn (Z.to_nat max_length) message) cut_point
    /\ (3 * max_length < 5 * cut_point ->
        enforce_character_limit max_length message
        = firstn (Z.to_nat (cut_point + 1)) message)
    /\ (5 * cut_point <= 3 * max_length ->
        enforce_character_limit max_length message
        = firstn (Z.to_nat (max_length - 3)) message ++ lit "...").
Proof.
  intros Hm Hlen.
  destruct (enforce_character_limit_long message Hm Hlen)
    as (cp & Hlast & Hcases).
  exists cp. rewrite slice_to_prefix in Hlast by lia.
  split; [assumption|].
  destruct Hcases as [[Hpast ->] | [Hnot ->]]; split; intros H; try lia.
  - apply slice_to_prefix. lia.
  - f_equal. apply slice_to_prefix. lia.
Qed.

Lemma hunter_truncation_cut_witness :
  3 <= 10 /\ 10 < len (lit "Hello all. How are you")
  /\ exists cut_point,
       last_sentence_end (firstn 10 (lit "Hello all. How are you"))
         cut_point
       /\ (3 * 10 < 5 * cut_point ->
           enforce_character_limit 10 (lit "Hello all. How are you")
           = firstn (Z.to_nat (cut_point + 1))
               (lit "Hello all. How are you"))
       /\ (5 * cut_point <= 3 * 10 ->
           enforce_character_limit 10 (lit "Hello all. How are you")
           = firstn (Z.to_nat (10 - 3)) (lit "Hello all. How are you")
             ++ lit "...").
Proof.
  assert (3 <= 10) as H3 by lia.
  assert (10 < len (lit "Hello all. How are you")) as Hl by reflexivity.
  split; [exact H3|]. split; [exact Hl|].
  exact (@hunter_truncation_cut 10 (lit "Hello all. How are you") H3 Hl).
Defined.

(** C2 as stated fails at a cut point lying at exactly 60% of
    [max_length]: with the default 295 and the last sentence end at
    index 177 the specification's wording cuts there, the code cuts to
    292 characters and appends the ellipsis. *)
Lemma hunter_cut_at_sixty_percent_not_taken :
  295 < len boundary_message
  /\ Z.max (rfind "."%char (slice_to boundary_message 295))
           (rfind "?"%char (slice_to boundary_message 295)) = 177
  /\ 5 * 177 = 3 * 295
  /\ truncate_as_specified 295 boundary_message
     = firstn 178 boundary_message
  /\ enforce_character_limit 295 boundary_message
     = firstn 292 boundary_message ++ lit "..."
  /\ enforce_character_limit 295 boundary_message
     <> truncate_as_specified 295 boundary_message.
Proof.
  repeat split; try (vm_compute; reflexivity).
  vm_compute. discriminate.
Qed.

End CharacterLimit.

(* ================================================================== *)
(** ** Routing, value section and first name *)
(* ================================================================== *)

Section Routing.

Lemma str_eqb_eq (a b : str) : str_eqb a b = true <-> a = b.
Proof.
  unfold str_eqb. destruct (list_eq_dec ascii_dec a b); split;
    congruence.
Qed.

Lemma str_eqb_neq (a b : str) : str_eqb a b = false <-> a <> b.
Proof.
  unfold str_eqb. destruct (list_eq_dec ascii_dec a b); split;
    congruence.
Qed.

Ltac eqb_to_prop :=
  repeat match goal with
         | H : str_eqb _ _ = true |- _ =>
             apply (proj1 (str_eqb_eq _ _)) in H
         | H : str_eqb _ _ = false |- _ =>
             apply (proj1 (str_eqb_neq _ _)) in H
         end.

(** C5.  [determine_pipeline] answers [farmer] exactly when the
    connection degree is [1st] or the contact source is [csv_import], and
    [hunter] otherwise; the four routes of the specification follow.  The
    function reads nothing but its two arguments. *)
Theorem determine_pipeline_rule :
  (forall connection_degree contact_source,
      (determine_pipeline connection_degree contact_source = lit "farmer"
       <-> connection_degree = lit "1st"
           \/ contact_source = lit "csv_import")
      /\ (determine_pipeline connection_degree contact_source = lit "hunter"
          <-> ~ (connection_degree = lit "1st"
                 \/ contact_source = lit "csv_import")))
  /\ determine_pipeline (lit "1st") (lit "apollo") = lit "farmer"
  /\ determine_pipeline (lit "2nd") (lit "csv_import") = lit "farmer"
  /\ determine_pipeline (lit "2nd") (lit "apollo") = lit "hunter"
  /\ determine_pipeline (lit "3rd") (lit "apollo") = lit "hunter".
Proof.
  split; [|repeat split].
  intros d src. unfold determine_pipeline.
  destruct (str_eqb d (lit "1st")) eqn:Ed;
    destruct (str_eqb src (lit "csv_import")) eqn:Es; cbn [orb];
    eqb_to_prop;
    split; split; intros H; auto; try discriminate; try tauto.
Qed.

(** The unified entry point dispatches on that answer. *)
Lemma generate_message_routes
    client contact_name company job_title contact_title contact_type
    connection_degree contact_source job_description cold_email_template
    resume_context resume_highlights connected_date g :
  generate_message client contact_name company job_title contact_title
    contact_type connection_degree contact_source job_description
    cold_email_template resume_context resume_highlights connected_date
  = Return g ->
  match g with
  | WarmDm _ =>
      determine_pipeline connection_degree contact_source = lit "farmer"
  | ColdConnectNote m =>
      determine_pipeline connection_degree contact_source = lit "hunter"
      /\ note_max_allowed m = default_max_length
  end.
Proof.
  unfold generate_message. intros H.
  destruct (str_eqb (determine_pipeline _ _) (lit "farmer")) eqn:E.
  - destruct (generate_warm_dm _ _ _ _ _ _ _ _ _ _) eqn:Hg;
      [|discriminate].
    injection H as <-. now apply str_eqb_eq.
  - destruct (generate_cold_connect_note _ _ _ _ _ _ _ _ _ _ _) eqn:Hg;
      [|discriminate].
    injection H as <-. split.
    + unfold determine_pipeline in *.
      destruct (_ || _); [discriminate | reflexivity].
    + apply generate_cold_connect_note_inv in Hg.
      now destruct Hg as (_ & _ & _ & _ & _ & _ & _ & ?).
Qed.

(** C7.  The value section takes the first non-empty source in the order
    cold email template (its first 800 characters), resume context (first
    500), resume highlights (first 500), and else the fixed sentence: a
    later source is used only when every earlier one is empty or
    absent. *)
Theorem value_section_priority
    (cold_email_template resume_context : option str)
    (resume_highlights : str) :
  (forall t, cold_email_template = Some t -> t <> [] ->
     _build_value_section cold_email_template resume_context
       resume_highlights = cold_email_header ++ firstn 800 t)
  /\ (truthy cold_email_template = false ->
      forall r, resume_context = Some r -> r <> [] ->
        _build_value_section cold_email_template resume_context
          resume_highlights = resume_context_header ++ firstn 500 r)
  /\ (truthy cold_email_template = false ->
      truthy resume_context = false -> resume_highlights <> [] ->
      _build_value_section cold_email_template resume_context
        resume_highlights
      = highlights_header ++ firstn 500 resume_highlights)
  /\ (truthy cold_email_template = false ->
      truthy resume_context = false -> resume_highlights = [] ->
      _build_value_section cold_email_template resume_context
        resume_highlights = no_background).
Proof.
  unfold _build_value_section. repeat split.
  - intros t -> Ht. apply nonempty_true_iff in Ht.
    cbn [truthy unwrap]. now rewrite Ht.
  - intros -> r -> Hr. apply nonempty_true_iff in Hr.
    cbn [truthy unwrap]. now rewrite Hr.
  - intros -> -> Hh. apply nonempty_true_iff in Hh. now rewrite Hh.
  - intros -> -> ->. reflexivity.
Qed.

Lemma value_section_priority_witness :
  _build_value_section (Some (lit "Dear team, I build data pipelines."))
    (Some (lit "Resume text")) (lit "SQL, Python")
  = cold_email_header ++ lit "Dear team, I build data pipelines."
  /\ _build_value_section (Some []) (Some (lit "Resume text"))
       (lit "SQL, Python")
     = resume_context_header ++ lit "Resume text"
  /\ _build_value_section None (Some []) (lit "SQL, Python")
     = highlights_header ++ lit "SQL, Python"
  /\ _build_value_section None None [] = no_background.
Proof.
  split; [|split; [|split]].
  - refine (proj1 (value_section_priority
                     (Some (lit "Dear team, I build data pipelines."))
                     (Some (lit "Resume text")) (lit "SQL, Python"))
                  _ eq_refl _).
    discriminate.
  - refine (proj1 (proj2 (value_section_priority
                            (Some []) (Some (lit "Resume text"))
                            (lit "SQL, Python")))
                  eq_refl _ eq_refl _).
    discriminate.
  - refine (proj1 (proj2 (proj2 (value_section_priority
                                   None (Some []) (lit "SQL, Python"))))
                  eq_refl eq_refl _).
    discriminate.
  - exact (proj2 (proj2 (proj2 (value_section_priority None None [])))
                 eq_refl eq_refl eq_refl).
Defined.

End Routing.

(* ================================================================== *)
(** ** First-name extraction *)
(* ================================================================== *)

Section FirstName.

Lemma split_blank (s : str) : Forall blank s -> split s = [].
Proof.
  induction 1 as [|c t Hc _ IH]; [reflexivity|].
  cbn [split]. unfold blank in Hc. now rewrite Hc.
Qed.

Lemma cons_first_not_nil c toks : cons_first c toks <> [].
Proof. destruct toks; discriminate. Qed.

Lemma split_nil_inv (s : str) : split s = [] -> Forall blank s.
Proof.
  induction s as [|c t IH]; [constructor|].
  cbn [split]. destruct (isspace c) eqn:Ec.
  - intros H. constructor; [exact Ec | auto].
  - destruct t as [|d t']; [discriminate|].
    destruct (isspace d); [discriminate|].
    intros H. now apply cons_first_not_nil in H.
Qed.

(** The first token of [split]: what follows the leading blanks, up to
    the next blank or the end. *)
Lemma split_first_token (s : str) tok toks :
  split s = tok :: toks ->
  exists blanks rest,
    s = blanks ++ tok ++ rest
    /\ Forall blank blanks
    /\ tok <> []
    /\ Forall (fun c => isspace c = false) tok
    /\ (rest = [] \/ exists c rest', rest = c :: rest' /\ blank c).
Proof.
  revert tok toks. induction s as [|c t IH]; [discriminate|].
  intros tok toks. cbn [split]. destruct (isspace c) eqn:Ec.
  - intros H. destruct (IH _ _ H) as (bl & rest & -> & Hbl & Hrest).
    exists (c :: bl), rest. repeat split; try tauto.
    now constructor.
  - destruct t as [|d t'].
    + intros H. injection H as <- <-. exists [], [].
      repeat split; auto; try discriminate.
    + destruct (isspace d) eqn:Ed.
      * intros H. injection H as <- _. exists [], (d :: t').
        repeat split; auto; try discriminate.
        right. now exists d, t'.
      * destruct (split (d :: t')) as [|w ws] eqn:Hs.
        { apply split_nil_inv in Hs. inversion Hs as [|? ? Hd _].
          unfold blank in Hd. congruence. }
        cbn [cons_first]. intros H. injection H as <- <-.
        destruct (IH _ _ eq_refl)
          as (bl & rest & Heq & Hbl & Hne & Htok & Hrest).
        destruct bl as [|b bl].
        -- exists [], rest. cbn [app] in *. rewrite Heq.
           repeat split; auto; try discriminate.
        -- cbn [app] in Heq. injection Heq as <- _.
           inversion Hbl as [|? ? Hb _]. unfold blank in Hb. congruence.
Qed.

Lemma first_name_of_blank (contact_name : str) :
  contact_name <> [] -> Forall blank contact_name ->
  first_name_of contact_name = Raise IndexError.
Proof.
  intros Hne Hbl. unfold first_name_of.
  apply nonempty_true_iff in Hne. rewrite Hne.
  now rewrite split_blank.
Qed.

(** C10.  A contact name that is not empty but holds only whitespace makes
    both generators raise [IndexError], whatever the other arguments and
    the generation service; the default [there] is the first name of the
    empty contact name only, every other name that gets a first name gets
    its first whitespace-delimited token. *)
Theorem first_name_not_total :
  (forall client contact_name,
      contact_name <> [] -> Forall blank contact_name ->
      (forall contact_title contact_type company job_title job_description
              cold_email_template resume_context resume_highlights
              max_length,
          generate_cold_connect_note client contact_name contact_title
            contact_type company job_title job_description
            cold_email_template resume_context resume_highlights max_length
          = Raise IndexError)
      /\ (forall company target_role connected_date contact_title
                contact_type cold_email_template resume_context
                resume_highlights,
            generate_warm_dm client contact_name company target_role
              connected_date contact_title contact_type cold_email_template
              resume_context resume_highlights
            = Raise IndexError))
  /\ first_name_of [] = Return (lit "there")
  /\ (forall contact_name first_name,
        contact_name <> [] ->
        first_name_of contact_name = Return first_name ->
        exists blanks rest,
          contact_name = blanks ++ first_name ++ rest
          /\ Forall blank blanks
          /\ first_name <> []
          /\ Forall (fun c => isspace c = false) first_name
          /\ (rest = [] \/ exists c rest', rest = c :: rest' /\ blank c)).
Proof.
  split; [|split].
  - intros client contact_name Hne Hbl.
    pose proof (first_name_of_blank Hne Hbl) as Hfn.
    split; intros; [unfold generate_cold_connect_note
                   | unfold generate_warm_dm];
      rewrite Hfn; reflexivity.
  - reflexivity.
  - intros contact_name first_name Hne H. unfold first_name_of in H.
    apply nonempty_true_iff in Hne. rewrite Hne in H.
    destruct (split contact_name) as [|tok toks] eqn:Hs; [discriminate|].
    injection H as <-. eapply split_first_token; eauto.
Qed.

Lemma first_name_not_total_witness :
  generate_cold_connect_note (answering "Hello.") (lit "  ")
    (lit "Engineering Manager") (lit "hiring_manager") (lit "Acme")
    (lit "Data Analyst") [] None None [] 295
  = Raise IndexError
  /\ generate_warm_dm (answering "Hello.") (lit "  ") (lit "Acme")
       (lit "Data Analyst") (lit "Unknown") None (lit "team_member")
       None None None
     = Raise IndexError.
Proof.
  assert (lit "  " <> []) as Hne by discriminate.
  assert (Forall blank (lit "  ")) as Hbl
      by (repeat constructor).
  destruct (proj1 first_name_not_total (answering "Hello.") (lit "  ")
              Hne Hbl) as [Hcold Hwarm].
  split; [apply Hcold | apply Hwarm].
Defined.

End FirstName.

(* ================================================================== *)
(** ** Epic gap detection of the hunter pipeline *)
(* ================================================================== *)

Section EpicGap.

(** Containment after lowering both sides is occurrence up to case. *)
Lemma contains_lower_iff (needle hay : str) :
  contains (lower needle) (lower hay) = true
  <-> occurs_ignoring_case needle hay.
Proof.
  rewrite contains_iff. unfold occurs_ignoring_case. split.
  - intros (pre & post & H).
    apply lower_eq_app in H. destruct H as (s1 & s2 & -> & _ & H).
    apply lower_eq_app in H. destruct H as (s3 & s4 & -> & H & _).
    now exists s1, s3, s4.
  - intros (pre & part & post & -> & H).
    exists (lower pre), (lower post).
    now rewrite !lower_app, H.
Qed.

Lemma check_text_source (resume_context : option str)
    (resume_highlights : str) :
  unwrap (or_else (or_else resume_context (Some resume_highlights))
                  (Some []))
  = if truthy resume_context then unwrap resume_context
    else resume_highlights.
Proof.
  destruct resume_context as [[|c r]|]; destruct resume_highlights;
    reflexivity.
Qed.

Lemma generate_cold_connect_note_gap
    client contact_name contact_title contact_type company job_title
    job_description cold_email_template resume_context resume_highlights
    max_length r :
  generate_cold_connect_note client contact_name contact_title
    contact_type company job_title job_description cold_email_template
    resume_context resume_highlights max_length = Return r ->
  note_has_epic_gap r
  = contains (lit "epic") (lower job_description)
    && negb (contains (lit "epic")
               (lower (if truthy resume_context then unwrap resume_context
                       else resume_highlights))).
Proof.
  unfold generate_cold_connect_note. intros H.
  destruct (first_name_of contact_name) as [fn|e]; [|discriminate].
  cbn [bind] in H.
  match type of H with
  | context [client ?q] => destruct (client q) as [content|e]
  end; [|discriminate].
  cbn [bind] in H. injection H as <-. cbn [note_has_epic_gap].
  rewrite check_text_source.
  destruct job_description; reflexivity.
Qed.

(** C9.  The [has_epic_gap] of a returned connection note holds exactly
    when [epic] occurs, up to case, in the job description and does not
    occur in the resume context when that is non-empty, in the resume
    highlights otherwise.  The cold email template has no part in it:
    two calls that differ in it (and in the generation service) report
    the same gap. *)
Theorem hunter_epic_gap
    client contact_name contact_title contact_type company job_title
    job_description cold_email_template resume_context resume_highlights
    max_length r :
  generate_cold_connect_note client contact_name contact_title
    contact_type company job_title job_description cold_email_template
    resume_context resume_highlights max_length = Return r ->
  (note_has_epic_gap r = true
   <-> occurs_ignoring_case (lit "epic") job_description
       /\ ~ occurs_ignoring_case (lit "epic")
             (if truthy resume_context then unwrap resume_context
              else resume_highlights))
  /\ (forall client' other_template r',
        generate_cold_connect_note client' contact_name contact_title
          contact_type company job_title job_description other_template
          resume_context resume_highlights max_length = Return r' ->
        note_has_epic_gap r' = note_has_epic_gap r).
Proof.
  intros H. pose proof (generate_cold_connect_note_gap _ _ _ _ _ _ _ _ _ _ _ H)
    as Hgap.
  split.
  - rewrite Hgap, andb_true_iff, negb_true_iff.
    change (lit "epic") with (lower (lit "epic")) at 1 2.
    rewrite contains_lower_iff.
    split; intros [H1 H2]; split; auto.
    + rewrite <- contains_lower_iff. congruence.
    + rewrite <- contains_lower_iff in H2.
      now apply not_true_is_false.
  - intros client' other r' H'.
    apply generate_cold_connect_note_gap in H'. congruence.
Qed.

Lemma hunter_epic_gap_witness :
  exists r,
    generate_cold_connect_note (answering "Hello.")
      (lit "Sarah Johnson") [] [] (lit "Epic Systems")
      (lit "Senior Data Analyst")
      (lit "Looking for Senior Data Analyst with Epic certification to join our team.")
      (Some (lit "I hold an Epic certification.")) None
      (lit "5 years healthcare analytics, SQL expert, Python, Tableau certified")
      295 = Return r
    /\ note_has_epic_gap r = true
    /\ occurs_ignoring_case (lit "epic")
         (lit "Looking for Senior Data Analyst with Epic certification to join our team.").
Proof.
  eexists. split; [reflexivity|]. split; [reflexivity|].
  refine (proj1 (proj1 (proj1 (@hunter_epic_gap (answering "Hello.")
            (lit "Sarah Johnson") [] [] (lit "Epic Systems")
            (lit "Senior Data Analyst")
            (lit "Looking for Senior Data Analyst with Epic certification to join our team.")
            (Some (lit "I hold an Epic certification.")) None
            (lit "5 years healthcare analytics, SQL expert, Python, Tableau certified")
            295 _ eq_refl)) eq_refl)).
Defined.

End EpicGap.

(* ================================================================== *)
(** ** Message refinement *)
(* ================================================================== *)

Section Refinement.

(** The limit [refine_message] works with once the default is applied. *)
Lemma refine_message_inv client current_message edit_instruction
    max_length pipeline r :
  refine_message client current_message edit_instruction max_length
    pipeline = Return r ->
  exists p content,
    client p = Return content
    /\ refined_max_allowed r
       = match max_length with
         | Some n => Some n
         | None => if str_eqb pipeline (lit "hunter")
                   then Some default_max_length else None
         end
    /\ refined_text r
       = match refined_max_allowed r with
         | Some n =>
             if negb (n =? 0) && (n <? len (clean_response content))
             then slice_to (clean_response content) (n - 3) ++ lit "..."
             else clean_response content
         | None => clean_response content
         end
    /\ refined_char_count r = len (refined_text r)
    /\ refined_pipeline r = pipeline.
Proof.
  unfold refine_message. intros H.
  match type of H with
  | context [client ?q] => destruct (client q) as [content|e] eqn:Hc
  end; [|discriminate].
  cbn [bind] in H. injection H as <-.
  eexists _, content. cbn. repeat split; eauto.
Qed.

(** C8 (amended).  Without an explicit limit [refine_message] works with
    295 for the pipeline [hunter] and with none for any other pipeline;
    an explicit limit is kept.  A cleaned answer longer than a limit
    other than 0 becomes [message[:limit - 3]] followed by [...],
    wherever its sentences end; from a limit of 3 on that is its first
    [limit - 3] characters and the result has [limit] characters.  A
    limit of 0 counts as no limit: the answer is returned whole. *)
Theorem refine_message_hard_truncation client current_message
    edit_instruction max_length pipeline r :
  refine_message client current_message edit_instruction max_length
    pipeline = Return r ->
  (max_length = None ->
   (pipeline = lit "hunter" -> refined_max_allowed r = Some 295)
   /\ (pipeline <> lit "hunter" -> refined_max_allowed r = None))
  /\ (forall n, max_length = Some n -> refined_max_allowed r = Some n)
  /\ exists p content,
       client p = Return content
       /\ (forall n, refined_max_allowed r = Some n -> n <> 0 ->
           n < len (clean_response content) ->
           refined_text r
           = slice_to (clean_response content) (n - 3) ++ lit "..."
           /\ (3 <= n ->
               refined_text r
               = firstn (Z.to_nat (n - 3)) (clean_response content)
                 ++ lit "..."
               /\ len (refined_text r) = n))
       /\ (forall n, refined_max_allowed r = Some n ->
           len (clean_response content) <= n ->
           refined_text r = clean_response content)
       /\ (refined_max_allowed r = Some 0 \/ refined_max_allowed r = None ->
           refined_text r = clean_response content).
Proof.
  intros H. apply refine_message_inv in H.
  destruct H as (p & content & Hc & Hmax & Htext & _ & _).
  split; [|split].
  - intros ->. split; intros Hp.
    + apply str_eqb_eq in Hp. now rewrite Hmax, Hp.
    + apply str_eqb_neq in Hp. now rewrite Hmax, Hp.
  - intros n ->. exact Hmax.
  - exists p, content. split; [exact Hc|]. split; [|split].
    + intros n Hn Hn0 Hlong. rewrite Hn in Htext.
      apply Z.eqb_neq in Hn0. apply Z.ltb_lt in Hlong.
      rewrite Hn0, Hlong in Htext. cbn [negb andb] in Htext.
      apply Z.ltb_lt in Hlong.
      split; [exact Htext|]. intros H3.
      rewrite Htext, slice_to_prefix by lia. split; [reflexivity|].
      rewrite <- (slice_to_prefix (clean_response content)) by lia.
      rewrite len_app, len_slice_to by lia.
      unfold len; simpl; lia.
    + intros n Hn Hshort. rewrite Hn in Htext.
      apply Z.ltb_ge in Hshort. rewrite Hshort, andb_false_r in Htext.
      exact Htext.
    + intros [Hn | Hn]; rewrite Hn in Htext; exact Htext.
Qed.

Lemma refine_message_hard_truncation_witness :
  exists r,
    refine_message (answering "Hello all. How are you today?")
      (lit "Hello. How are you?") (lit "greet everyone") (Some 12)
      (lit "hunter") = Return r
    /\ refined_text r = lit "Hello all..."
    /\ (forall n, Some 12 = Some n -> refined_max_allowed r = Some n).
Proof.
  eexists. split; [reflexivity|]. split; [reflexivity|].
  exact (proj1 (proj2 (@refine_message_hard_truncation
                         (answering "Hello all. How are you today?")
                         (lit "Hello. How are you?") (lit "greet everyone")
                         (Some 12) (lit "hunter") _ eq_refl))).
Defined.

(** C8 as stated fails for the limit 0, which is not null: the answer is
    longer than 0 characters and comes back whole, not cut to
    [message[:-3]] with an ellipsis. *)
Lemma refine_message_limit_zero_not_cut :
  exists r,
    refine_message (answering "Hello all.") (lit "Hello.")
      (lit "greet everyone") (Some 0) (lit "hunter") = Return r
    /\ refined_max_allowed r = Some 0
    /\ 0 < len (clean_response (lit "Hello all."))
    /\ refined_text r = lit "Hello all."
    /\ refined_text r
       <> slice_to (clean_response (lit "Hello all.")) (0 - 3) ++ lit "...".
Proof.
  eexists. split; [reflexivity|]. repeat split.
  vm_compute. discriminate.
Qed.

(** The same answer under the same limit, once through each pipeline
    step: the hunter generator stops at the sentence end, the refiner
    does not look for it. *)
Lemma refine_message_not_sentence_aware :
  enforce_character_limit 12 (lit "Hello all. How are you today?")
  = lit "Hello all."
  /\ exists r,
      refine_message (answering "Hello all. How are you today?")
        (lit "Hello.") (lit "greet everyone") (Some 12) (lit "hunter")
      = Return r
      /\ refined_text r = lit "Hello all...".
Proof.
  split; [reflexivity|]. eexists. split; reflexivity.
Qed.

End Refinement.

(* ================================================================== *)
(** ** Skill matching and the cold-email fallback *)
(* ================================================================== *)

Section ResumeTools.

(** C6.  Once the resume text is resolved, [check_skill_match] returns;
    a requirement is found exactly when the skill occurs in the job
    description up to case, the skill is found exactly when it occurs in
    the resume text up to case, [has_gap] is the first without the
    second, and the recommendation is the fixed sentence around the skill
    exactly when there is a gap, and null otherwise. *)
Theorem check_skill_match_containment
    db job_description skill_to_check application_id resume_text :
  resume_text_for db application_id = Return (Some resume_text) ->
  exists m,
    check_skill_match db job_description skill_to_check application_id
    = Return m
    /\ skill m = skill_to_check
    /\ (requirement_found m = true
        <-> occurs_ignoring_case skill_to_check job_description)
    /\ (skill_found m = true
        <-> occurs_ignoring_case skill_to_check resume_text)
    /\ has_gap m = requirement_found m && negb (skill_found m)
    /\ (has_gap m = true ->
        recommendation m = Some (recommendation_text skill_to_check))
    /\ (has_gap m = false -> recommendation m = None).
Proof.
  intros H. unfold check_skill_match. rewrite H. cbn [bind].
  eexists. split; [reflexivity|]. cbn.
  repeat split; try apply contains_lower_iff.
  - intros ->. reflexivity.
  - intros ->. reflexivity.
Qed.

Lemma check_skill_match_containment_witness :
  exists m,
    check_skill_match sample_db (lit "Epic EHR experience required.")
      (lit "epic") None = Return m
    /\ has_gap m = true
    /\ recommendation m
       = Some (lit "JD requires 'epic' but resume doesn't mention it. Address this gap in outreach.").
Proof.
  destruct (@check_skill_match_containment sample_db
              (lit "Epic EHR experience required.") (lit "epic") None
              (lit "Generic resume: healthcare analytics.") eq_refl)
    as (m & Hm & _ & _ & _ & Hgap & Hrec & _).
  exists m. split; [exact Hm|].
  assert (has_gap m = true) as Hg.
  { injection Hm as <-. reflexivity. }
  split; [exact Hg | exact (Hrec Hg)].
Defined.

(** The two cases of the specification: a job description asking for
    Epic against a resume without it, and against one that has it. *)
Lemma skill_gap_examples :
  match_skill (lit "Epic EHR experience") (lit "epic")
    (lit "5 years healthcare analytics")
  = {| skill := lit "epic";
       requirement_found := true;
       skill_found := false;
       has_gap := true;
       recommendation := Some (recommendation_text (lit "epic")) |}
  /\ has_gap (match_skill (lit "Epic EHR experience") (lit "epic")
                (lit "Epic certified")) = false.
Proof. split; reflexivity. Qed.

Lemma truthy_or_empty (x : option str) : truthy (or_empty x) = truthy x.
Proof. destruct x as [[|c s]|]; reflexivity. Qed.

Lemma or_empty_truthy (x : option str) :
  truthy x = true -> or_empty x = x.
Proof.
  destruct x as [[|c s]|]; intros H; try discriminate H; reflexivity.
Qed.

Lemma or_none_truthy (x : option str) :
  truthy x = true -> or_else (or_empty x) None = x.
Proof.
  destruct x as [[|c s]|]; intros H; try discriminate H; reflexivity.
Qed.

Lemma or_none_falsy (x : option str) :
  truthy x = false -> or_else (or_empty x) None = None.
Proof.
  destruct x as [[|c s]|]; intros H; try discriminate H; reflexivity.
Qed.

(** A non-empty candidate is returned as it is, with the name of its
    field. *)
Lemma get_cold_email_candidate db application_id contact_type row :
  connect_error db = None ->
  generated_resumes db application_id = Row row ->
  truthy (candidate contact_type row) = true ->
  exists d,
    get_cold_email db application_id contact_type = Return d
    /\ cold_email d = candidate contact_type row
    /\ fallback_used d = false
    /\ source_field d
       = Some (if str_eqb contact_type (lit "hiring_manager")
               then lit "cold_email_manager"
               else lit "cold_email_recruiter").
Proof.
  intros Hconn Hrow Hcand.
  unfold get_cold_email, get_tailored_resume, candidate in *.
  rewrite Hconn, Hrow.
  destruct (str_eqb contact_type (lit "hiring_manager"));
    [|destruct (str_eqb contact_type (lit "recruiter"));
      [|discriminate]];
    cbn [bind rd_success negb rd_cold_email_manager
         rd_cold_email_recruiter];
    rewrite (or_none_truthy _ Hcand), Hcand;
    eexists; split; try reflexivity; cbn; auto.
Qed.

(** The fallback chain as the code runs it: [final_content] first,
    [tailored_content] next.  With both empty there is no resume
    context, and the source is still named [tailored_content]. *)
Lemma get_cold_email_fallback db application_id contact_type row :
  connect_error db = None ->
  generated_resumes db application_id = Row row ->
  truthy (candidate contact_type row) = false ->
  exists d,
    get_cold_email db application_id contact_type = Return d
    /\ cold_email d = None
    /\ fallback_used d = true
    /\ (truthy (final_content row) = true ->
        resume_context d = final_content row
        /\ source_field d = Some (lit "final_content"))
    /\ (truthy (final_content row) = false ->
        truthy (tailored_content row) = true ->
        resume_context d = tailored_content row
        /\ source_field d = Some (lit "tailored_content"))
    /\ (truthy (final_content row) = false ->
        truthy (tailored_content row) = false ->
        resume_context d = None
        /\ source_field d = Some (lit "tailored_content")).
Proof.
  intros Hconn Hrow Hcand.
  unfold get_cold_email, get_tailored_resume, candidate in *.
  rewrite Hconn, Hrow.
  destruct (str_eqb contact_type (lit "hiring_manager"));
    [|destruct (str_eqb contact_type (lit "recruiter"))];
    cbn [bind rd_success negb rd_cold_email_manager
         rd_cold_email_recruiter];
    try rewrite (or_none_falsy _ Hcand);
    cbn [truthy];
    (eexists; split; [reflexivity|];
     cbn [cold_email fallback_used resume_context source_field
          rd_final_content rd_tailored_content];
     destruct (final_content row) as [[|c f]|];
     destruct (tailored_content row) as [[|c' t]|];
     repeat split; intros; try discriminate; reflexivity).
Qed.

(** The order of the chain: whatever the contact type, a record with a
    non-empty [final_content] never has [tailored_content] named as the
    source. *)
Lemma get_cold_email_final_first db application_id contact_type row d :
  generated_resumes db application_id = Row row ->
  get_cold_email db application_id contact_type = Return d ->
  truthy (final_content row) = true ->
  source_field d <> Some (lit "tailored_content")
  /\ (fallback_used d = true ->
      resume_context d = final_content row
      /\ source_field d = Some (lit "final_content")).
Proof.
  intros Hrow Hd Hfinal.
  assert (connect_error db = None) as Hconn.
  { unfold get_cold_email, get_tailored_resume in Hd.
    destruct (connect_error db); [discriminate | reflexivity]. }
  destruct (truthy (candidate contact_type row)) eqn:Hcand.
  - destruct (@get_cold_email_candidate db application_id contact_type
                row Hconn Hrow Hcand)
      as (d' & Hd' & _ & Hfb & Hsrc).
    rewrite Hd in Hd'. injection Hd' as <-. split.
    + rewrite Hsrc.
      destruct (str_eqb contact_type (lit "hiring_manager"));
        discriminate.
    + rewrite Hfb. discriminate.
  - destruct (@get_cold_email_fallback db application_id contact_type
                row Hconn Hrow Hcand)
      as (d' & Hd' & _ & _ & Hf & _).
    rewrite Hd in Hd'. injection Hd' as <-.
    destruct (Hf Hfinal) as [Hctx Hsrc]. split; [|now intros _].
    rewrite Hsrc. discriminate.
Qed.

(** C3, the code at the failing input.  The generated resume of
    application 539 has an empty cold email, an empty final and an empty
    tailored text: [get_cold_email] returns no resume context and names
    [tailored_content] as its source. *)
Theorem get_cold_email_names_empty_source :
  get_cold_email sample_db 539 (lit "team_member")
  = Return {| ce_success := true;
              cold_email := None;
              resume_context := None;
              fallback_used := true;
              source_field := Some (lit "tailored_content");
              note := None |}
  /\ get_cold_email sample_db 539 (lit "hiring_manager")
     = get_cold_email sample_db 539 (lit "team_member").
Proof. split; reflexivity. Qed.

End ResumeTools.

(* ================================================================== *)
(** ** The outreach context resolver *)
(* ================================================================== *)

Section Resolver.

(** Where the exceptions of the resume tools come from. *)
Lemma get_tailored_resume_raise db application_id e :
  get_tailored_resume db application_id = Raise e ->
  connect_error db = Some e.
Proof.
  unfold get_tailored_resume.
  destruct (connect_error db); [congruence|].
  destruct (generated_resumes db application_id); discriminate.
Qed.

Lemma get_active_resume_raise db e :
  get_active_resume db = Raise e -> connect_error db = Some e.
Proof.
  unfold get_active_resume.
  destruct (connect_error db); [congruence|].
  destruct (resumes db); discriminate.
Qed.

Lemma get_cold_email_raise db application_id contact_type e :
  get_cold_email db application_id contact_type = Raise e ->
  connect_error db = Some e.
Proof.
  unfold get_cold_email.
  destruct (get_tailored_resume db application_id) as [d|e'] eqn:Ht.
  - cbn [bind]. destruct (negb (rd_success d)); [discriminate|].
    destruct (if str_eqb contact_type (lit "hiring_manager")
              then _ else _) as [ce sf].
    destruct (truthy ce); discriminate.
  - cbn [bind]. intros H. injection H as <-.
    eapply get_tailored_resume_raise; eauto.
Qed.

Lemma or_empty_some (x : option str) : exists s, or_empty x = Some s.
Proof. destruct x as [[|c s]|]; eexists; reflexivity. Qed.

Lemma resume_text_for_raise db application_id e :
  resume_text_for db application_id = Raise e ->
  connect_error db = Some e.
Proof.
  assert ((resume_data <- get_active_resume db ;;
           Return (ar_full_text resume_data)) = Raise e ->
          connect_error db = Some e) as Hgeneric.
  { destruct (get_active_resume db) eqn:Ha; [discriminate|].
    cbn [bind]. intros H. injection H as <-.
    now apply get_active_resume_raise. }
  unfold resume_text_for.
  destruct application_id as [n|]; [destruct (negb (n =? 0))|]; auto.
  destruct (get_tailored_resume db n) eqn:Ht; [discriminate|].
  cbn [bind]. intros H. injection H as <-.
  eapply get_tailored_resume_raise; eauto.
Qed.

(** Only the generic resume can have no text at all. *)
Lemma resume_text_for_none db application_id :
  resume_text_for db application_id = Return None ->
  resumes db = Row None.
Proof.
  assert ((resume_data <- get_active_resume db ;;
           Return (ar_full_text resume_data)) = Return None ->
          resumes db = Row None) as Hgeneric.
  { unfold get_active_resume.
    destruct (connect_error db); [discriminate|].
    destruct (resumes db) as [[t|]| |msg]; cbn; intros H;
      try discriminate H; reflexivity. }
  unfold resume_text_for.
  destruct application_id as [n|]; [destruct (negb (n =? 0))|]; auto.
  destruct (get_tailored_resume db n) as [d|]; [|discriminate].
  cbn [bind].
  destruct (or_empty_some (or_else (rd_final_content d)
                                   (rd_tailored_content d))) as [t ->].
  discriminate.
Qed.

Lemma check_skill_match_raise db job_description skill_to_check
    application_id e :
  check_skill_match db job_description skill_to_check application_id
  = Raise e ->
  connect_error db = Some e
  \/ (e = AttributeError /\ resumes db = Row None).
Proof.
  unfold check_skill_match.
  destruct (resume_text_for db application_id) as [[t|]|e'] eqn:Ht;
    cbn [bind]; intros H; try discriminate H; injection H as <-.
  - right. split; [reflexivity|].
    eapply resume_text_for_none; eauto.
  - left. eapply resume_text_for_raise; eauto.
Qed.

(** With the database reachable the resume tools return. *)
Lemma get_cold_email_reachable db application_id contact_type :
  connect_error db = None ->
  exists d, get_cold_email db application_id contact_type = Return d.
Proof.
  intros Hconn.
  destruct (get_cold_email db application_id contact_type) as [d|e] eqn:H;
    [eauto|].
  apply get_cold_email_raise in H. congruence.
Qed.

Lemma check_skill_match_reachable db job_description skill_to_check
    application_id :
  connect_error db = None -> resumes db <> Row None ->
  exists m,
    check_skill_match db job_description skill_to_check application_id
    = Return m.
Proof.
  intros Hconn Htext.
  destruct (check_skill_match db job_description skill_to_check
              application_id) as [m|e] eqn:H; [eauto|].
  apply check_skill_match_raise in H.
  destruct H as [H | [_ H]]; congruence.
Qed.

(** A missing generated resume, or a failed query for it, gives the
    cold-email data of a fallback with nothing to fall back on. *)
Lemma get_cold_email_missing db application_id contact_type :
  connect_error db = None ->
  (forall row, generated_resumes db application_id <> Row row) ->
  exists d,
    get_cold_email db application_id contact_type = Return d
    /\ cold_email d = None
    /\ resume_context d = None
    /\ fallback_used d = true
    /\ source_field d = None.
Proof.
  intros Hconn Hmiss. unfold get_cold_email, get_tailored_resume.
  rewrite Hconn.
  destruct (generated_resumes db application_id) as [row| |msg];
    [now destruct (Hmiss row) | |];
    cbn; eexists; repeat split.
Qed.

Lemma int_of_str_raise (s : str) e :
  int_of_str s = Raise e -> e = ValueError.
Proof.
  unfold int_of_str.
  destruct (strip_chars _ s) as [|c t]; [congruence|].
  destruct (if Ascii.eqb c "-"%char then _ else _) as [negative digits].
  destruct (max_str_digits <? _); [congruence|].
  destruct (parse_digits 0 false digits); [discriminate | congruence].
Qed.

Lemma int_of_link_raise v e :
  int_of_link v = Raise e -> e = ValueError \/ e = TypeError.
Proof.
  destruct v as [|s|n]; cbn.
  - intros H. injection H as <-. now right.
  - intros H. apply int_of_str_raise in H. now left.
  - discriminate.
Qed.

Lemma except_raise {A} (body handler : outcome A) e :
  except_value_or_type body handler = Raise e ->
  handler = Raise e
  \/ (body = Raise e /\ e <> ValueError /\ e <> TypeError).
Proof.
  destruct body as [a|[]]; cbn; intros H; try discriminate H;
    try (left; exact H);
    right; (split; [exact H|]); injection H as <-; split; discriminate.
Qed.

Lemma cold_email_step_raise db contact_type link e :
  cold_email_step db contact_type link = Raise e ->
  connect_error db = Some e.
Proof.
  unfold cold_email_step.
  destruct (link_given link); [|discriminate].
  intros H. apply except_raise in H.
  destruct H as [H | (H & Hv & Ht)]; [discriminate|].
  destruct (int_of_link link) as [id|e'] eqn:Hid; cbn [bind] in H.
  - eapply get_cold_email_raise; eauto.
  - injection H as ->. apply int_of_link_raise in Hid. tauto.
Qed.

Lemma epic_step_raise db job_description link e :
  epic_step db job_description link = Raise e ->
  connect_error db = Some e
  \/ (e = AttributeError /\ resumes db = Row None).
Proof.
  assert (forall application_id,
             (m <- check_skill_match db job_description (lit "epic")
                     application_id ;;
              Return (Some m)) = Raise e ->
             connect_error db = Some e
             \/ (e = AttributeError /\ resumes db = Row None)) as Hcheck.
  { intros a.
    destruct (check_skill_match db job_description (lit "epic") a)
      eqn:Hm; [discriminate|].
    cbn [bind]. intros H. injection H as <-.
    eapply check_skill_match_raise; eauto. }
  unfold epic_step.
  destruct (nonempty job_description); [|discriminate].
  destruct (link_given link); [|apply Hcheck].
  intros H. apply except_raise in H.
  destruct H as [H | (H & Hv & Ht)]; [now apply Hcheck in H|].
  destruct (int_of_link link) as [id|e'] eqn:Hid; cbn [bind] in H.
  - now apply Hcheck in H.
  - injection H as ->. apply int_of_link_raise in Hid. tauto.
Qed.

(** A link that does not parse leaves the initial cold-email data, with
    a note; the database is not asked. *)
Lemma cold_email_step_unparsable db contact_type link :
  link_given link = true -> int_of_link link = Raise ValueError ->
  cold_email_step db contact_type link
  = Return (with_note no_cold_email_data
              (lit "Invalid resume_postgres_id: " ++ link_text link)).
Proof.
  intros Hgiven Hparse. unfold cold_email_step.
  now rewrite Hgiven, Hparse.
Qed.

Lemma cold_email_step_missing db contact_type link application_id :
  connect_error db = None ->
  link_given link = true -> int_of_link link = Return application_id ->
  (forall row, generated_resumes db application_id <> Row row) ->
  exists d,
    cold_email_step db contact_type link = Return d
    /\ cold_email d = None
    /\ resume_context d = None
    /\ fallback_used d = true
    /\ source_field d = None.
Proof.
  intros Hconn Hgiven Hparse Hmiss. unfold cold_email_step.
  rewrite Hgiven, Hparse. cbn [bind].
  destruct (@get_cold_email_missing db application_id contact_type
              Hconn Hmiss)
    as (d & -> & Hd).
  exists d. split; [reflexivity | exact Hd].
Qed.

(** The tool after a successful contact fetch: the two steps, then the
    assembled context. *)
Lemma get_outreach_context_found w contact_id cj :
  airtable w contact_id = Return cj -> cj_success cj = true ->
  get_outreach_context w contact_id
  = (cold_email_data <-
       cold_email_step (windmill w)
         (match cj_contact cj with
          | Some c => contact_type c
          | None => lit "team_member"
          end) (link_of cj) ;;
     epic_check <-
       epic_step (windmill w)
         (match cj_job cj with
          | Some j => job_description j
          | None => []
          end) (link_of cj) ;;
     Return (ContextSuccess
               {| ctx_contact := cj_contact cj;
                  ctx_job := cj_job cj;
                  ctx_cold_email := cold_email cold_email_data;
                  ctx_resume_context := resume_context cold_email_data;
                  ctx_fallback_used := fallback_used cold_email_data;
                  ctx_source_field := source_field cold_email_data;
                  ctx_has_epic_gap :=
                    match epic_check with
                    | Some m => has_gap m
                    | None => false
                    end;
                  ctx_epic_recommendation :=
                    match epic_check with
                    | Some m => recommendation m
                    | None => None
                    end |})).
Proof.
  intros Hcj Hok. unfold get_outreach_context.
  rewrite Hcj. cbn [bind]. rewrite Hok. reflexivity.
Qed.

(** C4 (amended).  The resolver returns a failure result exactly when
    the contact fetch of the adapter reports failure, and the failure
    carries the adapter's error message unchanged.  After a successful
    fetch, a resume link that does not parse as an integer and a missing
    generated resume are not fatal: once the database connection is
    open the resolver returns a success result, whose cold email, resume
    context and source field are null and whose fallback flag is set in
    those two cases.  The resolver catches neither an exception of the
    adapter call nor one of opening the database connection: these two
    leave it, and no other exception does.  What concerns the database
    is stated for a generic resume whose text is not NULL. *)
Theorem outreach_context_failures (w : world) (contact_id : str) :
  (forall e, airtable w contact_id = Raise e ->
             get_outreach_context w contact_id = Raise e)
  /\ (forall cj, airtable w contact_id = Return cj ->
       (cj_success cj = false ->
        get_outreach_context w contact_id
        = Return (ContextFailure
                    (match cj_error cj with
                     | Some e => e
                     | None => lit "Failed to fetch contact"
                     end)))
       /\ (cj_success cj = true ->
           forall error,
             get_outreach_context w contact_id
             <> Return (ContextFailure error))
       /\ (cj_success cj = true ->
           resumes (windmill w) <> Row None ->
           forall e,
             get_outreach_context w contact_id = Raise e ->
             connect_error (windmill w) = Some e)
       /\ (cj_success cj = true ->
           connect_error (windmill w) = None ->
           resumes (windmill w) <> Row None ->
           exists fields,
             get_outreach_context w contact_id
             = Return (ContextSuccess fields)
             /\ ctx_contact fields = cj_contact cj
             /\ ctx_job fields = cj_job cj
             /\ (link_given (link_of cj) = true ->
                 int_of_link (link_of cj) = Raise ValueError
                 \/ (exists application_id,
                        int_of_link (link_of cj) = Return application_id
                        /\ forall row,
                            generated_resumes (windmill w) application_id
                            <> Row row) ->
                 ctx_cold_email fields = None
                 /\ ctx_resume_context fields = None
                 /\ ctx_fallback_used fields = true
                 /\ ctx_source_field fields = None))).
Proof.
  split.
  { intros e He. unfold get_outreach_context. now rewrite He. }
  intros cj Hcj. split; [|split; [|split]].
  - intros Hfail. unfold get_outreach_context.
    rewrite Hcj. cbn [bind]. now rewrite Hfail.
  - intros Hok error. rewrite (get_outreach_context_found _ _ Hcj Hok).
    destruct (cold_email_step _ _ _); [|discriminate]. cbn [bind].
    destruct (epic_step _ _ _); discriminate.
  - intros Hok Htext e. rewrite (get_outreach_context_found _ _ Hcj Hok).
    destruct (cold_email_step _ _ _) as [d|e1] eqn:H1; cbn [bind].
    + destruct (epic_step _ _ _) as [m|e2] eqn:H2; [discriminate|].
      cbn [bind]. intros H. injection H as <-.
      apply epic_step_raise in H2.
      destruct H2 as [H2 | [_ H2]]; [exact H2 | contradiction].
    + intros H. injection H as <-.
      eapply cold_email_step_raise; eauto.
  - intros Hok Hconn Htext.
    rewrite (get_outreach_context_found _ _ Hcj Hok).
    destruct (cold_email_step _ _ _) as [d|e1] eqn:H1.
    2:{ apply cold_email_step_raise in H1. congruence. }
    destruct (epic_step _ _ _) as [m|e2] eqn:H2.
    2:{ apply epic_step_raise in H2.
        destruct H2 as [H2 | [_ H2]]; congruence. }
    cbn [bind]. eexists. split; [reflexivity|].
    cbn [ctx_contact ctx_job ctx_cold_email ctx_resume_context
         ctx_fallback_used ctx_source_field].
    split; [reflexivity|]. split; [reflexivity|].
    intros Hgiven [Hbad | (id & Hid & Hmiss)].
    + rewrite (cold_email_step_unparsable _ _ _ Hgiven Hbad) in H1.
      injection H1 as <-. repeat split.
    + destruct (@cold_email_step_missing (windmill w)
                  (match cj_contact cj with
                   | Some c => contact_type c
                   | None => lit "team_member"
                   end) (link_of cj) id
                  Hconn Hgiven Hid Hmiss) as (d' & Hd' & Hnull).
      rewrite Hd' in H1. injection H1 as <-. exact Hnull.
Qed.

Lemma outreach_context_failures_witness :
  get_outreach_context sample_world (lit "recZ9")
  = Return (ContextFailure (lit "Contact not found: NOT_FOUND"))
  /\ (exists fields,
         get_outreach_context sample_world (lit "recA2")
         = Return (ContextSuccess fields)
         /\ ctx_cold_email fields = None
         /\ ctx_resume_context fields = None
         /\ ctx_fallback_used fields = true
         /\ ctx_source_field fields = None)
  /\ connect_error (windmill world_without_database)
     = Some (OtherError (lit "connection refused")).
Proof.
  split; [|split].
  - exact (proj1 (proj2 (outreach_context_failures sample_world
                           (lit "recZ9")) _ eq_refl) eq_refl).
  - destruct (proj2 (proj2 (proj2
                (proj2 (outreach_context_failures sample_world
                          (lit "recA2")) _ eq_refl)))
              eq_refl eq_refl)
      as (fields & Hf & _ & _ & Hnull).
    { discriminate. }
    exists fields. split; [exact Hf|].
    apply Hnull; [reflexivity | left; reflexivity].
  - apply (proj1 (proj2 (proj2
             (proj2 (outreach_context_failures world_without_database
                       (lit "recA1")) _ eq_refl)))
             eq_refl).
    + discriminate.
    + reflexivity.
Defined.

(** C4 as stated fails on the two calls that the resolver does not
    guard.  When the database connection cannot be opened, the contact
    fetch succeeds, the link [538] parses, and the exception of
    [asyncpg.connect] leaves [get_cold_email] and the resolver.  When
    Airtable cannot be reached, the exception of the HTTP client leaves
    the adapter and the resolver. *)
Lemma outreach_context_exception_escapes :
  (exists cj,
      airtable world_without_database (lit "recA1") = Return cj
      /\ cj_success cj = true
      /\ int_of_link (link_of cj) = Return 538)
  /\ get_outreach_context world_without_database (lit "recA1")
     = Raise (OtherError (lit "connection refused"))
  /\ get_outreach_context world_without_airtable (lit "recA1")
     = Raise (OtherError (lit "ConnectTimeout")).
Proof.
  split; [eexists; repeat split|split]; reflexivity.
Qed.

(** The two end-to-end scenarios of the specification, and a link to an
    application without generated resume. *)
Lemma outreach_context_scenarios :
  (exists fields,
      get_outreach_context sample_world (lit "recA1")
      = Return (ContextSuccess fields)
      /\ ctx_cold_email fields
         = Some (lit "Dear manager, I build pipelines.")
      /\ ctx_fallback_used fields = false
      /\ ctx_source_field fields = Some (lit "cold_email_manager")
      /\ ctx_has_epic_gap fields = true)
  /\ (exists fields,
        get_outreach_context sample_world (lit "recA2")
        = Return (ContextSuccess fields)
        /\ ctx_cold_email fields = None
        /\ ctx_fallback_used fields = true)
  /\ (exists d,
        cold_email_step sample_db (lit "hiring_manager")
          (LinkText (lit "not-a-number")) = Return d
        /\ note d = Some (lit "Invalid resume_postgres_id: not-a-number"))
  /\ (exists fields,
        get_outreach_context sample_world (lit "recA3")
        = Return (ContextSuccess fields)
        /\ ctx_cold_email fields = None
        /\ ctx_resume_context fields = None
        /\ ctx_fallback_used fields = true
        /\ ctx_source_field fields = None
        /\ ctx_has_epic_gap fields = true).
Proof.
  split; [|split; [|split]]; eexists; repeat split.
Qed.

End Resolver.

(* ================================================================== *)
(** ** When the generators return *)
(* ================================================================== *)

Section Generators.

(** A first name exists for the empty contact name and for every name
    with a character that is not whitespace. *)
Lemma first_name_of_returns (contact_name : str) :
  contact_name = [] \/ ~ Forall blank contact_name ->
  exists first_name, first_name_of contact_name = Return first_name.
Proof.
  unfold first_name_of. intros [-> | Hname]; [now eexists|].
  destruct (nonempty contact_name); [|now eexists].
  destruct (split contact_name) as [|tok toks] eqn:Hs.
  - apply split_nil_inv in Hs. contradiction.
  - now exists tok.
Qed.

(** With a first name and a generation service that answers, the hunter
    generator returns a note. *)
Lemma generate_cold_connect_note_returns
    client contact_name contact_title contact_type company job_title
    job_description cold_email_template resume_context resume_highlights
    max_length :
  contact_name = [] \/ ~ Forall blank contact_name ->
  (forall p, exists content, client p = Return content) ->
  exists r,
    generate_cold_connect_note client contact_name contact_title
      contact_type company job_title job_description cold_email_template
      resume_context resume_highlights max_length = Return r.
Proof.
  intros Hname Hclient. unfold generate_cold_connect_note.
  destruct (first_name_of_returns Hname) as [fn ->]. cbn [bind].
  match goal with
  | |- context [client ?q] => destruct (Hclient q) as [content ->]
  end.
  cbn [bind]. now eexists.
Qed.

(** A failure of the generation service is the failure of the call: no
    retry, no default message. *)
Lemma generation_failure_is_fatal
    client contact_name contact_title contact_type company job_title
    job_description cold_email_template resume_context resume_highlights
    max_length first_name e :
  first_name_of contact_name = Return first_name ->
  (forall p, client p = Raise e) ->
  generate_cold_connect_note client contact_name contact_title
    contact_type company job_title job_description cold_email_template
    resume_context resume_highlights max_length = Raise e.
Proof.
  intros Hfn Hclient. unfold generate_cold_connect_note.
  rewrite Hfn. cbn [bind]. now rewrite Hclient.
Qed.

Lemma generation_failure_example :
  generate_cold_connect_note failing (lit "Sarah Johnson")
    (lit "Engineering Manager") (lit "hiring_manager") (lit "Acme")
    (lit "Data Analyst") [] None None [] 295
  = Raise (OtherError (lit "APIConnectionError")).
Proof. reflexivity. Qed.

End Generators.

(* ================================================================== *)
(** ** Further properties of the generators *)
(* ================================================================== *)

Section GeneratorsMore.

Ltac str_eqb_props :=
  repeat match goal with
         | H : str_eqb _ _ = true |- _ =>
             apply (proj1 (str_eqb_eq _ _)) in H
         | H : str_eqb _ _ = false |- _ =>
             apply (proj1 (str_eqb_neq _ _)) in H
         end.

Lemma slice_to_firstn (s : str) n : exists k, slice_to s n = firstn k s.
Proof. unfold slice_to. destruct (0 <=? n); eexists; reflexivity. Qed.

Lemma slice_to_twice (s : str) n n' :
  exists k, slice_to (slice_to s n) n' = firstn k s.
Proof.
  destruct (slice_to_firstn s n) as [k ->].
  destruct (slice_to_firstn (firstn k s) n') as [k' ->].
  exists (Nat.min k' k). apply firstn_firstn.
Qed.

(** X1.  Enforcing the limit never rewrites a message: what comes back
    is a prefix of the message, or a prefix followed by [...], and a
    message that fits, one of exactly [max_length] characters included,
    comes back as it is. *)
Theorem enforce_character_limit_keeps_text max_length (message : str) :
  (exists k,
      enforce_character_limit max_length message = firstn k message
      \/ enforce_character_limit max_length message
         = firstn k message ++ lit "...")
  /\ (len message <= max_length ->
      enforce_character_limit max_length message = message).
Proof.
  split; [|apply enforce_character_limit_short].
  unfold enforce_character_limit.
  destruct (max_length <? len message).
  - cbv zeta. destruct (past_sixty_percent _ _).
    + destruct (slice_to_twice message max_length
                  (Z.max (rfind "."%char (slice_to message max_length))
                         (rfind "?"%char (slice_to message max_length)) + 1))
        as [k ->].
      exists k. now left.
    + destruct (slice_to_twice message max_length (max_length - 3))
        as [k ->].
      exists k. now right.
  - exists (List.length message). left. symmetry. apply firstn_all.
Qed.

Lemma enforce_character_limit_keeps_text_witness :
  enforce_character_limit 10 (lit "0123456789") = lit "0123456789".
Proof.
  apply (proj2 (enforce_character_limit_keeps_text 10 (lit "0123456789"))).
  vm_compute. discriminate.
Defined.

(** X2.  From a limit of 3 on, enforcing the limit twice is enforcing it
    once: a message that went through the hunter generator is not cut
    again by the same limit. *)
Theorem enforce_character_limit_idempotent max_length (message : str) :
  3 <= max_length ->
  enforce_character_limit max_length
    (enforce_character_limit max_length message)
  = enforce_character_limit max_length message.
Proof.
  intros Hm. apply enforce_character_limit_short.
  now apply enforce_character_limit_fits.
Qed.

Lemma enforce_character_limit_idempotent_witness :
  enforce_character_limit 12
    (enforce_character_limit 12 (lit "Hello all. How are you today?"))
  = lit "Hello all.".
Proof.
  rewrite (@enforce_character_limit_idempotent 12
             (lit "Hello all. How are you today?")) by lia.
  reflexivity.
Defined.

(** What a returned direct message is made of. *)
Lemma generate_warm_dm_inv
    client contact_name company target_role connected_date contact_title
    contact_type cold_email_template resume_context resume_highlights r :
  generate_warm_dm client contact_name company target_role connected_date
    contact_title contact_type cold_email_template resume_context
    resume_highlights = Return r ->
  exists first_name p content,
    first_name_of contact_name = Return first_name
    /\ client p = Return content
    /\ dm_message r = clean_response content
    /\ dm_char_count r = len (dm_message r)
    /\ dm_pipeline r = lit "farmer".
Proof.
  unfold generate_warm_dm. intros H.
  destruct (first_name_of contact_name) as [fn|e] eqn:Hfn;
    [|discriminate].
  cbn [bind] in H.
  match type of H with
  | context [client ?q] => destruct (client q) as [content|e] eqn:Hc
  end; [|discriminate].
  cbn [bind] in H. injection H as <-.
  eexists fn, _, content. cbn. repeat split; eauto.
Qed.

(** X3.  Through the unified entry point a message is a connection note
    exactly on the hunter route and a direct message exactly on the
    farmer route.  The note is always held to 295 characters, since the
    entry point passes no limit of its own; the direct message is the
    cleaned answer of the generation service, whatever its length. *)
Theorem generate_message_by_route
    client contact_name company job_title contact_title contact_type
    connection_degree contact_source job_description cold_email_template
    resume_context resume_highlights connected_date g :
  generate_message client contact_name company job_title contact_title
    contact_type connection_degree contact_source job_description
    cold_email_template resume_context resume_highlights connected_date
  = Return g ->
  match g with
  | ColdConnectNote m =>
      ~ (connection_degree = lit "1st"
         \/ contact_source = lit "csv_import")
      /\ note_max_allowed m = 295
      /\ len (note_message m) <= 295
      /\ note_char_count m = len (note_message m)
  | WarmDm m =>
      (connection_degree = lit "1st" \/ contact_source = lit "csv_import")
      /\ dm_char_count m = len (dm_message m)
      /\ exists p content,
           client p = Return content
           /\ dm_message m = clean_response content
  end.
Proof.
  unfold generate_message, determine_pipeline. intros H.
  destruct (str_eqb connection_degree (lit "1st")) eqn:Ed;
    destruct (str_eqb contact_source (lit "csv_import")) eqn:Es;
    cbn [orb] in H;
    try (change (str_eqb (lit "farmer") (lit "farmer")) with true in H);
    try (change (str_eqb (lit "hunter") (lit "farmer")) with false in H);
    cbv iota in H; str_eqb_props.
  1-3: destruct (generate_warm_dm _ _ _ _ _ _ _ _ _ _) as [m|e] eqn:Hg;
    [|discriminate]; cbn [bind] in H; injection H as <-;
    apply generate_warm_dm_inv in Hg;
    destruct Hg as (fn & p & content & _ & Hc & Hmsg & Hcount & _);
    (split; [tauto|]); (split; [exact Hcount|]); exists p, content; auto.
  destruct (generate_cold_connect_note _ _ _ _ _ _ _ _ _ _ _) as [m|e]
    eqn:Hg; [|discriminate].
  cbn [bind] in H. injection H as <-.
  apply generate_cold_connect_note_inv in Hg.
  destruct Hg as (fn & p & content & _ & Hc & Hmsg & Hcount & Hmax).
  split; [tauto|]. split; [exact Hmax|]. split; [|exact Hcount].
  rewrite Hmsg.
  apply (@enforce_character_limit_fits default_max_length).
  unfold default_max_length. lia.
Qed.

Lemma generate_message_by_route_witness :
  exists m,
    generate_message
      (answering "  'Tom, your work on the data platform stands out. Could we connect?' ")
      (lit "Tom Reed") (lit "Acme") (lit "Data Analyst")
      (lit "Engineering Manager") (lit "hiring_manager") (lit "2nd")
      (lit "apollo") [] None None [] None
    = Return (ColdConnectNote m)
    /\ len (note_message m) <= 295.
Proof.
  eexists. split; [reflexivity|].
  exact (proj1 (proj2 (proj2
           (@generate_message_by_route
              (answering "  'Tom, your work on the data platform stands out. Could we connect?' ")
              (lit "Tom Reed") (lit "Acme") (lit "Data Analyst")
              (lit "Engineering Manager") (lit "hiring_manager") (lit "2nd")
              (lit "apollo") [] None None [] None _ eq_refl)))).
Defined.

(** X4.  The unified entry point handles neither failure of a call: on
    both routes a contact name made of whitespace only raises
    [IndexError], and with a usable name an exception of the generation
    service is the exception of the call. *)
Theorem generate_message_failures
    client contact_name company job_title contact_title contact_type
    connection_degree contact_source job_description cold_email_template
    resume_context resume_highlights connected_date :
  (contact_name <> [] -> Forall blank contact_name ->
   generate_message client contact_name company job_title contact_title
     contact_type connection_degree contact_source job_description
     cold_email_template resume_context resume_highlights connected_date
   = Raise IndexError)
  /\ (forall first_name e,
        first_name_of contact_name = Return first_name ->
        (forall p, client p = Raise e) ->
        generate_message client contact_name company job_title
          contact_title contact_type connection_degree contact_source
          job_description cold_email_template resume_context
          resume_highlights connected_date
        = Raise e).
Proof.
  split.
  - intros Hne Hbl. pose proof (first_name_of_blank Hne Hbl) as Hfn.
    unfold generate_message.
    destruct (str_eqb _ (lit "farmer"));
      [unfold generate_warm_dm | unfold generate_cold_connect_note];
      rewrite Hfn; reflexivity.
  - intros fn e Hfn Hclient. unfold generate_message.
    destruct (str_eqb _ (lit "farmer"));
      [unfold generate_warm_dm | unfold generate_cold_connect_note];
      rewrite Hfn; cbn [bind]; rewrite Hclient; reflexivity.
Qed.

Lemma generate_message_failures_witness :
  generate_message (answering "Hello.") (lit "   ") (lit "Acme")
    (lit "Data Analyst") [] (lit "team_member") (lit "1st") (lit "apollo")
    [] None None [] None
  = Raise IndexError
  /\ generate_message failing (lit "Tom Reed") (lit "Acme")
       (lit "Data Analyst") [] (lit "team_member") (lit "2nd")
       (lit "apollo") [] None None [] None
     = Raise (OtherError (lit "APIConnectionError")).
Proof.
  split.
  - apply (proj1 (generate_message_failures (answering "Hello.")
                    (lit "   ") (lit "Acme") (lit "Data Analyst") []
                    (lit "team_member") (lit "1st") (lit "apollo")
                    [] None None [] None)).
    + discriminate.
    + repeat constructor.
  - apply (proj2 (generate_message_failures failing
                    (lit "Tom Reed") (lit "Acme") (lit "Data Analyst") []
                    (lit "team_member") (lit "2nd") (lit "apollo")
                    [] None None [] None) (lit "Tom")).
    + reflexivity.
    + reflexivity.
Defined.

Lemma lstrip_suffix drop (s : str) : exists pre, s = pre ++ lstrip drop s.
Proof.
  induction s as [|c t [pre IH]]; [now exists []|].
  cbn [lstrip]. destruct (drop c).
  - exists (c :: pre). cbn [app]. now rewrite <- IH.
  - now exists [].
Qed.

Lemma lstrip_head drop (s : str) c t :
  lstrip drop s = c :: t -> drop c = false.
Proof.
  induction s as [|x s IH]; [discriminate|].
  cbn [lstrip]. destruct (drop x) eqn:E; [exact IH|].
  intros H. injection H as <- _. exact E.
Qed.

Lemma rstrip_prefix drop (s : str) : exists rest, s = rstrip drop s ++ rest.
Proof.
  unfold rstrip. destruct (lstrip_suffix drop (rev s)) as [pre H].
  exists (rev pre). rewrite <- rev_app_distr, <- H. symmetry.
  apply rev_involutive.
Qed.

Lemma rstrip_last drop (s : str) t c :
  rstrip drop s = t ++ [c] -> drop c = false.
Proof.
  unfold rstrip. intros H. apply (f_equal (@rev ascii)) in H.
  rewrite rev_involutive, rev_app_distr in H. cbn in H.
  eapply lstrip_head; eauto.
Qed.

(** X5.  The cleaned answer of the generation service neither begins nor
    ends with a quote character, single or double; so neither does a
    direct message of the farmer pipeline, which is the cleaned answer. *)
Theorem clean_response_unquoted (content : str) :
  (forall c rest, clean_response content = c :: rest -> is_quote c = false)
  /\ (forall rest c,
        clean_response content = rest ++ [c] -> is_quote c = false).
Proof.
  unfold clean_response, strip_chars. split.
  - intros c rest H.
    destruct (rstrip_prefix is_quote (lstrip is_quote (strip content)))
      as [more Hmore].
    rewrite H in Hmore. cbn [app] in Hmore.
    eapply lstrip_head; eauto.
  - intros rest c H. eapply rstrip_last; eauto.
Qed.

Lemma clean_response_unquoted_witness :
  clean_response
    (lit "  'Tom, your work on the data platform stands out.' ")
  = lit "Tom, your work on the data platform stands out."
  /\ is_quote "T"%char = false.
Proof.
  split; [reflexivity|].
  exact (proj1 (clean_response_unquoted
                  (lit "  'Tom, your work on the data platform stands out.' "))
               "T"%char _ eq_refl).
Defined.

(** The strip of the quotes comes last: whitespace inside the quotes
    stays. *)
Lemma clean_response_keeps_inner_blanks :
  clean_response (lit "' hi '") = lit " hi ".
Proof. reflexivity. Qed.

End GeneratorsMore.

(* ================================================================== *)
(** ** Further properties of the resume tools *)
(* ================================================================== *)

Section ResumeToolsMore.

Lemma or_empty_twice (x : option str) : or_empty (or_empty x) = or_empty x.
Proof. destruct x as [[|c s]|]; reflexivity. Qed.

(** X6.  When the role-specific cold email is not empty, [get_cold_email]
    returns it with [fallback_used] false and the name of its column, and
    the resume context beside it is [final_content], or the empty string
    when that is empty: [tailored_content] is not looked at on this
    path. *)
Theorem get_cold_email_role_email db application_id contact_type row :
  connect_error db = None ->
  generated_resumes db application_id = Row row ->
  truthy (candidate contact_type row) = true ->
  get_cold_email db application_id contact_type
  = Return {| ce_success := true;
              cold_email := candidate contact_type row;
              resume_context := or_empty (final_content row);
              fallback_used := false;
              source_field :=
                Some (if str_eqb contact_type (lit "hiring_manager")
                      then lit "cold_email_manager"
                      else lit "cold_email_recruiter");
              note := None |}.
Proof.
  intros Hconn Hrow Hcand.
  unfold get_cold_email, get_tailored_resume, candidate in *.
  rewrite Hconn, Hrow.
  destruct (str_eqb contact_type (lit "hiring_manager"));
    [|destruct (str_eqb contact_type (lit "recruiter"));
      [|discriminate]];
    cbn [bind rd_success negb rd_cold_email_manager
         rd_cold_email_recruiter rd_final_content];
    rewrite (or_none_truthy _ Hcand), Hcand, or_empty_twice;
    reflexivity.
Qed.

Lemma get_cold_email_role_email_witness :
  get_cold_email sample_db 538 (lit "recruiter")
  = Return {| ce_success := true;
              cold_email := Some (lit "Dear recruiter, I build pipelines.");
              resume_context :=
                Some (lit "Final resume: SQL, Python, FHIR.");
              fallback_used := false;
              source_field := Some (lit "cold_email_recruiter");
              note := None |}.
Proof.
  exact (@get_cold_email_role_email sample_db 538 (lit "recruiter") row_538
           eq_refl eq_refl eq_refl).
Defined.

(** X7.  The contact type is compared with the two role names exactly:
    every other value, the empty string and a differently cased role
    name included, is served like [team_member], with no cold email and
    the fallback flag set. *)
Theorem get_cold_email_other_contact_types db application_id contact_type :
  contact_type <> lit "hiring_manager" ->
  contact_type <> lit "recruiter" ->
  get_cold_email db application_id contact_type
  = get_cold_email db application_id (lit "team_member")
  /\ forall d,
       get_cold_email db application_id contact_type = Return d ->
       cold_email d = None /\ fallback_used d = true.
Proof.
  intros Hm Hr. apply str_eqb_neq in Hm. apply str_eqb_neq in Hr.
  unfold get_cold_email.
  destruct (get_tailored_resume db application_id) as [rd|e];
    cbn [bind]; [|split; [reflexivity | discriminate]].
  rewrite Hm, Hr.
  change (str_eqb (lit "team_member") (lit "hiring_manager")) with false.
  change (str_eqb (lit "team_member") (lit "recruiter")) with false.
  split; [reflexivity|].
  destruct (negb (rd_success rd)); cbn [truthy];
    intros d H; injection H as <-; split; reflexivity.
Qed.

Lemma get_cold_email_other_contact_types_witness :
  get_cold_email sample_db 538 (lit "Recruiter")
  = get_cold_email sample_db 538 (lit "team_member").
Proof.
  apply (@get_cold_email_other_contact_types sample_db 538
           (lit "Recruiter")); discriminate.
Defined.

(** X8.  [get_cold_email] never reports a failure.  An exception of
    opening the connection leaves it as it is; once connected, a missing
    generated resume and a failed query both come back as a success with
    every text field null, the fallback flag set and the reason in
    [note]. *)
Theorem get_cold_email_degrades db application_id contact_type :
  (forall e, connect_error db = Some e ->
             get_cold_email db application_id contact_type = Raise e)
  /\ (connect_error db = None ->
      (exists d,
          get_cold_email db application_id contact_type = Return d
          /\ ce_success d = true)
      /\ (generated_resumes db application_id = NoRow ->
          get_cold_email db application_id contact_type
          = Return {| ce_success := true;
                      cold_email := None;
                      resume_context := None;
                      fallback_used := true;
                      source_field := None;
                      note :=
                        Some (lit "No generated resume found for application_id "
                              ++ str_of_int application_id) |})
      /\ (forall message,
            generated_resumes db application_id = QueryError message ->
            get_cold_email db application_id contact_type
            = Return {| ce_success := true;
                        cold_email := None;
                        resume_context := None;
                        fallback_used := true;
                        source_field := None;
                        note := Some (lit "Database error: " ++ message) |})).
Proof.
  unfold get_cold_email, get_tailored_resume. split.
  - intros e ->. reflexivity.
  - intros ->. split; [|split].
    + destruct (generated_resumes db application_id) as [row| |msg];
        cbn [bind resume_failure rd_success negb];
        try (eexists; split; reflexivity).
      destruct (if str_eqb contact_type (lit "hiring_manager")
                then _ else _) as [ce sf].
      destruct (truthy ce); eexists; split; reflexivity.
    + intros ->. reflexivity.
    + intros message ->. reflexivity.
Qed.

Lemma get_cold_email_degrades_witness :
  get_cold_email unreachable_db 538 (lit "recruiter")
  = Raise (OtherError (lit "connection refused"))
  /\ get_cold_email sample_db 777 (lit "recruiter")
     = Return {| ce_success := true;
                 cold_email := None;
                 resume_context := None;
                 fallback_used := true;
                 source_field := None;
                 note :=
                   Some (lit "No generated resume found for application_id 777") |}.
Proof.
  split.
  - exact (proj1 (get_cold_email_degrades unreachable_db 538
                    (lit "recruiter")) _ eq_refl).
  - exact (proj1 (proj2 (proj2 (get_cold_email_degrades sample_db 777
                                  (lit "recruiter")) eq_refl)) eq_refl).
Defined.

(** Whatever the contact type, a result with the fallback flag set
    carries the text the skill check reads for the same application. *)
Lemma fallback_context_is_skill_text db application_id contact_type d :
  application_id <> 0 ->
  get_cold_email db application_id contact_type = Return d ->
  fallback_used d = true ->
  resume_text_for db (Some application_id)
  = Return (Some (unwrap (resume_context d))).
Proof.
  intros Hid Hd Hfb. apply Z.eqb_neq in Hid.
  unfold resume_text_for, get_cold_email, get_tailored_resume in *.
  rewrite Hid. cbn [negb].
  destruct (connect_error db); [discriminate|].
  destruct (generated_resumes db application_id) as [row| |msg];
    cbn [bind resume_failure rd_success negb rd_final_content
         rd_tailored_content] in *.
  - destruct (if str_eqb contact_type (lit "hiring_manager")
              then _ else _) as [ce sf].
    destruct (truthy ce); injection Hd as <-; [discriminate Hfb|].
    cbn [resume_context].
    destruct (final_content row) as [[|c f]|];
      destruct (tailored_content row) as [[|c' t]|]; reflexivity.
  - injection Hd as <-. reflexivity.
  - injection Hd as <-. reflexivity.
Qed.

Lemma team_member_falls_back db application_id d :
  get_cold_email db application_id (lit "team_member") = Return d ->
  fallback_used d = true.
Proof.
  unfold get_cold_email.
  destruct (get_tailored_resume db application_id) as [rd|e];
    [|discriminate].
  cbn [bind].
  change (str_eqb (lit "team_member") (lit "hiring_manager")) with false.
  change (str_eqb (lit "team_member") (lit "recruiter")) with false.
  destruct (negb (rd_success rd)); cbn [truthy];
    intros H; injection H as <-; reflexivity.
Qed.

(** X9.  The skill check of an application and the fallback of
    [get_cold_email] read the same text: for an application id other
    than 0, [check_skill_match] searches the resume context that the
    fallback returns for that application, the empty string when it
    returns none. *)
Theorem check_skill_match_reads_fallback_context
    db job_description skill_to_check application_id d :
  application_id <> 0 ->
  get_cold_email db application_id (lit "team_member") = Return d ->
  check_skill_match db job_description skill_to_check (Some application_id)
  = Return (match_skill job_description skill_to_check
              (unwrap (resume_context d))).
Proof.
  intros Hid Hd. unfold check_skill_match.
  pose proof (@team_member_falls_back db application_id d Hd) as Hfb.
  rewrite (@fallback_context_is_skill_text db application_id
             (lit "team_member") d Hid Hd Hfb).
  reflexivity.
Qed.

Lemma check_skill_match_reads_fallback_context_witness :
  exists d,
    get_cold_email sample_db 538 (lit "team_member") = Return d
    /\ resume_context d = Some (lit "Final resume: SQL, Python, FHIR.")
    /\ check_skill_match sample_db (lit "Epic and FHIR required")
         (lit "fhir") (Some 538)
       = Return (match_skill (lit "Epic and FHIR required") (lit "fhir")
                   (lit "Final resume: SQL, Python, FHIR.")).
Proof.
  eexists. split; [reflexivity|]. split; [reflexivity|].
  refine (@check_skill_match_reads_fallback_context sample_db
            (lit "Epic and FHIR required") (lit "fhir") 538 _ _ eq_refl).
  discriminate.
Defined.

(** X10.  For an application without generated resume (no row, or a
    query that failed) the skill check searches the empty text: every
    non-empty skill the job description asks for is reported as a gap. *)
Theorem check_skill_match_without_resume
    db job_description skill_to_check application_id :
  application_id <> 0 ->
  connect_error db = None ->
  (forall row, generated_resumes db application_id <> Row row) ->
  skill_to_check <> [] ->
  exists m,
    check_skill_match db job_description skill_to_check
      (Some application_id) = Return m
    /\ skill_found m = false
    /\ has_gap m = requirement_found m
    /\ (requirement_found m = true
        <-> occurs_ignoring_case skill_to_check job_description).
Proof.
  intros Hid Hconn Hmiss Hskill. apply Z.eqb_neq in Hid.
  unfold check_skill_match, resume_text_for, get_tailored_resume.
  rewrite Hid, Hconn. cbn [negb].
  assert (contains (lower skill_to_check) (lower []) = false) as Hempty.
  { destruct skill_to_check; [contradiction | reflexivity]. }
  destruct (generated_resumes db application_id) as [row| |msg];
    [now destruct (Hmiss row) | |];
    cbn [bind resume_failure rd_final_content rd_tailored_content];
    (eexists; split; [reflexivity|]);
    cbn [skill_found has_gap requirement_found match_skill];
    rewrite Hempty; cbn [negb]; rewrite andb_true_r;
    (split; [reflexivity|]); (split; [reflexivity|]);
    apply contains_lower_iff.
Qed.

Lemma check_skill_match_without_resume_witness :
  exists m,
    check_skill_match sample_db (lit "Epic EHR experience required.")
      (lit "epic") (Some 777) = Return m
    /\ has_gap m = requirement_found m.
Proof.
  destruct (@check_skill_match_without_resume sample_db
              (lit "Epic EHR experience required.") (lit "epic") 777)
    as (m & Hm & _ & Hgap & _); try discriminate; try reflexivity.
  exists m. split; [exact Hm | exact Hgap].
Defined.

End ResumeToolsMore.

(* ================================================================== *)
(** ** Further properties of the outreach context resolver *)
(* ================================================================== *)

Section ResolverMore.

(** X11.  A contact whose job carries no resume link and no description
    (a contact without linked job among them) is resolved without the
    database: the context is a success with every cold-email field null,
    the fallback flag set and no Epic gap, also when the database
    connection cannot be opened. *)
Theorem outreach_context_without_link w contact_id cj :
  airtable w contact_id = Return cj ->
  cj_success cj = true ->
  link_given (link_of cj) = false ->
  match cj_job cj with
  | Some j => job_description j
  | None => []
  end = [] ->
  get_outreach_context w contact_id
  = Return (ContextSuccess
              {| ctx_contact := cj_contact cj;
                 ctx_job := cj_job cj;
                 ctx_cold_email := None;
                 ctx_resume_context := None;
                 ctx_fallback_used := true;
                 ctx_source_field := None;
                 ctx_has_epic_gap := false;
                 ctx_epic_recommendation := None |}).
Proof.
  intros Hcj Hok Hlink Hjd.
  rewrite (get_outreach_context_found _ _ Hcj Hok).
  unfold cold_email_step, epic_step. rewrite Hlink, Hjd. reflexivity.
Qed.

Lemma outreach_context_without_link_witness :
  get_outreach_context
    {| airtable :=
         fun _ => Return {| cj_success := true;
                            cj_error := None;
                            cj_contact := Some sample_contact;
                            cj_job := None |};
       windmill := unreachable_db |}
    (lit "recA1")
  = Return (ContextSuccess
              {| ctx_contact := Some sample_contact;
                 ctx_job := None;
                 ctx_cold_email := None;
                 ctx_resume_context := None;
                 ctx_fallback_used := true;
                 ctx_source_field := None;
                 ctx_has_epic_gap := false;
                 ctx_epic_recommendation := None |}).
Proof.
  exact (@outreach_context_without_link
           {| airtable :=
                fun _ => Return {| cj_success := true;
                                   cj_error := None;
                                   cj_contact := Some sample_contact;
                                   cj_job := None |};
              windmill := unreachable_db |}
           (lit "recA1") _ eq_refl eq_refl eq_refl eq_refl).
Defined.

Lemma unwrap_truthy (x : option str) :
  (if truthy x then unwrap x else []) = unwrap x.
Proof. destruct x as [[|c s]|]; reflexivity. Qed.

(** X12.  From the resolver to the hunter generator the Epic gap does not
    change on the fallback path: when the job's resume link parses to an
    application id other than 0 and the context has the fallback flag
    set, a connection note generated from the job description and the
    resume context of that context, with no resume highlights, reports
    the [has_epic_gap] of the context. *)
Theorem context_gap_is_note_gap
    w contact_id cj j application_id fields
    client contact_name contact_title contact_type company job_title
    cold_email_template max_length note :
  airtable w contact_id = Return cj ->
  cj_job cj = Some j ->
  link_given (resume_postgres_id j) = true ->
  int_of_link (resume_postgres_id j) = Return application_id ->
  application_id <> 0 ->
  get_outreach_context w contact_id = Return (ContextSuccess fields) ->
  ctx_fallback_used fields = true ->
  generate_cold_connect_note client contact_name contact_title
    contact_type company job_title (job_description j)
    cold_email_template (ctx_resume_context fields) [] max_length
  = Return note ->
  note_has_epic_gap note = ctx_has_epic_gap fields.
Proof.
  intros Hcj Hjob Hgiven Hparse Hid Hctx Hfb Hnote.
  apply generate_cold_connect_note_gap in Hnote. rewrite Hnote.
  rewrite unwrap_truthy. clear Hnote.
  assert (cj_success cj = true) as Hok.
  { destruct (cj_success cj) eqn:E; [reflexivity|].
    unfold get_outreach_context in Hctx. rewrite Hcj in Hctx.
    cbn [bind] in Hctx. rewrite E in Hctx. discriminate. }
  rewrite (get_outreach_context_found _ _ Hcj Hok) in Hctx.
  unfold link_of in Hctx. rewrite Hjob in Hctx.
  destruct (cold_email_step _ _ _) as [d|e] eqn:Hstep;
    [|discriminate].
  cbn [bind] in Hctx.
  destruct (epic_step _ _ _) as [m|e] eqn:Hepic; [|discriminate].
  cbn [bind] in Hctx. injection Hctx as <-.
  cbn [ctx_fallback_used ctx_resume_context ctx_has_epic_gap] in *.
  unfold epic_step in Hepic.
  destruct (nonempty (job_description j)) eqn:Hjd.
  2:{ injection Hepic as <-.
      destruct (job_description j); [reflexivity | discriminate Hjd]. }
  rewrite Hgiven, Hparse in Hepic. cbn [bind] in Hepic.
  unfold cold_email_step in Hstep.
  rewrite Hgiven, Hparse in Hstep. cbn [bind] in Hstep.
  destruct (get_cold_email (windmill w) application_id _) as [d'|e]
    eqn:Hce.
  - cbn [except_value_or_type] in Hstep. injection Hstep as ->.
    pose proof (@fallback_context_is_skill_text (windmill w)
                  application_id _ d Hid Hce Hfb) as Htext.
    unfold check_skill_match in Hepic. rewrite Htext in Hepic.
    cbn [bind except_value_or_type] in Hepic. injection Hepic as <-.
    reflexivity.
  - (* the connection cannot be opened: the Epic step cannot return *)
    apply get_cold_email_raise in Hce.
    exfalso.
    assert (forall a,
               check_skill_match (windmill w) (job_description j)
                 (lit "epic") a = Raise e) as Hraise.
    { intros a. unfold check_skill_match, resume_text_for,
        get_tailored_resume, get_active_resume.
      rewrite Hce.
      destruct a as [n|]; [destruct (negb (n =? 0))|]; reflexivity. }
    rewrite !Hraise in Hepic. cbn [bind] in Hepic.
    destruct e; discriminate.
Qed.

Lemma context_gap_is_note_gap_witness :
  exists fields note,
    get_outreach_context sample_world (lit "recA3")
    = Return (ContextSuccess fields)
    /\ generate_cold_connect_note
         (answering "Hi Sarah, your team's Epic work caught my eye.")
         (lit "Sarah Johnson") (lit "Engineering Manager")
         (lit "hiring_manager") (lit "Epic Systems")
         (lit "Senior Data Analyst")
         (job_description (sample_job (LinkNumber 777))) None
         (ctx_resume_context fields) [] default_max_length
       = Return note
    /\ note_has_epic_gap note = ctx_has_epic_gap fields.
Proof.
  eexists. eexists.
  split; [vm_compute; reflexivity|].
  split; [vm_compute; reflexivity|].
  eapply (@context_gap_is_note_gap sample_world (lit "recA3") _
            (sample_job (LinkNumber 777)) 777 _
            (answering "Hi Sarah, your team's Epic work caught my eye.")
            (lit "Sarah Johnson") (lit "Engineering Manager")
            (lit "hiring_manager") (lit "Epic Systems")
            (lit "Senior Data Analyst") None default_max_length).
  - reflexivity.
  - reflexivity.
  - reflexivity.
  - reflexivity.
  - discriminate.
  - vm_compute; reflexivity.
  - reflexivity.
  - vm_compute; reflexivity.
Defined.

End ResolverMore.

(* ================================================================== *)
(** ** The older resume tools *)
(* ================================================================== *)

Section OlderResumeTools.
Import ResumeStore MoreSamples.

(** X13.  An explicit version tag is final: the job role is not looked
    at, and when no resume has that version the tool reports that no
    resume was found.  The job-role branch is more forgiving: when no
    resume has the version matched to the role, it answers as the call
    without arguments does, with the latest resume of any version. *)
Theorem get_active_resume_version_is_final t job_role version_tag :
  (truthy version_tag = true ->
   (forall other_role,
       ResumeStore.get_active_resume t other_role version_tag
       = ResumeStore.get_active_resume t job_role version_tag)
   /\ (connect_error (base t) = None ->
       resumes_of_version t (unwrap version_tag) = NoRow ->
       ResumeStore.get_active_resume t job_role version_tag
       = Return (resume_not_found (lit "No resume found in database"))))
  /\ (truthy job_role = true ->
      resumes_of_version t (version_match (unwrap job_role)) = NoRow ->
      ResumeStore.get_active_resume t job_role None
      = Resume.get_active_resume (base t))
  /\ ResumeStore.get_active_resume t None None
     = Resume.get_active_resume (base t).
Proof.
  unfold ResumeStore.get_active_resume, Resume.get_active_resume.
  split; [|split].
  - intros Htag. rewrite Htag. split; [reflexivity|].
    intros -> ->. reflexivity.
  - intros Hrole Hnone. cbn [truthy]. rewrite Hrole, Hnone.
    destruct (connect_error (base t)); [reflexivity|].
    destruct (resumes (base t)); reflexivity.
  - cbn [truthy].
    destruct (connect_error (base t)); [reflexivity|].
    destruct (resumes (base t)); reflexivity.
Qed.

Lemma get_active_resume_version_is_final_witness :
  ResumeStore.get_active_resume sample_tables
    (Some (lit "Epic Analyst")) (Some (lit "fintech"))
  = Return (resume_not_found (lit "No resume found in database"))
  /\ ResumeStore.get_active_resume sample_tables
       (Some (lit "Payments Engineer")) None
     = Resume.get_active_resume sample_db.
Proof.
  split.
  - exact (proj2 (proj1 (get_active_resume_version_is_final sample_tables
                           (Some (lit "Epic Analyst"))
                           (Some (lit "fintech"))) eq_refl)
                 eq_refl eq_refl).
  - exact (proj1 (proj2 (get_active_resume_version_is_final sample_tables
                           (Some (lit "Payments Engineer")) None))
                 eq_refl eq_refl).
Defined.

(** X14.  A summary stored for the job is returned as it is, whatever
    its length.  The fallback summary, cut from the latest resume, is
    the whole text up to 500 characters and its first 500 characters
    followed by [...] beyond: up to 503 characters, with the whole text
    beside it as [full_resume]. *)
Theorem get_resume_summary_lengths describe t job_id r :
  ResumeStore.get_resume_summary describe t job_id = Return r ->
  rs_success r = true ->
  match rs_note r with
  | None =>
      exists summary generated_resume_text,
        job_applications t job_id
        = Row (Some summary, generated_resume_text)
        /\ summary <> []
        /\ rs_summary r = summary
  | Some _ =>
      exists text,
        resumes (base t) = Row (Some text)
        /\ rs_full_resume r = Some text
        /\ (len text <= 500 -> rs_summary r = text)
        /\ (500 < len text ->
            rs_summary r = firstn 500 text ++ lit "...")
        /\ len (rs_summary r) <= 503
  end.
Proof.
  unfold ResumeStore.get_resume_summary, Resume.get_active_resume.
  destruct (connect_error (base t)); [discriminate|].
  assert (forall text,
             resumes (base t) = Row (Some text) ->
             let summary :=
               if 500 <? len text then slice_to text 500 ++ lit "..."
               else text in
             exists text',
               resumes (base t) = Row (Some text')
               /\ Some text = Some text'
               /\ (len text' <= 500 -> summary = text')
               /\ (500 < len text' ->
                   summary = firstn 500 text' ++ lit "...")
               /\ len summary <= 503) as Hcut.
  { intros text Hrow summary. exists text. subst summary.
    split; [exact Hrow|]. split; [reflexivity|].
    destruct (500 <? len text) eqn:E.
    - apply Z.ltb_lt in E. split; [lia|]. split; [reflexivity|].
      rewrite len_app, len_slice_to by lia. unfold len; simpl; lia.
    - apply Z.ltb_ge in E. split; [reflexivity|]. split; lia. }
  destruct (job_applications t job_id) as [[summary full]| |msg] eqn:Hjob.
  - destruct (truthy summary) eqn:Hsum.
    + intros H _. injection H as <-. cbn.
      destruct summary as [[|c s]|]; try discriminate Hsum.
      exists (c :: s), full. repeat split; auto. discriminate.
    + intros H Hs.
      unfold resume_found, resume_not_found in *.
      destruct (resumes (base t)) as [[text|]| |msg] eqn:Hrow;
        cbn in H; injection H as <-; try discriminate Hs.
      cbn. destruct (Hcut text eq_refl) as (text' & H1 & H2 & H3).
      injection H2 as <-. exists text. split; [reflexivity|].
      split; [reflexivity|]. exact H3.
  - intros H Hs.
    unfold resume_found, resume_not_found in *.
    destruct (resumes (base t)) as [[text|]| |msg] eqn:Hrow;
      cbn in H; injection H as <-; try discriminate Hs.
    cbn. destruct (Hcut text eq_refl) as (text' & H1 & H2 & H3).
    injection H2 as <-. exists text. split; [reflexivity|].
    split; [reflexivity|]. exact H3.
  - intros H Hs. injection H as <-. discriminate Hs.
Qed.

Lemma get_resume_summary_lengths_witness :
  exists text,
    resumes (base sample_tables) = Row (Some text)
    /\ Some (lit "Generic resume: healthcare analytics.") = Some text
    /\ (len text <= 500 ->
        lit "Generic resume: healthcare analytics." = text)
    /\ (500 < len text ->
        lit "Generic resume: healthcare analytics."
        = firstn 500 text ++ lit "...")
    /\ len (lit "Generic resume: healthcare analytics.") <= 503.
Proof.
  exact (@get_resume_summary_lengths describe sample_tables
           (lit "recJ9")
           {| rs_success := true;
              rs_summary := lit "Generic resume: healthcare analytics.";
              rs_full_resume :=
                Some (lit "Generic resume: healthcare analytics.");
              rs_note :=
                Some (lit "Using fallback (no job-specific summary found)");
              rs_error := None |}
           eq_refl eq_refl).
Defined.

(** X15.  Once the connection is open [get_resume_summary] does not
    raise, and every failure comes back as a dict with [success] false,
    an empty summary and an error.  A failed query for the job is
    reported as a database error with its message.  With no summary for
    the job, a missing latest resume and a failed query for it are both
    reported as [No resume summary found].  A latest resume whose text
    is NULL shows the difference with [check_skill_match]: the summary
    tool reports the [len] of [None] as a database error, the skill
    check raises [AttributeError]. *)
Theorem get_resume_summary_contains_failures describe t job_id :
  connect_error (base t) = None ->
  (exists r,
      ResumeStore.get_resume_summary describe t job_id = Return r
      /\ (rs_success r = false ->
          rs_summary r = [] /\ rs_full_resume r = None
          /\ rs_note r = None /\ exists error, rs_error r = Some error))
  /\ (forall message,
         job_applications t job_id = QueryError message ->
         ResumeStore.get_resume_summary describe t job_id
         = Return (summary_failure (lit "Database error: " ++ message)))
  /\ (job_applications t job_id = NoRow
      \/ (exists summary generated_resume_text,
             job_applications t job_id
             = Row (summary, generated_resume_text)
             /\ truthy summary = false) ->
      (resumes (base t) = NoRow ->
       ResumeStore.get_resume_summary describe t job_id
       = Return (summary_failure (lit "No resume summary found")))
      /\ (forall message,
             resumes (base t) = QueryError message ->
             ResumeStore.get_resume_summary describe t job_id
             = Return (summary_failure (lit "No resume summary found")))
      /\ (resumes (base t) = Row None ->
          ResumeStore.get_resume_summary describe t job_id
          = Return (summary_failure
                      (lit "Database error: object of type 'NoneType' has no len()"))
          /\ forall job_description skill,
              check_skill_match (base t) job_description skill None
              = Raise AttributeError)).
Proof.
  intros Hconnect.
  assert (forall error,
             rs_success (summary_failure error) = false ->
             rs_summary (summary_failure error) = []
             /\ rs_full_resume (summary_failure error) = None
             /\ rs_note (summary_failure error) = None
             /\ exists error',
                  rs_error (summary_failure error) = Some error') as Hfail.
  { intros error _. repeat split. now exists error. }
  split; [|split].
  - unfold ResumeStore.get_resume_summary, Resume.get_active_resume.
    rewrite Hconnect.
    destruct (job_applications t job_id) as [[summary full]| |msg].
    + destruct (truthy summary);
        [eexists; split; [reflexivity | discriminate]|].
      destruct (resumes (base t)) as [[text|]| |msg];
        eexists; (split; [reflexivity|]);
        first [apply Hfail | discriminate].
    + destruct (resumes (base t)) as [[text|]| |msg];
        eexists; (split; [reflexivity|]);
        first [apply Hfail | discriminate].
    + eexists; split; [reflexivity | apply Hfail].
  - intros message Hjob.
    unfold ResumeStore.get_resume_summary. now rewrite Hconnect, Hjob.
  - intros Hjob.
    assert (ResumeStore.get_resume_summary describe t job_id
            = match Resume.get_active_resume (base t) with
              | Raise e =>
                  Return (summary_failure
                            (lit "Database error: " ++ describe e))
              | Return fallback =>
                  if ar_success fallback then
                    match ar_full_text fallback with
                    | None =>
                        Return (summary_failure
                                  (lit "Database error: " ++ no_len))
                    | Some text =>
                        Return
                          {| rs_success := true;
                             rs_summary :=
                               if 500 <? len text
                               then slice_to text 500 ++ lit "..."
                               else text;
                             rs_full_resume := Some text;
                             rs_note :=
                               Some (lit "Using fallback (no job-specific summary found)");
                             rs_error := None |}
                    end
                  else
                    Return (summary_failure (lit "No resume summary found"))
              end) as ->.
    { unfold ResumeStore.get_resume_summary. rewrite Hconnect.
      destruct Hjob as [-> | (summary & full & -> & ->)]; reflexivity. }
    unfold Resume.get_active_resume. rewrite Hconnect.
    split; [|split].
    + intros ->. reflexivity.
    + intros message ->. reflexivity.
    + intros Hrow. rewrite Hrow. split; [reflexivity|].
      intros job_description skill.
      unfold check_skill_match, resume_text_for, Resume.get_active_resume.
      rewrite Hconnect, Hrow. reflexivity.
Qed.

Lemma get_resume_summary_contains_failures_witness :
  ResumeStore.get_resume_summary describe tables_with_null_text
    (lit "recJ9")
  = Return (summary_failure
              (lit "Database error: object of type 'NoneType' has no len()"))
  /\ check_skill_match (base tables_with_null_text)
       (lit "Epic EHR experience required.") (lit "epic") None
     = Raise AttributeError.
Proof.
  destruct (proj2 (proj2
              (proj2 (proj2
                 (@get_resume_summary_contains_failures describe
                    tables_with_null_text (lit "recJ9") eq_refl))
                 (or_introl eq_refl)))
              eq_refl) as [Hsummary Hcheck].
  split; [exact Hsummary | apply Hcheck].
Defined.

End OlderResumeTools.

(* ================================================================== *)
(** ** The webhook action and the tool *)
(* ================================================================== *)

Section WebhookAgreement.
Import Webhook.

Lemma except_same {A} (body : outcome A) :
  except_value_or_type body body = body.
Proof. destruct body as [a|[]]; reflexivity. Qed.

Lemma bind_assoc {A B C} (m : outcome A) (f : A -> outcome B)
    (g : B -> outcome C) :
  bind (bind m f) g = bind m (fun a => bind (f a) g).
Proof. destruct m; reflexivity. Qed.

(** The Epic step of the webhook action is the Epic step of the tool. *)
Lemma webhook_epic_step db job_description link :
  (if nonempty job_description then
     except_value_or_type
       (app_id <-
          (if link_given link
           then n <- int_of_link link ;; Return (Some n)
           else Return None) ;;
        m <- check_skill_match db job_description (lit "epic") app_id ;;
        Return (Some m))
       (m <- check_skill_match db job_description (lit "epic") None ;;
        Return (Some m))
   else Return None)
  = epic_step db job_description link.
Proof.
  unfold epic_step.
  destruct (nonempty job_description); [|reflexivity].
  destruct (link_given link).
  - rewrite bind_assoc. reflexivity.
  - cbn [bind]. apply except_same.
Qed.

(** The cold email step of the webhook action differs from the tool's
    in the note only. *)
Lemma webhook_cold_email_step db contact_type link :
  (exists e,
      (if link_given link then
         except_value_or_type
           (app_id <- int_of_link link ;;
            get_cold_email db app_id contact_type)
           (Return no_cold_email_data)
       else Return no_cold_email_data) = Raise e
      /\ cold_email_step db contact_type link = Raise e)
  \/ (exists d d',
         (if link_given link then
            except_value_or_type
              (app_id <- int_of_link link ;;
               get_cold_email db app_id contact_type)
              (Return no_cold_email_data)
          else Return no_cold_email_data) = Return d
         /\ cold_email_step db contact_type link = Return d'
         /\ cold_email d = cold_email d'
         /\ resume_context d = resume_context d').
Proof.
  unfold cold_email_step.
  destruct (link_given link); [|right; eauto 6].
  destruct (app_id <- int_of_link link ;;
            get_cold_email db app_id contact_type) as [d|[]];
    cbn; try (left; eauto; fail); right; eauto 7.
Qed.

(** X16.  For a contact id that is given, the webhook action
    [get_outreach_context] and the tool of the same name agree: they
    raise the same exception; where the tool reports a failure the
    action hands back the adapter's own answer; and where the tool
    returns a context the action returns its contact, job, cold email,
    resume context and Epic gap.  Without a contact id the action
    answers that one is required, and does not ask the adapter. *)
Theorem webhook_context_agrees_with_tool w contact_id :
  (truthy contact_id = false ->
   route_get_outreach_context w contact_id = Return ContactIdRequired)
  /\ (truthy contact_id = true ->
      match route_get_outreach_context w contact_id,
            get_outreach_context w (unwrap contact_id) with
      | Raise e, Raise e' => e = e'
      | Return (AdapterAnswer cj), Return (ContextFailure error) =>
          airtable w (unwrap contact_id) = Return cj
          /\ cj_success cj = false
          /\ error = match cj_error cj with
                     | Some e => e
                     | None => lit "Failed to fetch contact"
                     end
      | Return (WebhookContext contact job cold_email resume_context
                  has_epic_gap),
        Return (ContextSuccess fields) =>
          contact = ctx_contact fields
          /\ job = ctx_job fields
          /\ cold_email = ctx_cold_email fields
          /\ resume_context = ctx_resume_context fields
          /\ has_epic_gap = ctx_has_epic_gap fields
      | _, _ => False
      end).
Proof.
  unfold route_get_outreach_context, get_outreach_context.
  split; intros Hid; rewrite Hid; [reflexivity|].
  cbn [negb].
  destruct (airtable w (unwrap contact_id)) as [cj|e]; [|reflexivity].
  cbn [bind].
  destruct (cj_success cj) eqn:Hok; cbn [negb]; [|auto].
  cbv zeta. rewrite webhook_epic_step.
  destruct (webhook_cold_email_step (windmill w)
              match cj_contact cj with
              | Some c => contact_type c
              | None => lit "team_member"
              end
              match cj_job cj with
              | Some j => resume_postgres_id j
              | None => LinkNone
              end)
    as [(e & Hroute & Htool) | (d & d' & Hroute & Htool & Hce & Hrc)];
    rewrite Hroute, Htool; cbn [bind]; [reflexivity|].
  destruct (epic_step _ _ _) as [m|e]; [|reflexivity].
  cbn [bind ctx_contact ctx_job ctx_cold_email ctx_resume_context
       ctx_has_epic_gap].
  auto.
Qed.

Lemma webhook_context_agrees_with_tool_witness :
  route_get_outreach_context sample_world None = Return ContactIdRequired
  /\ match route_get_outreach_context sample_world (Some (lit "recA2")),
           get_outreach_context sample_world (lit "recA2") with
     | Return (WebhookContext _ _ cold_email _ has_epic_gap),
       Return (ContextSuccess fields) =>
         cold_email = ctx_cold_email fields
         /\ has_epic_gap = ctx_has_epic_gap fields
     | _, _ => False
     end.
Proof.
  split.
  - exact (proj1 (@webhook_context_agrees_with_tool sample_world None)
                 eq_refl).
  - pose proof (proj2 (@webhook_context_agrees_with_tool sample_world
                         (Some (lit "recA2"))) eq_refl) as H.
    vm_compute in H. vm_compute. tauto.
Defined.

End WebhookAgreement.

(* ================================================================== *)
(** ** Replies in a review thread *)
(* ================================================================== *)

Section ReviewReplies.
Import Discord.



Lemma lower_char_idem c : lower_char (lower_char c) = lower_char c.
Proof.
  destruct c as [[] [] [] [] [] [] [] []]; reflexivity.
Qed.

Lemma lstrip_forall drop (P : ascii -> Prop) (s : str) :
  Forall P s -> Forall P (lstrip drop s).
Proof.
  induction 1 as [|c t Hc Ht IH]; [constructor|].
  cbn [lstrip]. destruct (drop c); [exact IH | now constructor].
Qed.

Lemma strip_forall (P : ascii -> Prop) (s : str) :
  Forall P s -> Forall P (strip s).
Proof.
  intros H. unfold strip, strip_chars, rstrip.
  apply Forall_rev, lstrip_forall, Forall_rev, lstrip_forall, H.
Qed.

Lemma slice_from_forall (P : ascii -> Prop) (s : str) n :
  Forall P s -> Forall P (slice_from s n).
Proof.
  intros H. unfold slice_from.
  assert (forall k, Forall P (skipn k s)) as Hk.
  { intros k. rewrite <- (firstn_skipn k s) in H.
    apply Forall_app in H. apply H. }
  destruct (0 <=? n); apply Hk.
Qed.

Lemma lstrip_fixed drop (s : str) :
  match s with [] => True | c :: _ => drop c = false end ->
  lstrip drop s = s.
Proof.
  destruct s as [|c t]; [reflexivity|]. cbn [lstrip]. now intros ->.
Qed.

Lemma lstrip_idem drop (s : str) :
  lstrip drop (lstrip drop s) = lstrip drop s.
Proof.
  apply lstrip_fixed. destruct (lstrip drop s) as [|c t] eqn:E; [exact I|].
  eapply lstrip_head; eauto.
Qed.

Lemma strip_idem (s : str) : strip (strip s) = strip s.
Proof.
  unfold strip, strip_chars.
  assert (lstrip isspace (rstrip isspace (lstrip isspace s))
          = rstrip isspace (lstrip isspace s)) as ->.
  { apply lstrip_fixed.
    destruct (rstrip_prefix isspace (lstrip isspace s)) as [rest H].
    destruct (rstrip isspace (lstrip isspace s)) as [|c t]; [exact I|].
    eapply lstrip_head. rewrite H. reflexivity. }
  unfold rstrip at 1. unfold rstrip at 1.
  rewrite rev_involutive, lstrip_idem. reflexivity.
Qed.

(** X18.  The instruction of an edit is normalised before it reaches the
    refinement: it is never empty, it has no blank at either end, and it
    is in lower case, since the reply is lowered as a whole before the
    word [edit] is cut off. *)
Theorem edit_instruction_normalised (content instruction : str) :
  wait_for_response_parse content = Some (Edit instruction) ->
  instruction <> []
  /\ strip instruction = instruction
  /\ lower instruction = instruction.
Proof.
  unfold wait_for_response_parse.
  set (c := strip (lower content)).
  destruct (str_eqb c (lit "approve")); [discriminate|].
  destruct (str_eqb c (lit "skip")); [discriminate|].
  destruct (startswith c (lit "edit")); [|discriminate].
  assert (Forall (fun x => lower_char x = x) (strip (slice_from c 4)))
    as Hlow.
  { apply strip_forall, slice_from_forall. subst c.
    apply strip_forall. unfold lower.
    apply Forall_forall. intros x Hx. apply in_map_iff in Hx.
    destruct Hx as (y & <- & _). apply lower_char_idem. }
  destruct (strip (slice_from c 4)) as [|x i] eqn:Hi; cbn [nonempty];
    intros H; injection H as <-.
  - split; [discriminate|]. split; reflexivity.
  - split; [discriminate|]. split.
    + rewrite <- Hi. apply strip_idem.
    + unfold lower. clear Hi.
      induction Hlow as [|y t Hy _ IH]; [reflexivity|].
      cbn [map]. now rewrite Hy, IH.
Qed.

Lemma edit_instruction_normalised_witness :
  lit "mention fhir" <> []
  /\ strip (lit "mention fhir") = lit "mention fhir"
  /\ lower (lit "mention fhir") = lit "mention fhir".
Proof.
  exact (@edit_instruction_normalised (lit "  Edit   Mention FHIR ")
           (lit "mention fhir") eq_refl).
Defined.

End ReviewReplies.

(* ================================================================== *)
(** ** Contact search *)
(* ================================================================== *)

Section ContactSearch.
Import Apollo MoreSamples.

Lemma search_category_forall search company_name contact_type priority
    title_list :
  Forall (of_category company_name contact_type priority)
    (search_category search company_name contact_type priority title_list).
Proof.
  unfold search_category.
  destruct (search company_name title_list) as [|status_code people];
    [constructor|].
  destruct (status_code =? 200); [|constructor].
  apply Forall_forall. intros c Hc. apply in_map_iff in Hc.
  destruct Hc as (p & <- & _). repeat split.
Qed.

Lemma deduplicate_forall (P : apollo_contact -> Prop) l :
  Forall P l ->
  forall seen u, deduplicate seen l = Return u -> Forall P u.
Proof.
  induction 1 as [|c rest Hc Hrest IH]; intros seen u H.
  - injection H as <-. constructor.
  - cbn [deduplicate] in H.
    destruct (truthy (ap_linkedin_url c)).
    + destruct (negb (seen_has seen (unwrap (ap_linkedin_url c)))).
      * destruct (deduplicate _ rest) as [u'|e] eqn:E; [|discriminate].
        injection H as <-. constructor; [exact Hc | eapply IH; eauto].
      * eapply IH; eauto.
    + destruct (ap_name c) as [name|]; [|discriminate].
      destruct (nonempty (lower name) && negb (seen_has seen (lower name))).
      * destruct (deduplicate _ rest) as [u'|e] eqn:E; [|discriminate].
        injection H as <-. constructor; [exact Hc | eapply IH; eauto].
      * eapply IH; eauto.
Qed.

Lemma deduplicate_sorted (R : apollo_contact -> apollo_contact -> Prop) l :
  StronglySorted R l ->
  forall seen u, deduplicate seen l = Return u -> StronglySorted R u.
Proof.
  induction 1 as [|c rest Hrest IH Hc]; intros seen u H.
  - injection H as <-. constructor.
  - cbn [deduplicate] in H.
    destruct (truthy (ap_linkedin_url c)).
    + destruct (negb (seen_has seen (unwrap (ap_linkedin_url c)))).
      * destruct (deduplicate _ rest) as [u'|e] eqn:E; [|discriminate].
        injection H as <-.
        constructor; [eapply IH; eauto | eapply deduplicate_forall; eauto].
      * eapply IH; eauto.
    + destruct (ap_name c) as [name|]; [|discriminate].
      destruct (nonempty (lower name) && negb (seen_has seen (lower name))).
      * destruct (deduplicate _ rest) as [u'|e] eqn:E; [|discriminate].
        injection H as <-.
        constructor; [eapply IH; eauto | eapply deduplicate_forall; eauto].
      * eapply IH; eauto.
Qed.

Lemma sort_by_sorted {A} (key : A -> Z) (l : list A) :
  StronglySorted (fun a b => key a <= key b) l -> sort_by key l = l.
Proof.
  induction 1 as [|x t Ht IH Hx]; [reflexivity|].
  cbn [sort_by]. rewrite IH.
  destruct t as [|y t']; [reflexivity|].
  cbn [insert_sorted]. inversion Hx as [|? ? Hxy _]; subst.
  apply Z.leb_le in Hxy. now rewrite Hxy.
Qed.

Lemma sorted_app {A} (R : A -> A -> Prop) (l1 l2 : list A) :
  StronglySorted R l1 -> StronglySorted R l2 ->
  (forall a b, In a l1 -> In b l2 -> R a b) ->
  StronglySorted R (l1 ++ l2).
Proof.
  induction 1 as [|x t Ht IH Hx]; intros H2 Hcross; [exact H2|].
  cbn [app]. constructor.
  - apply IH; [exact H2|]. intros a b Ha Hb. apply Hcross; [now right|exact Hb].
  - apply Forall_app. split; [exact Hx|].
    apply Forall_forall. intros b Hb. apply Hcross; [now left|exact Hb].
Qed.

Lemma sorted_constant {A} (key : A -> Z) p (l : list A) :
  Forall (fun a => key a = p) l ->
  StronglySorted (fun a b => key a <= key b) l.
Proof.
  induction 1 as [|x t Hx Ht IH]; constructor; [exact IH|].
  eapply Forall_impl; [|exact Ht]. cbn. intros a Ha. lia.
Qed.

Lemma sorted_firstn {A} (R : A -> A -> Prop) k (l : list A) :
  StronglySorted R l -> StronglySorted R (firstn k l).
Proof.
  intros H. revert k. induction H as [|x t Ht IH Hx]; intros [|k];
    cbn [firstn]; try constructor; [apply IH|].
  rewrite <- (firstn_skipn k t) in Hx. apply Forall_app in Hx. apply Hx.
Qed.

Lemma category_priority search company_name contact_type priority
    title_list :
  Forall (fun c => ap_priority c = priority)
    (search_category search company_name contact_type priority title_list).
Proof.
  eapply Forall_impl; [|apply search_category_forall].
  intros c H. apply H.
Qed.

Lemma all_contacts_sorted search company_name titles :
  StronglySorted (fun a b => ap_priority a <= ap_priority b)
    (all_contacts search company_name titles).
Proof.
  unfold all_contacts.
  pose proof (category_priority search company_name (lit "hiring_manager")
                1 (managers titles)) as H1.
  pose proof (category_priority search company_name (lit "recruiter")
                2 (recruiters titles)) as H2.
  pose proof (category_priority search company_name (lit "team_member")
                3 (peers titles)) as H3.
  rewrite Forall_forall in H1, H2, H3.
  apply sorted_app; [eapply sorted_constant, Forall_forall, H1| |].
  - apply sorted_app;
      [eapply sorted_constant, Forall_forall, H2
      |eapply sorted_constant, Forall_forall, H3|].
    intros a b Ha Hb. rewrite (H2 a Ha), (H3 b Hb). lia.
  - intros a b Ha Hb. rewrite (H1 a Ha).
    apply in_app_or in Hb. destruct Hb as [Hb|Hb];
      [rewrite (H2 b Hb) | rewrite (H3 b Hb)]; lia.
Qed.

Lemma list_slice_to_firstn {A} (l : list A) n :
  exists k, list_slice_to l n = firstn k l.
Proof. unfold list_slice_to. destruct (0 <=? n); eauto. Qed.

(** What [find_contacts] returns, with the sort taken out. *)
Lemma find_contacts_inv search company_name job_title limit r :
  find_contacts search company_name job_title limit = Return r ->
  exists unique_contacts,
    deduplicate []
      (all_contacts search company_name (_get_role_titles job_title))
    = Return unique_contacts
    /\ r = {| fc_success := true;
              fc_company := company_name;
              fc_job_title := job_title;
              fc_contacts := list_slice_to unique_contacts limit;
              fc_total_found := Z.of_nat (List.length unique_contacts);
              fc_note :=
                lit "Contacts are 2nd/3rd degree (strangers). Use Hunter pipeline." |}.
Proof.
  unfold find_contacts.
  destruct (deduplicate [] _) as [u|e] eqn:E; [|discriminate].
  cbn [bind]. intros H. injection H as <-.
  exists u. split; [reflexivity|].
  rewrite sort_by_sorted; [reflexivity|].
  eapply deduplicate_sorted; [apply all_contacts_sorted | exact E].
Qed.

(** X19.  The contacts come back in the order of the searches: hiring
    managers, then recruiters, then team members, each group in the
    order of its response.  The sort by priority moves nothing, since
    the list is built in priority order, and [limit] cuts that list
    from the front: with fewer places than contacts the team members
    go first. *)
Theorem find_contacts_keeps_search_order
    search company_name job_title limit r :
  find_contacts search company_name job_title limit = Return r ->
  exists unique_contacts,
    deduplicate []
      (all_contacts search company_name (_get_role_titles job_title))
    = Return unique_contacts
    /\ fc_contacts r = list_slice_to unique_contacts limit
    /\ fc_total_found r = Z.of_nat (List.length unique_contacts)
    /\ StronglySorted (fun a b => ap_priority a <= ap_priority b)
         (fc_contacts r)
    /\ (0 <= limit ->
        Z.of_nat (List.length (fc_contacts r))
        = Z.min limit (fc_total_found r)).
Proof.
  intros H. apply find_contacts_inv in H.
  destruct H as (u & Hu & ->). exists u.
  cbn [fc_contacts fc_total_found].
  split; [exact Hu|]. split; [reflexivity|]. split; [reflexivity|].
  split.
  - destruct (list_slice_to_firstn u limit) as [k ->].
    apply sorted_firstn.
    eapply deduplicate_sorted; [apply all_contacts_sorted | exact Hu].
  - intros Hlimit. unfold list_slice_to.
    destruct (0 <=? limit) eqn:E; [|apply Z.leb_gt in E; lia].
    rewrite length_firstn. lia.
Qed.

Lemma find_contacts_keeps_search_order_witness :
  exists unique_contacts,
    deduplicate []
      (all_contacts sample_search (lit "Epic Systems")
         (_get_role_titles (lit "Software Engineer")))
    = Return unique_contacts
    /\ [{| ap_name := Some (lit "Sarah Johnson");
           ap_title := Some (lit "Engineering Manager");
           ap_linkedin_url := Some (lit "https://www.linkedin.com/in/sarah");
           ap_email := None;
           ap_contact_type := lit "hiring_manager";
           ap_contact_source := lit "apollo";
           ap_connection_degree := lit "2nd";
           ap_priority := 1;
           ap_company := lit "Epic Systems" |}]
       = list_slice_to unique_contacts 1
    /\ 2 = Z.of_nat (List.length unique_contacts)
    /\ StronglySorted (fun a b => ap_priority a <= ap_priority b)
         [{| ap_name := Some (lit "Sarah Johnson");
             ap_title := Some (lit "Engineering Manager");
             ap_linkedin_url :=
               Some (lit "https://www.linkedin.com/in/sarah");
             ap_email := None;
             ap_contact_type := lit "hiring_manager";
             ap_contact_source := lit "apollo";
             ap_connection_degree := lit "2nd";
             ap_priority := 1;
             ap_company := lit "Epic Systems" |}]
    /\ (0 <= 1 -> 1 = Z.min 1 2).
Proof.
  exact (@find_contacts_keeps_search_order sample_search
           (lit "Epic Systems") (lit "Software Engineer") 1 _ eq_refl).
Defined.

Lemma seen_has_iff seen key : seen_has seen key = true <-> In key seen.
Proof.
  unfold seen_has. rewrite existsb_exists. split.
  - intros (x & Hx & E). apply str_eqb_eq in E. now subst.
  - intros H. exists key. split; [exact H | now apply str_eqb_eq].
Qed.

Lemma deduplicate_keys l :
  forall seen u,
    deduplicate seen l = Return u ->
    NoDup (map seen_key u)
    /\ Forall (fun c => seen_key c <> [] /\ ~ In (seen_key c) seen) u.
Proof.
  induction l as [|c rest IH]; intros seen u H.
  - injection H as <-. split; constructor.
  - cbn [deduplicate] in H.
    destruct (truthy (ap_linkedin_url c)) eqn:Hurl.
    + destruct (seen_has seen (unwrap (ap_linkedin_url c))) eqn:Hseen;
        cbn [negb] in H; [eapply IH; eauto|].
      destruct (deduplicate _ rest) as [u'|e] eqn:E; [|discriminate].
      injection H as <-. destruct (IH _ _ E) as [Hnodup Hall].
      assert (seen_key c = unwrap (ap_linkedin_url c)) as Hkey
          by (unfold seen_key; now rewrite Hurl).
      split.
      * cbn [map]. constructor; [|exact Hnodup].
        rewrite Hkey. intros Hin. apply in_map_iff in Hin.
        destruct Hin as (c' & Hc' & Hin).
        rewrite Forall_forall in Hall. destruct (Hall c' Hin) as [_ Hnot].
        apply Hnot. rewrite Hc'. now left.
      * constructor.
        -- rewrite Hkey. split.
           ++ destruct (ap_linkedin_url c) as [[|x t]|]; discriminate.
           ++ intros Hin. apply seen_has_iff in Hin. congruence.
        -- eapply Forall_impl; [|exact Hall]. cbn.
           intros c' [Hne Hnot]. split; [exact Hne|].
           intros Hin. apply Hnot. now right.
    + destruct (ap_name c) as [name|] eqn:Hname; [|discriminate].
      destruct (nonempty (lower name)) eqn:Hne; cbn [andb] in H;
        [|eapply IH; eauto].
      destruct (seen_has seen (lower name)) eqn:Hseen;
        cbn [negb] in H; [eapply IH; eauto|].
      destruct (deduplicate _ rest) as [u'|e] eqn:E; [|discriminate].
      injection H as <-. destruct (IH _ _ E) as [Hnodup Hall].
      assert (seen_key c = lower name) as Hkey
          by (unfold seen_key; now rewrite Hurl, Hname).
      split.
      * cbn [map]. constructor; [|exact Hnodup].
        rewrite Hkey. intros Hin. apply in_map_iff in Hin.
        destruct Hin as (c' & Hc' & Hin).
        rewrite Forall_forall in Hall. destruct (Hall c' Hin) as [_ Hnot].
        apply Hnot. rewrite Hc'. now left.
      * constructor.
        -- rewrite Hkey. split.
           ++ destruct (lower name); discriminate.
           ++ intros Hin. apply seen_has_iff in Hin. congruence.
        -- eapply Forall_impl; [|exact Hall]. cbn.
           intros c' [Hne' Hnot]. split; [exact Hne'|].
           intros Hin. apply Hnot. now right.
Qed.

Lemma nodup_firstn {A} k (l : list A) : NoDup l -> NoDup (firstn k l).
Proof.
  intros H. revert k. induction H as [|x t Hx Ht IH]; intros [|k];
    cbn [firstn]; try constructor; [|apply IH].
  intros Hin. apply Hx.
  rewrite <- (firstn_skipn k t). apply in_or_app. now left.
Qed.

Lemma forall_firstn {A} (P : A -> Prop) k (l : list A) :
  Forall P l -> Forall P (firstn k l).
Proof.
  intros H. rewrite <- (firstn_skipn k l) in H.
  apply Forall_app in H. apply H.
Qed.

(** X20.  No contact is returned twice: the contacts that come back
    differ pairwise in the key they were kept under, the LinkedIn URL
    or, for want of one, the name in lower case; and none of them has an
    empty key, so that a person with neither URL nor name is dropped. *)
Theorem find_contacts_no_duplicates search company_name job_title limit r :
  find_contacts search company_name job_title limit = Return r ->
  NoDup (map seen_key (fc_contacts r))
  /\ Forall (fun c => seen_key c <> []) (fc_contacts r).
Proof.
  intros H. apply find_contacts_inv in H.
  destruct H as (u & Hu & ->). cbn [fc_contacts].
  destruct (deduplicate_keys _ _ Hu) as [Hnodup Hall].
  destruct (list_slice_to_firstn u limit) as [k ->]. split.
  - rewrite <- firstn_map. apply nodup_firstn, Hnodup.
  - apply forall_firstn. eapply Forall_impl; [|exact Hall].
    cbn. intros c Hc. apply Hc.
Qed.

Lemma find_contacts_no_duplicates_witness :
  NoDup (map seen_key
           (list_slice_to
              [{| ap_name := Some (lit "Sarah Johnson");
                  ap_title := Some (lit "Engineering Manager");
                  ap_linkedin_url :=
                    Some (lit "https://www.linkedin.com/in/sarah");
                  ap_email := None;
                  ap_contact_type := lit "hiring_manager";
                  ap_contact_source := lit "apollo";
                  ap_connection_degree := lit "2nd";
                  ap_priority := 1;
                  ap_company := lit "Epic Systems" |};
               {| ap_name := Some (lit "Sam Lee");
                  ap_title := Some (lit "Staff Engineer");
                  ap_linkedin_url := None;
                  ap_email := None;
                  ap_contact_type := lit "team_member";
                  ap_contact_source := lit "apollo";
                  ap_connection_degree := lit "2nd";
                  ap_priority := 3;
                  ap_company := lit "Epic Systems" |}] 5)).
Proof.
  exact (proj1 (@find_contacts_no_duplicates sample_search
                  (lit "Epic Systems") (lit "Software Engineer") 5 _
                  eq_refl)).
Defined.

(** X21.  Every contact that [find_contacts] returns is one for the
    hunter pipeline: it carries the source [apollo] and the degree
    [2nd], on which [determine_pipeline] answers [hunter]; and its
    priority is that of its contact type. *)
Theorem find_contacts_are_for_hunter
    search company_name job_title limit r :
  find_contacts search company_name job_title limit = Return r ->
  Forall (fun c =>
            determine_pipeline (ap_connection_degree c)
              (ap_contact_source c) = lit "hunter"
            /\ ap_company c = company_name
            /\ (of_category company_name (lit "hiring_manager") 1 c
                \/ of_category company_name (lit "recruiter") 2 c
                \/ of_category company_name (lit "team_member") 3 c))
    (fc_contacts r).
Proof.
  intros H. apply find_contacts_inv in H.
  destruct H as (u & Hu & ->). cbn [fc_contacts].
  destruct (list_slice_to_firstn u limit) as [k ->].
  apply forall_firstn.
  eapply deduplicate_forall; [|exact Hu].
  assert (forall contact_type priority c,
             of_category company_name contact_type priority c ->
             determine_pipeline (ap_connection_degree c)
               (ap_contact_source c) = lit "hunter"
             /\ ap_company c = company_name) as Hroute.
  { intros contact_type priority c (_ & _ & Hs & Hd & Hc).
    rewrite Hs, Hd. split; [reflexivity | exact Hc]. }
  assert (forall contact_type priority title_list,
             (forall c,
                 of_category company_name contact_type priority c ->
                 of_category company_name (lit "hiring_manager") 1 c
                 \/ of_category company_name (lit "recruiter") 2 c
                 \/ of_category company_name (lit "team_member") 3 c) ->
             Forall (fun c =>
                       determine_pipeline (ap_connection_degree c)
                         (ap_contact_source c) = lit "hunter"
                       /\ ap_company c = company_name
                       /\ (of_category company_name (lit "hiring_manager") 1 c
                           \/ of_category company_name (lit "recruiter") 2 c
                           \/ of_category company_name (lit "team_member") 3 c))
               (search_category search company_name contact_type priority
                  title_list)) as Hcategory.
  { intros contact_type priority title_list Hone.
    eapply Forall_impl; [|apply search_category_forall].
    intros c Hc. destruct (Hroute _ _ _ Hc) as [H1 H2].
    split; [exact H1|]. split; [exact H2|]. apply Hone, Hc. }
  unfold all_contacts.
  apply Forall_app. split; [apply Hcategory; auto|].
  apply Forall_app. split; apply Hcategory; auto.
Qed.

Lemma find_contacts_are_for_hunter_witness :
  Forall (fun c =>
            determine_pipeline (ap_connection_degree c)
              (ap_contact_source c) = lit "hunter"
            /\ ap_company c = lit "Epic Systems"
            /\ (of_category (lit "Epic Systems") (lit "hiring_manager") 1 c
                \/ of_category (lit "Epic Systems") (lit "recruiter") 2 c
                \/ of_category (lit "Epic Systems") (lit "team_member") 3 c))
    (list_slice_to
       [{| ap_name := Some (lit "Sarah Johnson");
           ap_title := Some (lit "Engineering Manager");
           ap_linkedin_url :=
             Some (lit "https://www.linkedin.com/in/sarah");
           ap_email := None;
           ap_contact_type := lit "hiring_manager";
           ap_contact_source := lit "apollo";
           ap_connection_degree := lit "2nd";
           ap_priority := 1;
           ap_company := lit "Epic Systems" |};
        {| ap_name := Some (lit "Sam Lee");
           ap_title := Some (lit "Staff Engineer");
           ap_linkedin_url := None;
           ap_email := None;
           ap_contact_type := lit "team_member";
           ap_contact_source := lit "apollo";
           ap_connection_degree := lit "2nd";
           ap_priority := 3;
           ap_company := lit "Epic Systems" |}] 5).
Proof.
  exact (@find_contacts_are_for_hunter sample_search
           (lit "Epic Systems") (lit "Software Engineer") 5 _ eq_refl).
Defined.

Lemma deduplicate_raise l :
  forall seen e,
    deduplicate seen l = Raise e <->
    e = AttributeError
    /\ Exists (fun c => truthy (ap_linkedin_url c) = false
                        /\ ap_name c = None) l.
Proof.
  induction l as [|c rest IH]; intros seen e.
  - cbn. split; [discriminate|]. intros [_ H]. inversion H.
  - cbn [deduplicate].
    assert (forall seen',
               (x <- deduplicate seen' rest ;; Return (c :: x)) = Raise e
               <-> deduplicate seen' rest = Raise e) as Hbind.
    { intros seen'. destruct (deduplicate seen' rest); cbn;
        split; congruence. }
    assert (~ (truthy (ap_linkedin_url c) = false /\ ap_name c = None) ->
            forall seen',
              deduplicate seen' rest = Raise e <->
              e = AttributeError
              /\ Exists (fun c => truthy (ap_linkedin_url c) = false
                                  /\ ap_name c = None) (c :: rest))
      as Hskip.
    { intros Hgood seen'. rewrite IH. split; intros [He Hex];
        (split; [exact He|]).
      - now right.
      - inversion Hex; subst; [contradiction | assumption]. }
    destruct (truthy (ap_linkedin_url c)) eqn:Hurl.
    + destruct (negb (seen_has seen (unwrap (ap_linkedin_url c))));
        [rewrite Hbind|]; apply Hskip; intros [H _]; discriminate.
    + destruct (ap_name c) as [name|] eqn:Hname.
      * destruct (nonempty (lower name) && negb (seen_has seen (lower name)));
          [rewrite Hbind|]; apply Hskip; intros [_ H]; discriminate.
      * split.
        -- intros H. injection H as <-. split; [reflexivity|].
           left. now split.
        -- intros [-> _]. reflexivity.
Qed.

(** X22.  A search that fails does not fail the call: with every search
    raising or answering another status than 200, [find_contacts] is a
    success with no contacts.  What does fail the call is a person of a
    response with neither a LinkedIn URL nor a name ([null] for the
    name): the call raises [AttributeError] exactly when there is one,
    and raises nothing else. *)
Theorem find_contacts_failures search company_name job_title limit :
  ((forall title_list,
       match search company_name title_list with
       | SearchRaised => True
       | SearchStatus status_code _ => status_code <> 200
       end) ->
   find_contacts search company_name job_title limit
   = Return {| fc_success := true;
               fc_company := company_name;
               fc_job_title := job_title;
               fc_contacts := [];
               fc_total_found := 0;
               fc_note :=
                 lit "Contacts are 2nd/3rd degree (strangers). Use Hunter pipeline." |})
  /\ (forall e,
         find_contacts search company_name job_title limit = Raise e <->
         e = AttributeError
         /\ Exists (fun c => truthy (ap_linkedin_url c) = false
                             /\ ap_name c = None)
              (all_contacts search company_name
                 (_get_role_titles job_title))).
Proof.
  split.
  - intros Hdown. unfold find_contacts.
    assert (forall contact_type priority title_list,
               search_category search company_name contact_type priority
                 title_list = []) as Hnone.
    { intros contact_type priority title_list. unfold search_category.
      specialize (Hdown title_list).
      destruct (search company_name title_list) as [|status_code people];
        [reflexivity|].
      apply Z.eqb_neq in Hdown. now rewrite Hdown. }
    unfold all_contacts. rewrite !Hnone. cbn.
    unfold list_slice_to. destruct (0 <=? limit);
      now rewrite firstn_nil.
  - intros e. rewrite <- (deduplicate_raise _ []). unfold find_contacts.
    destruct (deduplicate [] _) as [u|e']; cbn [bind]; split; congruence.
Qed.

Lemma find_contacts_failures_witness :
  find_contacts search_down (lit "Epic Systems") (lit "Software Engineer") 5
  = Return {| fc_success := true;
              fc_company := lit "Epic Systems";
              fc_job_title := lit "Software Engineer";
              fc_contacts := [];
              fc_total_found := 0;
              fc_note :=
                lit "Contacts are 2nd/3rd degree (strangers). Use Hunter pipeline." |}
  /\ find_contacts search_with_nameless (lit "Epic Systems")
       (lit "Software Engineer") 5
     = Raise AttributeError.
Proof.
  split.
  - apply (proj1 (@find_contacts_failures search_down (lit "Epic Systems")
                    (lit "Software Engineer") 5)).
    intros title_list. exact I.
  - apply (proj2 (@find_contacts_failures search_with_nameless
                    (lit "Epic Systems") (lit "Software Engineer") 5)).
    split; [reflexivity|].
    right. left. split; reflexivity.
Defined.

(** X23.  The keyword [product design] of the design roles is dead: a
    job title that contains it contains [product], which the product
    management roles claim earlier, so that such a title is searched
    with the engineering or the product titles and never with the
    design titles. *)
Theorem product_design_is_not_design (job_title : str) :
  contains (lit "product design") (lower job_title) = true ->
  (_get_role_titles job_title = engineering_titles
   \/ _get_role_titles job_title = product_titles)
  /\ _get_role_titles job_title <> design_titles.
Proof.
  intros H. apply contains_iff in H. destruct H as (pre & post & H).
  assert (contains (lit "product") (lower job_title) = true) as Hproduct.
  { apply contains_iff. exists pre, (lit " design" ++ post).
    rewrite H. reflexivity. }
  unfold _get_role_titles.
  destruct (any_in _ (lower job_title)); [split; [now left | discriminate]|].
  assert (any_in [lit "product manager"; lit "product owner"; lit "pm";
                  lit "product"] (lower job_title) = true) as ->.
  { unfold any_in. cbn [existsb]. rewrite Hproduct. cbn [orb].
    now rewrite !orb_true_r. }
  split; [now right | discriminate].
Qed.

Lemma product_design_is_not_design_witness :
  (_get_role_titles (lit "Senior Product Designer") = engineering_titles
   \/ _get_role_titles (lit "Senior Product Designer") = product_titles)
  /\ _get_role_titles (lit "Senior Product Designer") <> design_titles.
Proof.
  exact (@product_design_is_not_design (lit "Senior Product Designer")
           eq_refl).
Defined.

End ContactSearch.

(* ================================================================== *)
(** ** From the Airtable record to the resolver *)
(* ================================================================== *)

Section AdapterAndResolver.
Import Airtable MoreSamples.

(** The contact dict that the adapter builds from a record. *)
Lemma get_contact_with_job_found b contact_id record cj :
  contacts_table b contact_id = Return (Found record) ->
  get_contact_with_job b contact_id = Return cj ->
  cj_success cj = true
  /\ cj_contact cj
     = Some {| contact_id := contact_record_id record;
               name := get (Name record) [];
               title := get (Title record) [];
               linkedin_url := get (LinkedIn_URL record) [];
               email := get (Email record) [];
               contact_type := get (Contact_Type record) [];
               contact_source := get (Contact_Source record) (lit "apollo");
               connection_degree :=
                 get (Connection_Degree record) (lit "2nd");
               connected_on := get (Connected_On record) [];
               message_draft := get (Message_Draft record) [] |}.
Proof.
  intros Hrecord. unfold get_contact_with_job. rewrite Hrecord.
  cbn [bind].
  destruct (Job_Application record) as [|job_id rest].
  - cbn [bind]. intros H. injection H as <-. split; reflexivity.
  - destruct (jobs_table b job_id) as [[job_record|text]|e];
      cbn [bind]; intros H; try discriminate H;
      injection H as <-; split; reflexivity.
Qed.

Lemma cold_email_step_other_type db contact_type link :
  contact_type <> lit "hiring_manager" ->
  contact_type <> lit "recruiter" ->
  cold_email_step db contact_type link
  = cold_email_step db (lit "team_member") link.
Proof.
  intros Hm Hr. apply str_eqb_neq in Hm. apply str_eqb_neq in Hr.
  unfold cold_email_step.
  destruct (link_given link); [|reflexivity].
  destruct (int_of_link link) as [application_id|e]; [|reflexivity].
  cbn [bind]. unfold get_cold_email. rewrite Hm, Hr.
  reflexivity.
Qed.

Lemma determine_pipeline_farmer connection_degree contact_source :
  determine_pipeline connection_degree contact_source = lit "farmer"
  <-> connection_degree = lit "1st" \/ contact_source = lit "csv_import".
Proof.
  unfold determine_pipeline.
  rewrite <- !str_eqb_eq, <- orb_true_iff.
  destruct (_ || _); split; intros H; try reflexivity; discriminate H.
Qed.

(** X24.  A linked job that cannot be fetched is not an error of the
    adapter: with a contact record that has no link, or whose first
    linked job answers another status than 200, the adapter reports a
    success without job, and the resolver turns it into a context
    without job, cold email, resume context or Epic gap, whatever the
    state of the database. *)
Theorem contact_with_lost_job_resolves b db contact_id record :
  contacts_table b contact_id = Return (Found record) ->
  match Job_Application record with
  | [] => True
  | job_id :: _ => exists text, jobs_table b job_id = Return (NotFound text)
  end ->
  exists cj c,
    get_contact_with_job b contact_id = Return cj
    /\ cj_success cj = true
    /\ cj_contact cj = Some c
    /\ cj_job cj = None
    /\ get_outreach_context (world_of b db) contact_id
       = Return (ContextSuccess
                   {| ctx_contact := Some c;
                      ctx_job := None;
                      ctx_cold_email := None;
                      ctx_resume_context := None;
                      ctx_fallback_used := true;
                      ctx_source_field := None;
                      ctx_has_epic_gap := false;
                      ctx_epic_recommendation := None |}).
Proof.
  intros Hrecord Hjob.
  assert (exists cj,
             get_contact_with_job b contact_id = Return cj
             /\ cj_job cj = None) as (cj & Hcj & Hnone).
  { unfold get_contact_with_job. rewrite Hrecord. cbn [bind].
    destruct (Job_Application record) as [|job_id rest].
    - eexists. split; reflexivity.
    - destruct Hjob as [text ->]. eexists. split; reflexivity. }
  destruct (get_contact_with_job_found _ _ Hrecord Hcj) as [Hok Hcontact].
  exists cj. eexists. split; [exact Hcj|]. split; [exact Hok|].
  split; [exact Hcontact|]. split; [exact Hnone|].
  rewrite (@get_outreach_context_found (world_of b db) contact_id cj Hcj Hok).
  unfold link_of. rewrite Hnone, Hcontact. reflexivity.
Qed.

Lemma contact_with_lost_job_resolves_witness :
  exists cj c,
    get_contact_with_job base_with_lost_job (lit "recA7") = Return cj
    /\ cj_success cj = true
    /\ cj_contact cj = Some c
    /\ cj_job cj = None
    /\ get_outreach_context (world_of base_with_lost_job unreachable_db)
         (lit "recA7")
       = Return (ContextSuccess
                   {| ctx_contact := Some c;
                      ctx_job := None;
                      ctx_cold_email := None;
                      ctx_resume_context := None;
                      ctx_fallback_used := true;
                      ctx_source_field := None;
                      ctx_has_epic_gap := false;
                      ctx_epic_recommendation := None |}).
Proof.
  apply (@contact_with_lost_job_resolves base_with_lost_job unreachable_db
           (lit "recA7") bare_contact_record eq_refl).
  exists (lit "NOT_FOUND"). reflexivity.
Defined.

(** X25.  Read from the Airtable record, the pipeline of a contact is
    the farmer pipeline exactly when the record says [1st] for the
    connection degree or [csv_import] for the source.  A record that
    has neither field is given [2nd] and [apollo] by the adapter, and is
    a contact for the hunter pipeline. *)
Theorem record_decides_pipeline b contact_id record cj :
  contacts_table b contact_id = Return (Found record) ->
  get_contact_with_job b contact_id = Return cj ->
  exists c,
    cj_contact cj = Some c
    /\ (determine_pipeline (connection_degree c) (contact_source c)
        = lit "farmer"
        <-> Connection_Degree record = Some (lit "1st")
            \/ Contact_Source record = Some (lit "csv_import"))
    /\ (Connection_Degree record = None ->
        Contact_Source record = None ->
        determine_pipeline (connection_degree c) (contact_source c)
        = lit "hunter").
Proof.
  intros Hrecord Hcj.
  destruct (get_contact_with_job_found _ _ Hrecord Hcj) as [_ Hcontact].
  eexists. split; [exact Hcontact|].
  cbn [connection_degree contact_source].
  rewrite determine_pipeline_farmer. split.
  - destruct (Connection_Degree record) as [d|];
      destruct (Contact_Source record) as [src|]; cbn [get];
      (split; intros [H|H]; try discriminate H;
       first [left; congruence | right; congruence]).
  - intros -> ->. reflexivity.
Qed.

Lemma record_decides_pipeline_witness :
  exists c,
    Some {| contact_id := lit "recA7";
            name := lit "Dana Cruz";
            title := [];
            linkedin_url := [];
            email := [];
            contact_type := [];
            contact_source := lit "apollo";
            connection_degree := lit "2nd";
            connected_on := [];
            message_draft := [] |} = Some c
    /\ (determine_pipeline (connection_degree c) (contact_source c)
        = lit "farmer"
        <-> Connection_Degree bare_contact_record = Some (lit "1st")
            \/ Contact_Source bare_contact_record
               = Some (lit "csv_import"))
    /\ (Connection_Degree bare_contact_record = None ->
        Contact_Source bare_contact_record = None ->
        determine_pipeline (connection_degree c) (contact_source c)
        = lit "hunter").
Proof.
  exact (@record_decides_pipeline base_with_lost_job (lit "recA7")
           bare_contact_record _ eq_refl eq_refl).
Defined.

(** X26.  The resolver's default contact type [team_member] is never
    applied to an answer of the adapter: a success always carries a
    contact, and a failure carries neither contact nor job.  For a
    record without [Contact_Type] the adapter's own default is the
    empty string, which the cold-email step serves as it serves
    [team_member]. *)
Theorem adapter_contact_type_default b contact_id cj :
  get_contact_with_job b contact_id = Return cj ->
  (if cj_success cj
   then exists c, cj_contact cj = Some c
   else cj_contact cj = None /\ cj_job cj = None
        /\ exists text,
             cj_error cj = Some (lit "Contact not found: " ++ text))
  /\ (forall record c,
         contacts_table b contact_id = Return (Found record) ->
         Contact_Type record = None ->
         cj_contact cj = Some c ->
         contact_type c = []
         /\ forall db link,
              cold_email_step db (contact_type c) link
              = cold_email_step db (lit "team_member") link).
Proof.
  intros Hcj. split.
  - unfold get_contact_with_job in Hcj.
    destruct (contacts_table b contact_id) as [[record|text]|e] eqn:Hrecord;
      cbn [bind] in Hcj; [| |discriminate].
    + pose proof Hrecord as Hfound.
      eapply get_contact_with_job_found in Hfound as [Hok Hc].
      * rewrite Hok. eexists. exact Hc.
      * unfold get_contact_with_job. rewrite Hrecord. exact Hcj.
    + injection Hcj as <-. cbn. repeat split. now exists text.
  - intros record c Hrecord Htype Hc.
    destruct (get_contact_with_job_found _ _ Hrecord Hcj) as [_ Hcontact].
    rewrite Hcontact in Hc. injection Hc as <-.
    cbn [contact_type]. rewrite Htype. cbn [get].
    split; [reflexivity|]. intros db link.
    apply cold_email_step_other_type; discriminate.
Qed.

Lemma adapter_contact_type_default_witness :
  (exists c,
      Some {| contact_id := lit "recA7";
              name := lit "Dana Cruz";
              title := [];
              linkedin_url := [];
              email := [];
              contact_type := [];
              contact_source := lit "apollo";
              connection_degree := lit "2nd";
              connected_on := [];
              message_draft := [] |} = Some c)
  /\ get_contact_with_job base_with_lost_job (lit "recA0")
     = Return {| cj_success := false;
                 cj_error := Some (lit "Contact not found: NOT_FOUND");
                 cj_contact := None;
                 cj_job := None |}.
Proof.
  split.
  - exact (proj1 (@adapter_contact_type_default base_with_lost_job
                    (lit "recA7") _ eq_refl)).
  - reflexivity.
Defined.

End AdapterAndResolver.

(* ================================================================== *)
(** ** Writing contacts *)
(* ================================================================== *)

Section Writes.
Import AirtableWrites MoreSamples.

Lemma save_loop_sent airtable job_id contacts :
  forall created_ids errors sent out sent',
    save_loop airtable job_id contacts created_ids errors sent
    = (out, sent') ->
    match out with
    | Return (created_ids', errors') =>
        sent' = sent ++ map (fun contact =>
                               POST (lit "Contacts")
                                 (contact_fields job_id contact)) contacts
        /\ (List.length created_ids' + List.length errors'
            = List.length created_ids + List.length errors
              + List.length contacts)%nat
    | Raise e =>
        exists k,
          (k < List.length contacts)%nat
          /\ sent' = sent ++ map (fun contact =>
                                    POST (lit "Contacts")
                                      (contact_fields job_id contact))
                               (firstn (S k) contacts)
    end.
Proof.
  induction contacts as [|contact rest IH];
    intros created_ids errors sent out sent' H.
  - cbn in H. injection H as <- <-. cbn. rewrite app_nil_r.
    split; [reflexivity | lia].
  - cbn [save_loop] in H. unfold io_bind, send in H.
    destruct (airtable sent _) as [[record_id|text]|e] eqn:Hresponse.
    + apply IH in H. destruct out as [[created_ids' errors']|e].
      * destruct H as [-> Hcount]. rewrite <- app_assoc. split; [reflexivity|].
        rewrite length_app in Hcount. cbn [List.length] in *. lia.
      * destruct H as (k & Hk & ->). exists (S k).
        split; [cbn [List.length]; lia|].
        rewrite <- app_assoc. reflexivity.
    + apply IH in H. destruct out as [[created_ids' errors']|e].
      * destruct H as [-> Hcount]. rewrite <- app_assoc. split; [reflexivity|].
        rewrite length_app in Hcount. cbn [List.length] in *. lia.
      * destruct H as (k & Hk & ->). exists (S k).
        split; [cbn [List.length]; lia|].
        rewrite <- app_assoc. reflexivity.
    + injection H as <- <-. exists 0%nat.
      split; [cbn [List.length]; lia | reflexivity].
Qed.

(** X27.  [save_contacts] sends one POST per contact, in the order of
    the list, and a contact that Airtable rejects does not stop the
    loop: every contact ends among the created ids or among the errors,
    and the call is a success when all were created.  An exception of
    the client stops the loop where it is, after the contacts before it
    were sent. *)
Theorem save_contacts_posts_every_contact
    airtable job_id contacts sent out sent' :
  save_contacts airtable job_id contacts sent = (out, sent') ->
  match out with
  | Return r =>
      sent' = sent ++ map (fun contact =>
                             POST (lit "Contacts")
                               (contact_fields job_id contact)) contacts
      /\ created_count r + Z.of_nat (List.length (errors r))
         = Z.of_nat (List.length contacts)
      /\ created_count r = Z.of_nat (List.length (created_ids r))
      /\ (success r = true
          <-> created_count r = Z.of_nat (List.length contacts))
  | Raise e =>
      exists k,
        (k < List.length contacts)%nat
        /\ sent' = sent ++ map (fun contact =>
                                  POST (lit "Contacts")
                                    (contact_fields job_id contact))
                             (firstn (S k) contacts)
  end.
Proof.
  unfold save_contacts, io_bind.
  destruct (save_loop airtable job_id contacts [] [] sent)
    as [[[created_ids' errors']|e] sent''] eqn:Hloop;
    intros H; injection H as <- <-;
    apply save_loop_sent in Hloop.
  - destruct Hloop as [-> Hcount].
    cbn [created_count errors created_ids success List.length] in *.
    split; [reflexivity|]. split; [lia|]. split; [reflexivity|].
    rewrite Nat.eqb_eq. lia.
  - exact Hloop.
Qed.

Lemma save_contacts_posts_every_contact_witness :
  [POST (lit "Contacts") (contact_fields (lit "recJ1")
                            [(lit "name", JString (lit "Sarah Johnson"));
                             (lit "contact_type",
                               JString (lit "hiring_manager"));
                             (lit "priority", JNumber 1)]);
   POST (lit "Contacts") (contact_fields (lit "recJ1")
                            [(lit "name", JString (lit "Sam Lee"));
                             (lit "email",
                               JString (lit "sam@example.com"))])]
  = [] ++ map (fun contact =>
                 POST (lit "Contacts")
                   (contact_fields (lit "recJ1") contact)) two_contacts
  /\ 1 + Z.of_nat (List.length [{| error_contact := JString (lit "Sam Lee");
                                   error_text := lit "RATE_LIMITED" |}])
     = Z.of_nat (List.length two_contacts)
  /\ 1 = Z.of_nat (List.length [lit "recC1"])
  /\ (false = true <-> 1 = Z.of_nat (List.length two_contacts)).
Proof.
  exact (@save_contacts_posts_every_contact accepting_once (lit "recJ1")
           two_contacts [] (Return _) _ eq_refl).
Defined.

(** X28.  Given an empty list of contacts, the tool
    [save_contacts_to_airtable] sends no contact and still marks the
    job: its only request sets [Contacts_Found] on the job, and it
    returns a success with nothing created, also when Airtable rejects
    that request.  The webhook action of the same name refuses an empty
    or missing list before any request; for a job id and a list that
    are not empty it does what the tool does. *)
Theorem empty_contact_list_marks_job airtable job_id sent :
  (forall response,
      airtable sent (PATCH (lit "Applications") job_id
                       [(lit "Contacts_Found", JBool true)])
      = Return response ->
      ServerWrites.save_contacts_to_airtable airtable job_id [] sent
      = (Return {| success := true;
                   created_count := 0;
                   created_ids := [];
                   errors := [] |},
         sent ++ [PATCH (lit "Applications") job_id
                    [(lit "Contacts_Found", JBool true)]]))
  /\ (job_id <> [] ->
      ServerWrites.route_save_contacts_to_airtable airtable (Some job_id)
        (Some []) sent
      = (Return (ServerWrites.Refused (lit "contacts list is required")),
         sent)
      /\ ServerWrites.route_save_contacts_to_airtable airtable
           (Some job_id) None sent
         = (Return (ServerWrites.Refused
                      (lit "contacts list is required")), sent)
      /\ forall contacts,
           contacts <> [] ->
           ServerWrites.route_save_contacts_to_airtable airtable
             (Some job_id) (Some contacts) sent
           = match ServerWrites.save_contacts_to_airtable airtable job_id
                     contacts sent with
             | (Return result, sent') =>
                 (Return (ServerWrites.Routed result), sent')
             | (Raise e, sent') => (Raise e, sent')
             end).
Proof.
  split.
  - intros response Hresponse.
    unfold ServerWrites.save_contacts_to_airtable, save_contacts,
      mark_contacts_found, update_job, io_bind, send, ret.
    cbn [save_loop ret success List.length Nat.eqb].
    unfold ret. rewrite Hresponse. destruct response; reflexivity.
  - intros Hjob.
    assert (truthy (Some job_id) = true) as Htruthy
        by (destruct job_id; [contradiction | reflexivity]).
    unfold ServerWrites.route_save_contacts_to_airtable.
    rewrite Htruthy. cbn [negb unwrap].
    split; [reflexivity|]. split; [reflexivity|].
    intros [|contact rest] Hcontacts; [contradiction|].
    unfold ServerWrites.save_contacts_to_airtable, io_bind.
    destruct (save_contacts airtable job_id (contact :: rest) sent)
      as [[result|e] sent']; [|reflexivity].
    destruct (success result); [|reflexivity].
    destruct (mark_contacts_found airtable job_id sent') as [[u|e] sent''];
      reflexivity.
Qed.

Lemma empty_contact_list_marks_job_witness :
  ServerWrites.save_contacts_to_airtable rejecting (lit "recJ1") [] []
  = (Return {| success := true;
               created_count := 0;
               created_ids := [];
               errors := [] |},
     [] ++ [PATCH (lit "Applications") (lit "recJ1")
              [(lit "Contacts_Found", JBool true)]])
  /\ ServerWrites.route_save_contacts_to_airtable rejecting
       (Some (lit "recJ1")) (Some []) []
     = (Return (ServerWrites.Refused (lit "contacts list is required")),
        []).
Proof.
  split.
  - exact (proj1 (@empty_contact_list_marks_job rejecting (lit "recJ1") [])
                 _ eq_refl).
  - apply (proj2 (@empty_contact_list_marks_job rejecting (lit "recJ1") [])).
    discriminate.
Defined.

(** X29.  The tool [mark_contact_approved] reports the approval whatever
    Airtable answers: it sends one update that sets the status
    [Approved] and the final message, and returns a success with the
    message and the URL also when the update is rejected.  Only an
    exception of the client keeps it from returning. *)
Theorem approval_reported_whatever_airtable_says
    airtable contact_id final_message linkedin_url sent :
  snd (ServerWrites.mark_contact_approved airtable contact_id
         final_message linkedin_url sent)
  = sent ++ [PATCH (lit "Contacts") contact_id
               [(lit "Outreach_Status", JString (lit "Approved"));
                (lit "Message_Final", JString final_message)]]
  /\ match airtable sent
             (PATCH (lit "Contacts") contact_id
                [(lit "Outreach_Status", JString (lit "Approved"));
                 (lit "Message_Final", JString final_message)]) with
     | Return _ =>
         exists a,
           fst (ServerWrites.mark_contact_approved airtable contact_id
                  final_message linkedin_url sent) = Return a
           /\ ServerWrites.approval_success a = true
           /\ ServerWrites.approval_message a = final_message
           /\ ServerWrites.approval_linkedin_url a = linkedin_url
     | Raise e =>
         fst (ServerWrites.mark_contact_approved airtable contact_id
                final_message linkedin_url sent) = Raise e
     end.
Proof.
  unfold ServerWrites.mark_contact_approved, mark_contact_approved,
    update_contact_status, io_bind, send, ret.
  change (status_fields (lit "Approved")
            (Some [(lit "Message_Final", JString final_message)]))
    with [(lit "Outreach_Status", JString (lit "Approved"));
          (lit "Message_Final", JString final_message)].
  destruct (airtable sent _) as [[record_id|text]|e]; cbn [fst snd];
    (split; [reflexivity|]); try reflexivity;
    eexists; repeat split.
Qed.

Lemma dict_get_set (d : dict) key value key' :
  dict_get (dict_set d key value) key'
  = if str_eqb key key' then Some value else dict_get d key'.
Proof.
  induction d as [|[k v] rest IH]; cbn [dict_set dict_get].
  - reflexivity.
  - destruct (str_eqb k key) eqn:Ek; cbn [dict_get].
    + apply str_eqb_eq in Ek. subst k.
      destruct (str_eqb key key'); reflexivity.
    + rewrite IH. destruct (str_eqb k key') eqn:Ek'; [|reflexivity].
      apply str_eqb_eq in Ek'. subst key'.
      destruct (str_eqb key k) eqn:E; [|reflexivity].
      apply str_eqb_eq in E. subst key.
      apply str_eqb_neq in Ek. contradiction.
Qed.

Lemma dict_get_app (d d' : dict) key :
  dict_get (d ++ d') key
  = match dict_get d key with
    | Some v => Some v
    | None => dict_get d' key
    end.
Proof.
  induction d as [|[k v] rest IH]; [reflexivity|].
  cbn [app dict_get]. destruct (str_eqb k key); [reflexivity | exact IH].
Qed.

(** In an update the last value given for a key wins. *)
Lemma dict_get_update (other d : dict) key :
  dict_get (dict_update d other) key
  = match dict_get (rev other) key with
    | Some v => Some v
    | None => dict_get d key
    end.
Proof.
  unfold dict_update. revert d.
  induction other as [|[k v] rest IH]; intros d; [reflexivity|].
  cbn [fold_left fst snd rev]. rewrite IH, dict_get_app, dict_get_set.
  cbn [dict_get].
  destruct (dict_get (rev rest) key); [reflexivity|].
  destruct (str_eqb k key); reflexivity.
Qed.

(** X30.  The status that [update_contact_status] writes and the status
    it reports can differ: the additional fields are laid over the
    status field, so that an [Outreach_Status] among them is the one
    written, while the [new_status] of the answer is always the status
    asked for.  Without such a field the status asked for is written,
    as in [save_message_draft] and [mark_contact_approved]. *)
Theorem status_update_can_be_overridden
    airtable contact_id status additional_fields sent :
  exists fields,
    snd (update_contact_status airtable contact_id status
           additional_fields sent)
    = sent ++ [PATCH (lit "Contacts") contact_id fields]
    /\ dict_get fields (lit "Outreach_Status")
       = Some match
                dict_get (rev match additional_fields with
                              | Some other => other
                              | None => []
                              end) (lit "Outreach_Status")
              with
              | Some v => v
              | None => JString status
              end
    /\ forall record_id new_status,
         fst (update_contact_status airtable contact_id status
                additional_fields sent)
         = Return (Updated record_id new_status) ->
         record_id = contact_id /\ new_status = Some status.
Proof.
  exists (status_fields status additional_fields).
  unfold update_contact_status, io_bind, send, ret.
  split; [|split].
  - destruct (airtable sent _) as [[record_id|text]|e]; reflexivity.
  - unfold status_fields.
    destruct additional_fields as [[|kv more]|];
      [reflexivity | | reflexivity].
    rewrite dict_get_update.
    destruct (dict_get (rev (kv :: more)) _); reflexivity.
  - intros record_id new_status.
    destruct (airtable sent _) as [[accepted|text]|e]; cbn [fst];
      intros H; try discriminate H.
    injection H as <- <-. split; reflexivity.
Qed.

End Writes.
